(** * Activity predictor: one-hot encoder, decision policy and memoization

    A shallow embedding of [predictor_call.py] (the [onehot] encoder and the
    [Predictor] class) together with the properties of its natural-language
    specification.

    Modelling conventions.
    - Python floats and the float32 entries of the numpy arrays are modelled
      as exact rationals ([Q]); rounding is not modelled.  Python's
      [max(a, b)] and [>=] are written out on [Q].
    - Python exceptions are values of [exn]; a computation that may raise
      returns [res A = exn + A].
    - Strings are [string]s over [ascii]; a pair is [(target_with_context,
      guide)].
    - The attributes of [self] are the fields of the record [Predictor]; the
      two loaded models are opaque functions from a batch of encoded inputs
      to the list of their scalar outputs.  Every [model.call] is recorded in
      the ghost field [model_calls], so that statements about which inputs
      reach which model can be made.
    - Methods that mutate [self] are state transformers
      [Predictor -> res A * Predictor]: an exception keeps the mutations made
      before it was raised, as in Python.
    - [self._memoized_evaluations] is a dict of dicts: a [gmap] from start
      position to a [gmap] from pair to result.
    - [set(pairs)] iterates in an order fixed by the hash values of the
      elements; the iteration order is a parameter ([set_iter]) of which only
      the absence of duplicates and the element set are known. *)

From Stdlib Require Import QArith Ascii String.
From stdpp Require Import gmap strings list fin_maps.

(** ** Exceptions *)

Inductive exn : Type :=
| KeyError (key : ascii)               (* FASTA_CODES[b] on a missing key *)
| KeyErrorPair (key : string * string) (* mem[pair] on a missing key *)
| IndexError                           (* sequence index out of range *)
| AssertionError                       (* a failed assert *)
| ValueError                           (* numpy shape mismatch, bad threshold *)
| Exception.                           (* raise Exception(...) *)

Definition res (A : Type) : Type := (exn + A)%type.

Definition res_bind {A B : Type} (m : res A) (k : A -> res B) : res B :=
  match m with
  | inl e => inl e
  | inr a => k a
  end.

Notation "'let*' x ':=' m 'in' k" := (res_bind m (fun x => k))
  (at level 10, x name, m at level 100, k at level 200, only parsing).

(** [[f(a) for a in l]] where [f] may raise: left to right, the first
    exception aborts. *)
Fixpoint res_map {A B : Type} (f : A -> res B) (l : list A) : res (list B) :=
  match l with
  | [] => inr []
  | a :: l' =>
      let* b := f a in
      let* bs := res_map f l' in
      inr (b :: bs)
  end.

(** ** The one-hot encoding of a base *)

Definition FASTA_CODES : list (ascii * list ascii) :=
  [ ("A", ["A"]);
    ("T", ["T"]);
    ("C", ["C"]);
    ("G", ["G"]);
    ("K", ["G"; "T"]);
    ("M", ["A"; "C"]);
    ("R", ["A"; "G"]);
    ("Y", ["C"; "T"]);
    ("S", ["C"; "G"]);
    ("W", ["A"; "T"]);
    ("B", ["C"; "G"; "T"]);
    ("V", ["A"; "C"; "G"]);
    ("H", ["A"; "C"; "T"]);
    ("D", ["A"; "G"; "T"]);
    ("N", ["A"; "T"; "C"; "G"]) ]%char.

Definition onehot_idx : list (ascii * nat) :=
  [ ("A", 0); ("C", 1); ("G", 2); ("T", 3) ]%char.

(** [d[k]] / [k in d.keys()] on a dict written as its list of items. *)
Fixpoint dict_get {V : Type} (d : list (ascii * V)) (k : ascii) : option V :=
  match d with
  | [] => None
  | (k', v) :: d' => if Ascii.eqb k' k then Some v else dict_get d' k
  end.

Definition onehot (b : ascii) : res (list Q) :=
  match dict_get FASTA_CODES b with
  | None => inl (KeyError b)
  | Some real_bases =>
      foldl (fun (acc : res (list Q)) (b_real : ascii) =>
               let* v := acc in
               match dict_get onehot_idx b_real with
               | None => inl AssertionError
               | Some i =>
                   inr (<[i := (1 / inject_Z (Z.of_nat (length real_bases)))%Q]> v)
               end)
            (inr [0%Q; 0%Q; 0%Q; 0%Q]) real_bases
  end.

(** ** The predictor object *)

Inductive model_id : Type := classification_model | regression_model.

(** One [model.call(batch, training=False)]: which model, on which batch. *)
Definition model_call : Type := (model_id * list (list (list Q)))%type.

Record Predictor : Type := mkPredictor {
  regression_lower_bound : Q;
  regression_shift : Q;
  context_nt : nat;
  classification_threshold : Q;
  regression_threshold : Q;
  _memoized_evaluations : gmap Z (gmap (string * string) (Q * bool));
  model_calls : list model_call   (* ghost: the model.call invocations so far *)
}.

Definition set_memoized (self : Predictor)
    (m : gmap Z (gmap (string * string) (Q * bool))) : Predictor :=
  mkPredictor (regression_lower_bound self) (regression_shift self)
              (context_nt self) (classification_threshold self)
              (regression_threshold self) m (model_calls self).

Definition log_call (self : Predictor) (c : model_call) : Predictor :=
  mkPredictor (regression_lower_bound self) (regression_shift self)
              (context_nt self) (classification_threshold self)
              (regression_threshold self) (_memoized_evaluations self)
              (model_calls self ++ [c]).

(** ** The encoder *)

(** [s[i]] on a string. *)
Definition str_index (s : string) (i : nat) : res ascii :=
  match String.get i s with
  | Some c => inr c
  | None => inl IndexError
  end.

Definition zeros4 : list Q := [0%Q; 0%Q; 0%Q; 0%Q].

(** The body of the loop over the pairs up to [np.array(input_vec)]: the
    assertion on the lengths, then the three loops over the positions. *)
Definition input_vec_of (self : Predictor) (pair : string * string)
  : res (list (list Q)) :=
  let '(target_with_context, guide) := pair in
  if negb (String.length target_with_context
           =? 2 * context_nt self + String.length guide)%nat
  then inl AssertionError
  else
    let* rows_before :=
      res_map (fun pos =>
                 let* b := str_index target_with_context pos in
                 let* v_target := onehot b in
                 inr (v_target ++ zeros4))
              (seq 0 (context_nt self)) in
    let* rows_guide :=
      res_map (fun pos =>
                 let* b := str_index target_with_context (context_nt self + pos) in
                 let* v_target := onehot b in
                 let* g := str_index guide pos in
                 let* v_guide := onehot g in
                 inr (v_target ++ v_guide))
              (seq 0 (String.length guide)) in
    let* rows_after :=
      res_map (fun pos =>
                 let* b := str_index target_with_context
                             (context_nt self + String.length guide + pos) in
                 let* v_target := onehot b in
                 inr (v_target ++ zeros4))
              (seq 0 (context_nt self)) in
    inr (rows_before ++ rows_guide ++ rows_after).

(** [x[i] = input_vec] where [x[i]] has shape [(l, 8)].  [np.array] of an
    empty list has shape [(0,)], which never broadcasts to [(l, 8)]; of one
    row it has shape [(1, 8)], which numpy broadcasts along the first axis;
    otherwise the shapes must agree. *)
Definition np_assign (l : nat) (input_vec : list (list Q))
  : res (list (list Q)) :=
  match input_vec with
  | [] => inl ValueError
  | [row] => inr (replicate l row)
  | _ => if (length input_vec =? l)%nat then inr input_vec else inl ValueError
  end.

Definition _model_input_from_nt (self : Predictor)
    (pairs : list (string * string)) : res (list (list (list Q))) :=
  match pairs with
  | [] => inr []
  | pair0 :: _ =>
      let l := 2 * context_nt self + String.length pair0.2 in
      res_map (fun pair =>
                 let* input_vec := input_vec_of self pair in
                 np_assign l input_vec)
              pairs
  end.

(** ** Methods as state transformers *)

Definition M (A : Type) : Type := Predictor -> res A * Predictor.

Definition ret {A : Type} (a : A) : M A := fun self => (inr a, self).

Definition bind {A B : Type} (m : M A) (k : A -> M B) : M B :=
  fun self =>
    match m self with
    | (inl e, self') => (inl e, self')
    | (inr a, self') => k a self'
    end.

Definition lift {A : Type} (r : res A) : M A := fun self => (r, self).

(** A pure method of [self] that may raise. *)
Definition call {A : Type} (f : Predictor -> res A) : M A :=
  fun self => (f self, self).

Definition read {A : Type} (f : Predictor -> A) : M A :=
  fun self => (inr (f self), self).

Definition modify (f : Predictor -> Predictor) : M unit :=
  fun self => (inr tt, f self).

Notation "'do' x <- m ; k" := (bind m (fun x => k))
  (at level 60, x name, m at next level, right associativity, only parsing).

(** Python's [max(a, b)]: the first argument unless the second is larger. *)
Definition py_max (a b : Q) : Q := if Qle_bool b a then a else b.

(** [a >= b] on floats. *)
Definition py_ge (a b : Q) : bool := Qle_bool b a.

Section Models.

(** The two loaded models, as the list of first components [p[0]] of the
    rows of [model.call(batch, training=False).numpy()]. *)
Variable models : model_id -> list (list (list Q)) -> list Q.

(** The iteration order of [set(pairs)]. *)
Variable set_iter : list (string * string) -> list (string * string).

Definition _predict_from_onehot (model : model_id)
    (pairs_onehot : list (list (list Q))) : M (list Q) :=
  do _ <- modify (fun self => log_call self (model, pairs_onehot)) ;
  ret (models model pairs_onehot).

Definition _classify_and_decide (pairs_onehot : list (list (list Q)))
  : M (list bool) :=
  if (length pairs_onehot =? 0)%nat then ret []
  else
    do pred_classification_score <-
      _predict_from_onehot classification_model pairs_onehot ;
    do threshold <- read classification_threshold ;
    ret (map (fun p => py_ge p threshold) pred_classification_score).

Definition _regress (pairs_onehot : list (list (list Q))) : M (list Q) :=
  if (length pairs_onehot =? 0)%nat then ret []
  else
    do pred_regression_score <-
      _predict_from_onehot regression_model pairs_onehot ;
    do lower_bound <- read regression_lower_bound ;
    do shift <- read regression_shift ;
    ret (map (fun p => py_max lower_bound (p + shift)%Q) pred_regression_score).

(** The loop of [_combine_model_results] from index [i] on: the rest of the
    classification results, the regression results and the counter [j];
    returns the results from [i] on and the final value of [j]. *)
Fixpoint combine_loop (self : Predictor) (classification_results : list bool)
    (regression_results : list Q) (j : nat) : res (list (Q * bool) * nat) :=
  match classification_results with
  | [] => inr ([], j)
  | c :: rest =>
      if negb c then
        let* rj := combine_loop self rest regression_results j in
        inr ((0%Q, false) :: rj.1, rj.2)
      else
        match regression_results !! j with
        | None => inl IndexError
        | Some activity =>
            let highly_active := py_ge activity (regression_threshold self) in
            let* rj := combine_loop self rest regression_results (S j) in
            inr ((activity, highly_active) :: rj.1, rj.2)
        end
  end.

Definition _combine_model_results (self : Predictor)
    (classification_results : list bool) (regression_results : list Q)
  : res (list (Q * bool)) :=
  let* rj := combine_loop self classification_results regression_results 0 in
  if negb (rj.2 =? length regression_results)%nat then inl AssertionError
  else inr rj.1.

(** [[x for x, p in zip(pairs_onehot, classification_results) if p is True]] *)
Definition active_of (pairs_onehot : list (list (list Q)))
    (classification_results : list bool) : list (list (list Q)) :=
  map fst (List.filter snd (zip pairs_onehot classification_results)).

(** [if start_pos not in self._memoized_evaluations:
       self._memoized_evaluations[start_pos] = {}] *)
Definition ensure_start_pos (start_pos : Z) : M unit :=
  modify (fun self =>
    match _memoized_evaluations self !! start_pos with
    | Some _ => self
    | None => set_memoized self (<[start_pos := ∅]> (_memoized_evaluations self))
    end).

(** [mem = self._memoized_evaluations[start_pos]], once the key exists. *)
Definition mem_at (self : Predictor) (start_pos : Z)
  : gmap (string * string) (Q * bool) :=
  default ∅ (_memoized_evaluations self !! start_pos).

(** [for pair, r in zip(pairs, combined_results): mem[pair] = r] *)
Definition memoize (start_pos : Z) (pairs : list (string * string))
    (combined_results : list (Q * bool)) : M unit :=
  modify (fun self =>
    set_memoized self
      (<[start_pos :=
           foldl (fun mem pr => <[pr.1 := pr.2]> mem) (mem_at self start_pos)
                 (zip pairs combined_results)]>
         (_memoized_evaluations self))).

Definition _run_models_and_memoize (start_pos : Z)
    (pairs : list (string * string)) : M unit :=
  do pairs_onehot <- call (fun self => _model_input_from_nt self pairs) ;
  do classification_results <- _classify_and_decide pairs_onehot ;
  let pairs_onehot_active := active_of pairs_onehot classification_results in
  do regression_results <- _regress pairs_onehot_active ;
  do combined_results <-
    call (fun self => _combine_model_results self classification_results
                        regression_results) ;
  do _ <- ensure_start_pos start_pos ;
  memoize start_pos pairs combined_results.

(** [[pair for pair in set(pairs) if pair not in mem]] *)
Definition unique_pairs_to_evaluate (mem : gmap (string * string) (Q * bool))
    (pairs : list (string * string)) : list (string * string) :=
  List.filter (fun pair => negb (bool_decide (is_Some (mem !! pair))))
              (set_iter pairs).

(** [mem[pair]] *)
Definition mem_get (mem : gmap (string * string) (Q * bool))
    (pair : string * string) : res (Q * bool) :=
  match mem !! pair with
  | Some r => inr r
  | None => inl (KeyErrorPair pair)
  end.

Definition determine_highly_active (start_pos : Z)
    (pairs : list (string * string)) : M (list bool) :=
  do _ <- ensure_start_pos start_pos ;
  do mem <- read (fun self => mem_at self start_pos) ;
  do _ <- _run_models_and_memoize start_pos (unique_pairs_to_evaluate mem pairs) ;
  do mem <- read (fun self => mem_at self start_pos) ;
  lift (res_map (fun pair => let* r := mem_get mem pair in inr r.2) pairs).

Definition compute_activity (start_pos : Z)
    (pairs : list (string * string)) : M (list Q) :=
  do _ <- ensure_start_pos start_pos ;
  do mem <- read (fun self => mem_at self start_pos) ;
  do _ <- _run_models_and_memoize start_pos (unique_pairs_to_evaluate mem pairs) ;
  (* [mem] is the dict object stored under [start_pos], which the call
     above has updated in place *)
  do mem <- read (fun self => mem_at self start_pos) ;
  lift (res_map (fun pair => let* r := mem_get mem pair in inr r.1) pairs).

Definition cleanup_memoized (start_pos : Z) : M unit :=
  modify (fun self =>
    match _memoized_evaluations self !! start_pos with
    | Some _ => set_memoized self (delete start_pos (_memoized_evaluations self))
    | None => self
    end).

End Models.

(** ** Construction *)

(** The companion files of a model directory: [None] when the file does not
    exist, otherwise the number on its first line. *)
Record model_dir : Type := mkModelDir {
  context_nt_arg : option nat;
  default_threshold_arg : option Q
}.

Definition __init__ (classification_model_path regression_model_path : model_dir)
    (classification_threshold regression_threshold : option Q) : res Predictor :=
  let regression_lower_bound := 0%Q in
  let regression_shift := 4%Q in
  match context_nt_arg classification_model_path with
  | None => inl Exception
  | Some classification_context_nt =>
  match context_nt_arg regression_model_path with
  | None => inl Exception
  | Some regression_context_nt =>
  if negb (classification_context_nt =? regression_context_nt)%nat
  then inl Exception
  else
    let context_nt := classification_context_nt in
    let* classification_threshold :=
      match classification_threshold with
      | None =>
          match default_threshold_arg classification_model_path with
          | None => inl Exception
          | Some classification_threshold =>
              if py_ge classification_threshold 0 && py_ge 1 classification_threshold
              then inr classification_threshold
              else inl AssertionError
          end
      | Some classification_threshold =>
          if negb (py_ge classification_threshold 0)
             || negb (py_ge 1 classification_threshold)
          then inl ValueError
          else inr classification_threshold
      end in
    let* regression_threshold :=
      match regression_threshold with
      | None =>
          match default_threshold_arg regression_model_path with
          | None => inl Exception
          | Some regression_threshold =>
              let regression_threshold :=
                (regression_threshold + regression_shift)%Q in
              if negb (Qle_bool regression_threshold regression_lower_bound)
              then inr regression_threshold
              else inl AssertionError
          end
      | Some regression_threshold =>
          if negb (py_ge regression_threshold 0) then inl ValueError
          else inr regression_threshold
      end in
    inr (mkPredictor regression_lower_bound regression_shift context_nt
                     classification_threshold regression_threshold ∅ [])
  end
  end.

(** ** Reading the inputs, writing the predictions, and the entry point *)

(** [c.isspace()] on a character of a [str], for the code points below 256:
    tab to carriage return, the four separators 0x1c to 0x1f, space,
    next line (0x85) and no-break space (0xa0). *)
Definition is_space (c : ascii) : bool :=
  let n := nat_of_ascii c in
  ((9 <=? n)%nat && (n <=? 13)%nat) || ((28 <=? n)%nat && (n <=? 32)%nat)
  || (n =? 133)%nat || (n =? 160)%nat.

(** [line.rstrip()] *)
Fixpoint rstrip (line : list ascii) : list ascii :=
  match line with
  | [] => []
  | c :: line' =>
      match rstrip line' with
      | [] => if is_space c then [] else [c]
      | rest => c :: rest
      end
  end.

(** [line.split(sep)] for a one-character separator: one more field than
    there are separators, empty fields kept. *)
Fixpoint split (sep : ascii) (line : list ascii) : list (list ascii) :=
  match line with
  | [] => [[]]
  | c :: line' =>
      if Ascii.eqb c sep then [] :: split sep line'
      else
        match split sep line' with
        | field :: fields => (c :: field) :: fields
        | [] => [[c]]
        end
  end.

Definition tab : ascii := "009"%char.
Definition newline : ascii := "010"%char.

(** The body of the loop of [read_inputs] on one line of the file. *)
Definition read_line (line : string) : res (string * string) :=
  let line := rstrip (list_ascii_of_string line) in
  let ls := split tab line in
  match ls with
  | [target_with_context; guide] =>
      if (length target_with_context <? length guide)%nat then inl Exception
      else inr (string_of_list_ascii target_with_context,
                string_of_list_ascii guide)
  | _ => inl AssertionError
  end.

(** [read_inputs], on the lines the file iterator yields. *)
Definition read_inputs (lines : list string) : res (list (string * string)) :=
  res_map read_line lines.

(** [write_preds]: the strings passed to [fw.write], in order.  [str] on a
    prediction is a parameter. *)
Definition write_preds (str_of_pred : Q -> string)
    (inputs : list (string * string)) (preds : list Q) : list string :=
  zip_with (fun input pred =>
              let '(target_with_context, guide) := input in
              let row := [target_with_context; guide; str_of_pred pred] in
              (String.concat (String tab EmptyString) row
               ++ String newline EmptyString)%string)
           inputs preds.

(** The exceptions of [main]: those of the functions it calls, and the
    [NameError] of the undefined name [model] in the message of its own
    check. *)
Inductive main_exn : Type :=
| Raised (e : exn)
| NameError.

(** [main]: the lines written to the output (or the exception) and the model
    calls made. *)
Definition main (models : model_id -> list (list (list Q)) -> list Q)
    (set_iter : list (string * string) -> list (string * string))
    (str_of_pred : Q -> string)
    (classification_model_path regression_model_path : model_dir)
    (input_seqs : list string)
  : (main_exn + list string) * list model_call :=
  match __init__ classification_model_path regression_model_path None None with
  | inl e => (inl (Raised e), [])
  | inr predictor =>
      match read_inputs input_seqs with
      | inl e => (inl (Raised e), [])
      | inr inputs =>
          if forallb (fun input =>
                        let '(target_with_context, guide) := input in
                        let expected_target_len :=
                          (String.length guide + 2 * context_nt predictor)%nat in
                        (expected_target_len
                         =? String.length target_with_context)%nat)
                     inputs
          then
            match compute_activity models set_iter (-1) inputs predictor with
            | (inl e, predictor') => (inl (Raised e), model_calls predictor')
            | (inr preds, predictor') =>
                (inr (write_preds str_of_pred inputs preds),
                 model_calls predictor')
            end
          else (inl NameError, [])
      end
  end.

(** * Auxiliary definitions *)

(** ** The stages of an evaluation, without the bookkeeping *)

Definition log_calls (self : Predictor) (cs : list model_call) : Predictor :=
  foldl log_call self cs.

Section Stages.

Variable models : model_id -> list (list (list Q)) -> list Q.

(** The decisions of [_classify_and_decide] and the values of [_regress]
    on a batch, and the model call each makes. *)
Definition classification_flags (self : Predictor)
    (X : list (list (list Q))) : list bool :=
  if (length X =? 0)%nat then []
  else map (fun p => py_ge p (classification_threshold self))
           (models classification_model X).

Definition regression_values (self : Predictor)
    (X : list (list (list Q))) : list Q :=
  if (length X =? 0)%nat then []
  else map (fun p => py_max (regression_lower_bound self)
                            (p + regression_shift self)%Q)
           (models regression_model X).

Definition calls_for (model : model_id) (X : list (list (list Q)))
  : list model_call :=
  if (length X =? 0)%nat then [] else [(model, X)].

End Stages.

Definition count_active (flags : list bool) : nat :=
  length (List.filter id flags).

(** The merge written as an ordered pairing of the active positions with
    the regression outputs (the formulation the specification recommends in
    place of the counter [j]). *)
Fixpoint merge_results (threshold : Q) (flags : list bool) (reg : list Q)
  : list (Q * bool) :=
  match flags with
  | [] => []
  | false :: flags' => (0%Q, false) :: merge_results threshold flags' reg
  | true :: flags' =>
      match reg with
      | [] => []
      | a :: reg' => (a, py_ge a threshold) :: merge_results threshold flags' reg'
      end
  end.

(** The cache after [mem[pair] = r] for each of [updates], in order. *)
Definition memoized_with (self : Predictor) (start_pos : Z)
    (updates : list ((string * string) * (Q * bool))) : Predictor :=
  set_memoized self
    (<[start_pos :=
         foldl (fun mem pr => <[pr.1 := pr.2]> mem) (mem_at self start_pos)
               updates]>
       (_memoized_evaluations self)).

(** The predictor after [ensure_start_pos]. *)
Definition ensured (self : Predictor) (start_pos : Z) : Predictor :=
  match _memoized_evaluations self !! start_pos with
  | Some _ => self
  | None => set_memoized self (<[start_pos := ∅]> (_memoized_evaluations self))
  end.

(** The model calls one evaluation of [pairs] makes. *)
Definition evaluation_calls
    (models : model_id -> list (list (list Q)) -> list Q)
    (self : Predictor) (pairs : list (string * string)) : list model_call :=
  match _model_input_from_nt self pairs with
  | inl _ => []
  | inr X =>
      calls_for classification_model X
      ++ calls_for regression_model
           (active_of X (classification_flags models self X))
  end.

(** The outcome of one evaluation of [pairs]: an exception, or the stores
    [mem[pair] = r] to perform. *)
Definition evaluation_outcome
    (models : model_id -> list (list (list Q)) -> list Q)
    (self : Predictor) (pairs : list (string * string))
  : res (list ((string * string) * (Q * bool))) :=
  let* X := _model_input_from_nt self pairs in
  let flags := classification_flags models self X in
  let reg := regression_values models self (active_of X flags) in
  let* rs := _combine_model_results self flags reg in
  inr (zip pairs rs).

Section Queries.

Variable models : model_id -> list (list (list Q)) -> list Q.
Variable set_iter : list (string * string) -> list (string * string).

(** Both queries, with the projection [proj] applied to the cached results. *)
Definition query_result {A : Type} (proj : Q * bool -> A)
    (start_pos : Z) (pairs : list (string * string)) (self : Predictor)
  : res (list A) * Predictor :=
  let U := unique_pairs_to_evaluate set_iter (mem_at self start_pos) pairs in
  let self1 :=
    log_calls (ensured self start_pos) (evaluation_calls models self U) in
  match evaluation_outcome models self U with
  | inl e => (inl e, self1)
  | inr updates =>
      let self2 := memoized_with self1 start_pos updates in
      (res_map (fun pair =>
                  let* r := mem_get (mem_at self2 start_pos) pair in
                  inr (proj r))
               pairs,
       self2)
  end.

End Queries.

(** ** What is assumed of the models and of the iteration order of sets *)

(** The models return one scalar per encoded input of the batch. *)
Definition one_output_per_input
    (models : model_id -> list (list (list Q)) -> list Q) : Prop :=
  forall model X, length (models model X) = length X.

(** What is known of the iteration order of [set(pairs)]: no element twice,
    and exactly the elements of [pairs]. *)
Definition set_iteration
    (set_iter : list (string * string) -> list (string * string)) : Prop :=
  forall pairs,
    NoDup (set_iter pairs) /\ forall p, p ∈ set_iter pairs <-> p ∈ pairs.

(** ** The alphabet and the rows of an encoding *)

Definition recognized (c : ascii) : Prop := is_Some (dict_get FASTA_CODES c).

Definition over_alphabet (s : string) : Prop :=
  Forall recognized (list_ascii_of_string s).

(** The vector [onehot] returns on a recognized base. *)
Definition onehot_vec (b : ascii) : list Q :=
  match onehot b with
  | inr v => v
  | inl _ => zeros4
  end.

(** The vector the specification describes: on the channels A, C, G, T in
    this order, weight [1/|real_bases|] on each represented base and 0
    elsewhere. *)
Definition base_weights (real_bases : list ascii) : list Q :=
  map (fun ch =>
         if bool_decide (ch ∈ real_bases)
         then (1 / inject_Z (Z.of_nat (length real_bases)))%Q
         else 0%Q)
      ["A"; "C"; "G"; "T"]%char.

Definition sumQ (v : list Q) : Q := foldr Qplus 0%Q v.

(** The rows of a pair, as the specification lays them out. *)
Definition rows_of (c : nat) (target_with_context guide : string)
  : list (list Q) :=
  let T := list_ascii_of_string target_with_context in
  let G := list_ascii_of_string guide in
  map (fun b => onehot_vec b ++ zeros4) (take c T)
  ++ zip_with (fun bt bg => onehot_vec bt ++ onehot_vec bg)
       (take (length G) (drop c T)) G
  ++ map (fun b => onehot_vec b ++ zeros4) (drop (c + length G) T).

(** The characters of a pair. *)
Definition occurs_in (ch : ascii) (pair : string * string) : Prop :=
  ch ∈ list_ascii_of_string pair.1 \/ ch ∈ list_ascii_of_string pair.2.

(** The number of rows the encoding of a pair has. *)
Definition row_count (self : Predictor) (pair : string * string) : nat :=
  (2 * context_nt self + String.length pair.2)%nat.

(** ** The result of a pair under models that score each input on its own *)

(** Models that score every encoded input of a batch independently of the
    rest of the batch. *)
Definition pointwise (models : model_id -> list (list (list Q)) -> list Q)
    (score raw : list (list Q) -> Q) : Prop :=
  forall X, models classification_model X = map score X /\
            models regression_model X = map raw X.

(** The decision on one encoded input. *)
Definition policy (score raw : list (list Q) -> Q) (self : Predictor)
    (x : list (list Q)) : Q * bool :=
  if py_ge (score x) (classification_threshold self)
  then
    let activity :=
      py_max (regression_lower_bound self) (raw x + regression_shift self)%Q in
    (activity, py_ge activity (regression_threshold self))
  else (0%Q, false).

Definition pair_result (score raw : list (list Q) -> Q) (self : Predictor)
    (pair : string * string) : option (Q * bool) :=
  match input_vec_of self pair with
  | inr rows => Some (policy score raw self rows)
  | inl _ => None
  end.

(** Every cached entry is the result of its pair. *)
Definition cache_consistent (score raw : list (list Q) -> Q)
    (self : Predictor) : Prop :=
  forall start_pos pair r,
    mem_at self start_pos !! pair = Some r ->
    pair_result score raw self pair = Some r.

(** ** Well-formed results *)

(** A result [(activity, highly_active)]: the activity is not negative, and
    a pair called highly active has an activity at or above the regression
    threshold. *)
Definition entry_ok (self : Predictor) (r : Q * bool) : Prop :=
  (0 <= r.1)%Q /\ (r.2 = true -> (regression_threshold self <= r.1)%Q).

Definition cache_ok (self : Predictor) : Prop :=
  forall start_pos pair r,
    mem_at self start_pos !! pair = Some r -> entry_ok self r.

(** ** Lines and fields *)

(** [sep.join(fields)] on lists of characters. *)
Fixpoint join (sep : ascii) (fields : list (list ascii)) : list ascii :=
  match fields with
  | [] => []
  | [field] => field
  | field :: fields' => field ++ sep :: join sep fields'
  end.

(** The number of occurrences of a character. *)
Definition occurrences (c : ascii) (line : list ascii) : nat :=
  length (filter (fun c' => c' = c) line).

(** ** Examples *)

(** Models with a constant classification score and a constant raw
    regression output. *)
Definition ex_models (score raw : Q) (model : model_id)
    (X : list (list (list Q))) : list Q :=
  match model with
  | classification_model => map (fun _ => score) X
  | regression_model => map (fun _ => raw) X
  end.

(** A predictor with [context_nt = 2], classification threshold 0.5 and
    regression threshold 0.8, and the same with [context_nt = 0]. *)
Definition ex_self : Predictor :=
  mkPredictor 0 4 2 (1 # 2) (8 # 10) ∅ [].

Definition ex_self0 : Predictor :=
  mkPredictor 0 4 0 (1 # 2) (8 # 10) ∅ [].

Definition ex_pair : string * string := ("TTACGGG"%string, "ACG"%string).

Definition ex_set_iter (pairs : list (string * string))
  : list (string * string) := remove_dups pairs.

(** The predictor [ex_self] after a query for [ex_pair], requested twice, at
    start position 5. *)
Definition ex_cached : Predictor :=
  (compute_activity (ex_models (9 # 10) (-3)) ex_set_iter 5
     [ex_pair; ex_pair] ex_self).2.

(** The encoding of the batch made of [ex_pair]. *)
Definition ex_encoded : list (list (list Q)) :=
  Eval cbv in
    match _model_input_from_nt ex_self [ex_pair] with
    | inr X => X
    | inl _ => []
    end.



(** A line of an input file: target, tab, guide, newline. *)
Definition ex_line : string :=
  ("TTACGGG" ++ String tab ("ACG" ++ String newline EmptyString))%string.

Definition ex_cdir : model_dir := mkModelDir (Some 2%nat) (Some (1 # 2)).
Definition ex_rdir : model_dir := mkModelDir (Some 2%nat) (Some (- (32 # 10))%Q).

(** * Properties *)

(** ** The monad *)

Ltac unfold_M :=
  unfold bind, ret, lift, call, read, modify in *; simpl in *.

Lemma set_memoized_id self :
  set_memoized self (_memoized_evaluations self) = self.
Proof. by destruct self. Qed.

Lemma model_calls_log_calls self cs :
  model_calls (log_calls self cs) = model_calls self ++ cs.
Proof.
  revert self. induction cs as [|c cs IH]; intros self; simpl.
  - by rewrite app_nil_r.
  - rewrite IH. simpl. by rewrite <- app_assoc.
Qed.

Lemma memoized_log_calls self cs :
  _memoized_evaluations (log_calls self cs) = _memoized_evaluations self.
Proof. revert self. induction cs as [|c cs IH]; intros self; simpl; [done|]. by rewrite IH. Qed.

Section ModelFacts.

Variable models : model_id -> list (list (list Q)) -> list Q.
Variable set_iter : list (string * string) -> list (string * string).

Lemma classify_and_decide_eq X self :
  _classify_and_decide models X self =
  (inr (classification_flags models self X),
   log_calls self (calls_for classification_model X)).
Proof.
  unfold _classify_and_decide, classification_flags, calls_for.
  destruct (length X =? 0)%nat; reflexivity.
Qed.

Lemma regress_eq X self :
  _regress models X self =
  (inr (regression_values models self X),
   log_calls self (calls_for regression_model X)).
Proof.
  unfold _regress, regression_values, calls_for.
  destruct (length X =? 0)%nat; reflexivity.
Qed.

End ModelFacts.

(** ** Merging classification and regression results *)

Lemma count_active_cons b flags :
  count_active (b :: flags) = ((if b then 1 else 0) + count_active flags)%nat.
Proof. by destruct b. Qed.

Lemma count_active_app flags1 flags2 :
  count_active (flags1 ++ flags2)
  = (count_active flags1 + count_active flags2)%nat.
Proof.
  unfold count_active. by rewrite List.filter_app, length_app.
Qed.

Lemma combine_loop_spec self flags reg j :
  (j <= length reg)%nat ->
  combine_loop self flags reg j =
  if decide (j + count_active flags <= length reg)%nat
  then inr (merge_results (regression_threshold self) flags (drop j reg),
            (j + count_active flags)%nat)
  else inl IndexError.
Proof.
  revert j. induction flags as [|b flags IH]; intros j Hj.
  - simpl. unfold count_active; simpl. rewrite Nat.add_0_r.
    by rewrite decide_True.
  - rewrite count_active_cons. destruct b; simpl.
    + destruct (reg !! j) as [a|] eqn:Ha.
      * apply lookup_lt_Some in Ha as Hlt.
        rewrite IH by lia. rewrite (drop_S _ _ _ Ha).
        replace (j + S (count_active flags))%nat
          with (S j + count_active flags)%nat by lia.
        case_decide; simpl; [|done]. do 2 f_equal; lia.
      * apply lookup_ge_None in Ha. rewrite decide_False by lia. done.
    + rewrite IH by done. case_decide; done.
Qed.

Lemma combine_model_results_spec self flags reg :
  _combine_model_results self flags reg =
  match Nat.compare (count_active flags) (length reg) with
  | Eq => inr (merge_results (regression_threshold self) flags reg)
  | Lt => inl AssertionError
  | Gt => inl IndexError
  end.
Proof.
  unfold _combine_model_results.
  rewrite combine_loop_spec by lia. simpl.
  destruct (Nat.compare_spec (count_active flags) (length reg)) as [He|Hl|Hg].
  - rewrite decide_True by lia. simpl. rewrite He, Nat.eqb_refl. done.
  - rewrite decide_True by lia. simpl.
    destruct (Nat.eqb_spec (count_active flags) (length reg)); [lia|done].
  - rewrite decide_False by lia. done.
Qed.

Lemma merge_results_length threshold flags reg :
  (count_active flags <= length reg)%nat ->
  length (merge_results threshold flags reg) = length flags.
Proof.
  revert reg. induction flags as [|b flags IH]; intros reg; [done|].
  rewrite count_active_cons. destruct b; simpl.
  - destruct reg as [|a reg]; simpl; [lia|]. intros. rewrite IH; [done|lia].
  - intros. by rewrite IH.
Qed.

(** The result at a position classified inactive. *)
Lemma merge_results_inactive threshold flags reg i :
  (count_active flags <= length reg)%nat ->
  flags !! i = Some false ->
  merge_results threshold flags reg !! i = Some (0%Q, false).
Proof.
  revert reg i. induction flags as [|b flags IH]; intros reg i; [done|].
  rewrite count_active_cons. intros Hc Hi.
  destruct i as [|i]; simpl in Hi.
  - by injection Hi as ->.
  - destruct b; simpl.
    + destruct reg as [|a reg]; simpl in *; [lia|]. apply IH; [lia|done].
    + apply IH; done.
Qed.

(** The result at a position classified active: it is built from the
    regression output whose rank is the number of active positions before
    it. *)
Lemma merge_results_active threshold flags reg i :
  (count_active flags <= length reg)%nat ->
  flags !! i = Some true ->
  exists a, reg !! count_active (take i flags) = Some a /\
    merge_results threshold flags reg !! i = Some (a, py_ge a threshold).
Proof.
  revert reg i. induction flags as [|b flags IH]; intros reg i; [done|].
  rewrite count_active_cons. intros Hc Hi.
  destruct i as [|i]; simpl in Hi.
  - injection Hi as ->. destruct reg as [|a reg]; simpl in *; [lia|].
    exists a. done.
  - change (take (S i) (b :: flags)) with (b :: take i flags).
    rewrite count_active_cons. destruct b.
    + destruct reg as [|a reg]; [simpl in Hc; lia|].
      simpl in Hc. apply (IH reg i); [lia|done].
    + apply (IH reg i); done.
Qed.

(** The active sub-batch, position by position. *)
Lemma active_of_length (X : list (list (list Q))) flags :
  length X = length flags ->
  length (active_of X flags) = count_active flags.
Proof.
  unfold active_of, count_active. rewrite length_map.
  revert flags. induction X as [|x X IH]; intros [|b flags]; simpl; try done.
  intros [= Hl]. destruct b; simpl; by rewrite IH.
Qed.

Lemma active_of_cons x (X : list (list (list Q))) b flags :
  active_of (x :: X) (b :: flags)
  = (if b then [x] else []) ++ active_of X flags.
Proof. unfold active_of. simpl. by destruct b. Qed.

Lemma active_of_lookup (X : list (list (list Q))) flags i x :
  X !! i = Some x ->
  flags !! i = Some true ->
  active_of X flags !! count_active (take i flags) = Some x.
Proof.
  revert flags i. induction X as [|y X IH]; intros [|b flags] i; try done.
  rewrite active_of_cons. destruct i as [|i]; simpl.
  - intros [= ->] [= ->]. done.
  - intros HX Hf. change (take (S i) (b :: flags)) with (b :: take i flags).
    rewrite count_active_cons.
    destruct b; by apply (IH flags i).
Qed.

Lemma active_of_elem (X : list (list (list Q))) flags x :
  x ∈ active_of X flags ->
  exists i, X !! i = Some x /\ flags !! i = Some true.
Proof.
  revert flags. induction X as [|y X IH]; intros [|b flags]; simpl;
    try (unfold active_of; simpl; by intros ?%elem_of_nil).
  rewrite active_of_cons. intros [Hin|Hin]%elem_of_app.
  - destruct b; [|by apply elem_of_nil in Hin].
    apply list_elem_of_singleton in Hin as ->. by exists 0%nat.
  - destruct (IH _ Hin) as (i & ? & ?). by exists (S i).
Qed.

(** ** One evaluation, without the monad *)

Lemma log_calls_eq self cs :
  log_calls self cs =
  mkPredictor (regression_lower_bound self) (regression_shift self)
              (context_nt self) (classification_threshold self)
              (regression_threshold self) (_memoized_evaluations self)
              (model_calls self ++ cs).
Proof.
  revert self. induction cs as [|c cs IH]; intros self; simpl.
  - rewrite app_nil_r. by destruct self.
  - rewrite IH. simpl. by rewrite <- app_assoc.
Qed.

Lemma log_calls_app self cs1 cs2 :
  log_calls (log_calls self cs1) cs2 = log_calls self (cs1 ++ cs2).
Proof. unfold log_calls. by rewrite foldl_app. Qed.

Section RunFacts.

Variable models : model_id -> list (list (list Q)) -> list Q.
Variable set_iter : list (string * string) -> list (string * string).

Lemma ensure_then_memoize start_pos pairs rs self :
  (do _ <- ensure_start_pos start_pos ; memoize start_pos pairs rs) self
  = (inr tt, memoized_with self start_pos (zip pairs rs)).
Proof.
  unfold ensure_start_pos, memoize, memoized_with. unfold_M.
  unfold mem_at.
  destruct (_memoized_evaluations self !! start_pos) as [mem|] eqn:Hm.
  - rewrite Hm. done.
  - simpl. rewrite lookup_insert_eq. simpl.
    unfold set_memoized; simpl. by rewrite insert_insert_eq.
Qed.

Lemma run_models_eq start_pos pairs self :
  _run_models_and_memoize models start_pos pairs self =
  match _model_input_from_nt self pairs with
  | inl e => (inl e, self)
  | inr X =>
      let flags := classification_flags models self X in
      let act := active_of X flags in
      let reg := regression_values models self act in
      let self' :=
        log_calls self (calls_for classification_model X
                        ++ calls_for regression_model act) in
      match _combine_model_results self flags reg with
      | inl e => (inl e, self')
      | inr rs => (inr tt, memoized_with self' start_pos (zip pairs rs))
      end
  end.
Proof.
  unfold _run_models_and_memoize.
  unfold bind at 1. unfold call at 1.
  destruct (_model_input_from_nt self pairs) as [e|X]; [done|].
  unfold bind at 1. rewrite classify_and_decide_eq.
  unfold bind at 1. rewrite regress_eq.
  rewrite log_calls_app.
  unfold bind at 1. unfold call at 1.
  rewrite !log_calls_eq. simpl.
  match goal with
  | |- context [_combine_model_results ?s ?f ?r] =>
      replace (_combine_model_results s f r)
        with (_combine_model_results self f r)
        by (rewrite !combine_model_results_spec; done)
  end.
  unfold classification_flags, regression_values. simpl.
  match goal with
  | |- context [_combine_model_results ?s ?f ?r] =>
      destruct (_combine_model_results s f r) as [e|rs]; [done|]
  end.
  apply ensure_then_memoize.
Qed.

End RunFacts.

(** ** The cache after a sequence of stores *)

Lemma foldl_store_notin (updates : list ((string * string) * (Q * bool)))
    (mem : gmap (string * string) (Q * bool)) (pair : string * string) :
  pair ∉ updates.*1 ->
  foldl (fun mem pr => <[pr.1 := pr.2]> mem) mem updates !! pair = mem !! pair.
Proof.
  revert mem. induction updates as [|[k v] updates IH]; intros mem Hn; [done|].
  simpl in *. apply not_elem_of_cons in Hn as [Hne Hn].
  rewrite IH by done. by rewrite lookup_insert_ne.
Qed.

Lemma foldl_store_lookup (updates : list ((string * string) * (Q * bool)))
    (mem : gmap (string * string) (Q * bool)) i pair r :
  NoDup updates.*1 ->
  updates !! i = Some (pair, r) ->
  foldl (fun mem pr => <[pr.1 := pr.2]> mem) mem updates !! pair = Some r.
Proof.
  revert mem i. induction updates as [|[k v] updates IH]; intros mem i Hnd Hi;
    [done|].
  simpl in Hnd. apply NoDup_cons in Hnd as [Hk Hnd].
  destruct i as [|i]; simpl in *.
  - injection Hi as -> ->. rewrite foldl_store_notin by done.
    by rewrite lookup_insert_eq.
  - by apply (IH _ i).
Qed.

Lemma foldl_store_is_Some (updates : list ((string * string) * (Q * bool)))
    (mem : gmap (string * string) (Q * bool)) (pair : string * string) :
  is_Some (foldl (fun mem pr => <[pr.1 := pr.2]> mem) mem updates !! pair)
  <-> pair ∈ updates.*1 \/ is_Some (mem !! pair).
Proof.
  revert mem. induction updates as [|[k v] updates IH]; intros mem; simpl.
  - split; [by right|]. intros [H|H]; [by apply elem_of_nil in H|done].
  - rewrite IH, elem_of_cons. destruct (decide (k = pair)) as [->|Hne].
    + rewrite lookup_insert_eq. split; [by left; left|by right].
    + rewrite lookup_insert_ne by done. split.
      * intros [?|?]; [left; by right|by right].
      * intros [[?|?]|?]; [congruence|by left|by right].
Qed.

Lemma fst_zip_NoDup {A B : Type} (l : list A) (k : list B) :
  NoDup l -> NoDup (zip l k).*1.
Proof.
  intros Hnd. revert k. induction Hnd as [|x l Hx Hnd IH]; intros [|y k];
    simpl; try apply NoDup_nil_2.
  apply NoDup_cons. split; [|apply IH].
  intros Hin. apply Hx.
  apply list_elem_of_fmap in Hin as ([a b] & -> & Hin).
  simpl. by apply elem_of_zip_l in Hin.
Qed.

Lemma mem_at_memoized_with self start_pos updates :
  mem_at (memoized_with self start_pos updates) start_pos
  = foldl (fun mem pr => <[pr.1 := pr.2]> mem) (mem_at self start_pos) updates.
Proof. unfold memoized_with, mem_at at 1. simpl. by rewrite lookup_insert_eq. Qed.

Lemma mem_at_memoized_with_ne self start_pos other updates :
  start_pos <> other ->
  _memoized_evaluations (memoized_with self start_pos updates) !! other
  = _memoized_evaluations self !! other.
Proof. intros. unfold memoized_with. simpl. by rewrite lookup_insert_ne. Qed.

Lemma mem_at_log_calls self cs start_pos :
  mem_at (log_calls self cs) start_pos = mem_at self start_pos.
Proof. unfold mem_at. by rewrite memoized_log_calls. Qed.

(** ** The contract of the models *)

Lemma classification_flags_length models self X :
  one_output_per_input models ->
  length (classification_flags models self X) = length X.
Proof.
  intros Hc. unfold classification_flags.
  destruct X; simpl; [done|]. by rewrite length_map, Hc.
Qed.

Lemma regression_values_length models self X :
  one_output_per_input models ->
  length (regression_values models self X) = length X.
Proof.
  intros Hc. unfold regression_values.
  destruct X; simpl; [done|]. by rewrite length_map, Hc.
Qed.

Lemma classification_flags_lookup models self X i score :
  models classification_model X !! i = Some score ->
  one_output_per_input models ->
  classification_flags models self X !! i
  = Some (py_ge score (classification_threshold self)).
Proof.
  intros Hs Hc. unfold classification_flags.
  destruct X as [|x X].
  - apply lookup_lt_Some in Hs. rewrite Hc in Hs. simpl in Hs. lia.
  - simpl. by rewrite list_lookup_fmap, Hs.
Qed.

Lemma model_input_length self pairs X :
  _model_input_from_nt self pairs = inr X -> length X = length pairs.
Proof.
  unfold _model_input_from_nt. destruct pairs as [|p0 pairs0]; [by intros [= <-]|].
  generalize (2 * context_nt self + String.length p0.2)%nat as l.
  generalize (p0 :: pairs0) as pairs. clear. intros pairs l. revert X.
  induction pairs as [|p pairs IH]; intros X; simpl; [by intros [= <-]|].
  destruct (input_vec_of self p) as [e|v]; simpl; [done|].
  destruct (np_assign l v) as [e|m]; simpl; [done|].
  destruct (res_map _ pairs) as [e|ms]; simpl; [done|].
  intros [= <-]. simpl. f_equal. by apply IH.
Qed.

(** ** Examples used to instantiate the theorems *)

Lemma ex_models_contract score raw : one_output_per_input (ex_models score raw).
Proof. intros [] X; simpl; apply length_map. Defined.

(** ** One evaluation under the contract of the models *)

Lemma run_counts_match models self X :
  one_output_per_input models ->
  let flags := classification_flags models self X in
  count_active flags
  = length (regression_values models self (active_of X flags)).
Proof.
  intros Hc flags. rewrite regression_values_length by done.
  symmetry. apply active_of_length.
  subst flags. by rewrite classification_flags_length.
Qed.

Lemma run_models_ok models self start_pos pairs X :
  one_output_per_input models ->
  _model_input_from_nt self pairs = inr X ->
  let flags := classification_flags models self X in
  let act := active_of X flags in
  let reg := regression_values models self act in
  _run_models_and_memoize models start_pos pairs self =
  (inr tt,
   memoized_with
     (log_calls self (calls_for classification_model X
                      ++ calls_for regression_model act))
     start_pos
     (zip pairs (merge_results (regression_threshold self) flags reg))).
Proof.
  intros Hc HX flags act reg. rewrite run_models_eq, HX. simpl.
  rewrite combine_model_results_spec.
  rewrite (run_counts_match models self X Hc), Nat.compare_refl. done.
Qed.

(** ** C5: the merge consumes exactly one regression output per active pair *)

(** C5.  [_combine_model_results] returns results exactly when the number of
    regression outputs equals the number of positions classified active, and
    then returns one result per position; with too few regression outputs it
    raises [IndexError], with too many it fails its final assertion; it never
    truncates or pads.  In [_run_models_and_memoize], when the models return
    one output per input, the flags and regression values that reach the
    merge have matching counts, so once the pairs are encoded the call
    completes: the error branch is not reachable. *)
Theorem merge_count_integrity models self flags reg :
  (forall rs, _combine_model_results self flags reg = inr rs ->
     count_active flags = length reg /\ length rs = length flags) /\
  (count_active flags = length reg ->
     exists rs, _combine_model_results self flags reg = inr rs) /\
  ((count_active flags > length reg)%nat ->
     _combine_model_results self flags reg = inl IndexError) /\
  ((count_active flags < length reg)%nat ->
     _combine_model_results self flags reg = inl AssertionError) /\
  (one_output_per_input models ->
   forall start_pos pairs X,
     _model_input_from_nt self pairs = inr X ->
     let flags := classification_flags models self X in
     let reg := regression_values models self (active_of X flags) in
     count_active flags = length reg /\
     (exists rs, _combine_model_results self flags reg = inr rs) /\
     exists self',
       _run_models_and_memoize models start_pos pairs self = (inr tt, self')).
Proof.
  split; [|split; [|split; [|split]]].
  - intros rs. rewrite combine_model_results_spec.
    destruct (Nat.compare_spec (count_active flags) (length reg)); [|done..].
    intros [= <-]. split; [done|]. apply merge_results_length. lia.
  - intros He. rewrite combine_model_results_spec, He, Nat.compare_refl. eauto.
  - intros Hg. rewrite combine_model_results_spec.
    by apply Nat.compare_gt_iff in Hg as ->.
  - intros Hl. rewrite combine_model_results_spec.
    by apply Nat.compare_lt_iff in Hl as ->.
  - intros Hc start_pos pairs X HX flags' reg'.
    assert (Hm : count_active flags' = length reg')
      by apply (run_counts_match models self X Hc).
    split; [done|]. split.
    + rewrite combine_model_results_spec, Hm, Nat.compare_refl. eauto.
    + eexists. by apply run_models_ok.
Qed.

Lemma merge_count_integrity_witness :
  count_active [true; false] = length [1%Q] /\
  (exists rs, _combine_model_results ex_self [true; false] [1%Q] = inr rs) /\
  exists self',
    _run_models_and_memoize (ex_models (9 # 10) (-3)) 5 [ex_pair] ex_self
    = (inr tt, self').
Proof.
  split; [reflexivity|]. split.
  - apply (proj1 (proj2 (merge_count_integrity (ex_models (9 # 10) (-3))
                           ex_self [true; false] [1%Q]))).
    reflexivity.
  - eapply (proj2 (proj2 (proj2 (proj2
              (merge_count_integrity (ex_models (9 # 10) (-3))
                 ex_self [true; false] [1%Q]))))).
    + apply ex_models_contract.
    + vm_compute. reflexivity.
Defined.

(** ** C1: inactive pairs *)

Lemma active_of_app (X1 X2 : list (list (list Q))) flags1 flags2 :
  length X1 = length flags1 ->
  active_of (X1 ++ X2) (flags1 ++ flags2)
  = active_of X1 flags1 ++ active_of X2 flags2.
Proof.
  revert flags1. induction X1 as [|x X1 IH]; intros [|b flags1]; simpl;
    try done.
  intros [= Hl]. rewrite !active_of_cons, IH by done. by rewrite app_assoc.
Qed.

(** The active sub-batch skips a position classified inactive. *)
Lemma active_of_skip (X : list (list (list Q))) flags i :
  length X = length flags ->
  flags !! i = Some false ->
  active_of X flags
  = active_of (take i X) (take i flags)
    ++ active_of (drop (S i) X) (drop (S i) flags).
Proof.
  intros Hl Hi.
  destruct (lookup_lt_is_Some_2 X i) as [x Hx];
    [rewrite Hl; by apply lookup_lt_Some in Hi|].
  rewrite <- (take_drop_middle X i x Hx) at 1.
  rewrite <- (take_drop_middle flags i false Hi) at 1.
  rewrite active_of_app by (rewrite !length_take; lia).
  by rewrite active_of_cons.
Qed.

Lemma stored_result models self start_pos pairs X i pair :
  one_output_per_input models ->
  NoDup pairs ->
  _model_input_from_nt self pairs = inr X ->
  pairs !! i = Some pair ->
  let flags := classification_flags models self X in
  let reg := regression_values models self (active_of X flags) in
  mem_at (_run_models_and_memoize models start_pos pairs self).2 start_pos
    !! pair
  = merge_results (regression_threshold self) flags reg !! i.
Proof.
  intros Hc Hnd HX Hi flags reg.
  rewrite (run_models_ok models self start_pos pairs X Hc HX). simpl.
  rewrite mem_at_memoized_with.
  assert (Hlen : length (merge_results (regression_threshold self) flags reg)
                 = length pairs).
  { rewrite merge_results_length.
    - subst flags. rewrite classification_flags_length by done.
      by apply (model_input_length self).
    - subst reg flags. by rewrite <- (run_counts_match models self X Hc). }
  destruct (lookup_lt_is_Some_2
              (merge_results (regression_threshold self) flags reg) i)
    as [r Hr]; [rewrite Hlen; by apply lookup_lt_Some in Hi|].
  fold flags reg. rewrite Hr.
  apply (foldl_store_lookup _ _ i); [by apply fst_zip_NoDup|].
  rewrite lookup_zip_with, Hi. simpl. by rewrite Hr.
Qed.

(** C1.  Let a batch of distinct pairs be encoded to [X] and evaluated by
    [_run_models_and_memoize], the models returning one output per input.
    For a pair at position [i] whose classification score is below the
    classification threshold: the call completes, the result stored for the
    pair is exactly [(0, False)], and the batch handed to the regression model
    is made of the encodings at the active positions before [i] followed by
    those after [i], so position [i] is not part of it; every element of the
    regression batch sits at a position whose score reaches the threshold,
    and the regression model is called at most once, on that batch. *)
Theorem inactive_pair_result models self start_pos pairs X i pair score :
  one_output_per_input models ->
  NoDup pairs ->
  _model_input_from_nt self pairs = inr X ->
  pairs !! i = Some pair ->
  models classification_model X !! i = Some score ->
  (score < classification_threshold self)%Q ->
  let flags := classification_flags models self X in
  let act := active_of X flags in
  exists self',
    _run_models_and_memoize models start_pos pairs self = (inr tt, self') /\
    mem_at self' start_pos !! pair = Some (0%Q, false) /\
    model_calls self'
    = model_calls self ++ calls_for classification_model X
                       ++ calls_for regression_model act /\
    act = active_of (take i X) (take i flags)
          ++ active_of (drop (S i) X) (drop (S i) flags) /\
    (forall x, x ∈ act ->
       exists k s, X !! k = Some x /\
         models classification_model X !! k = Some s /\
         (classification_threshold self <= s)%Q).
Proof.
  intros Hc Hnd HX Hi Hs Hlt flags act.
  assert (Hfl : flags !! i = Some false).
  { subst flags. rewrite (classification_flags_lookup _ _ _ _ _ Hs Hc).
    f_equal. unfold py_ge. apply not_true_is_false.
    rewrite Qle_bool_iff. by apply Qlt_not_le. }
  assert (Hlen : length X = length flags)
    by (subst flags; by rewrite classification_flags_length).
  eexists. split; [by apply run_models_ok|].
  split; [|split; [|split]].
  - pose proof (stored_result models self start_pos pairs X i pair
                  Hc Hnd HX Hi) as Hst.
    rewrite (run_models_ok models self start_pos pairs X Hc HX) in Hst.
    simpl in Hst. rewrite Hst.
    apply merge_results_inactive; [|done].
    by rewrite <- (run_counts_match models self X Hc).
  - unfold memoized_with. simpl. rewrite log_calls_eq. simpl.
    reflexivity.
  - by apply active_of_skip.
  - intros x Hx. apply active_of_elem in Hx as (k & Hk & Hfk).
    destruct (lookup_lt_is_Some_2 (models classification_model X) k)
      as [s Hsk]; [rewrite Hc; by apply lookup_lt_Some in Hk|].
    exists k, s. split; [done|]. split; [done|].
    subst flags.
    rewrite (classification_flags_lookup _ _ _ _ _ Hsk Hc) in Hfk.
    injection Hfk as Hfk. unfold py_ge in Hfk. by apply Qle_bool_iff.
Qed.

Lemma inactive_pair_result_witness :
  exists self',
    _run_models_and_memoize (ex_models (2 # 10) (-3)) 5 [ex_pair] ex_self
    = (inr tt, self') /\
    mem_at self' 5 !! ex_pair = Some (0%Q, false) /\
    model_calls self'
    = [(classification_model, ex_encoded)].
Proof.
  destruct (inactive_pair_result (ex_models (2 # 10) (-3)) ex_self 5
              [ex_pair]
              ex_encoded
              0 ex_pair (2 # 10))
    as (self' & Hrun & Hmem & Hcalls & _).
  - apply ex_models_contract.
  - apply NoDup_singleton.
  - vm_compute. reflexivity.
  - reflexivity.
  - reflexivity.
  - reflexivity.
  - exists self'. split; [exact Hrun|]. split; [exact Hmem|]. exact Hcalls.
Defined.

(** ** C2: active pairs *)

Lemma py_max_spec (a b : Q) :
  (a <= py_max a b)%Q /\ (b <= py_max a b)%Q /\
  (py_max a b = a \/ py_max a b = b).
Proof.
  unfold py_max. destruct (Qle_bool b a) eqn:Hba.
  - apply Qle_bool_iff in Hba. split; [apply Qle_refl|]. split; [done|by left].
  - assert (~ (b <= a)%Q) as Hn by (rewrite <- Qle_bool_iff; congruence).
    apply Qnot_le_lt in Hn. split; [by apply Qlt_le_weak|].
    split; [apply Qle_refl|by right].
Qed.

Lemma py_ge_true (a b : Q) : py_ge a b = true <-> (b <= a)%Q.
Proof. unfold py_ge. apply Qle_bool_iff. Qed.

Lemma py_ge_false (a b : Q) : py_ge a b = false <-> (a < b)%Q.
Proof.
  unfold py_ge. split.
  - intros Hf. apply Qnot_le_lt. rewrite <- Qle_bool_iff. congruence.
  - intros Hlt. apply not_true_is_false. rewrite Qle_bool_iff.
    by apply Qlt_not_le.
Qed.

(** C2 (amended).  Let a batch of distinct pairs be encoded to [X] and
    evaluated by [_run_models_and_memoize] on a predictor with lower bound 0
    and shift 4, the models returning one output per input.  For a pair at
    position [i] whose classification score is at or above the classification
    threshold, let [raw] be the output of the regression model for that
    pair's encoding (its rank [k] in the active sub-batch is the number of
    active positions before [i]).  The result stored for the pair is
    [(shifted, highly_active)] with [shifted = max(0, raw + 4)] and
    [highly_active] true if and only if [shifted] is at or above the
    regression threshold; [raw = -5] gives activity 0; when [shifted] is
    below the regression threshold the result is [(shifted, False)].  The
    activity is not claimed to be nonzero. *)
Theorem active_pair_result models self start_pos pairs X i pair score :
  one_output_per_input models ->
  regression_lower_bound self = 0%Q ->
  regression_shift self = 4%Q ->
  NoDup pairs ->
  _model_input_from_nt self pairs = inr X ->
  pairs !! i = Some pair ->
  models classification_model X !! i = Some score ->
  (classification_threshold self <= score)%Q ->
  let flags := classification_flags models self X in
  let act := active_of X flags in
  let k := count_active (take i flags) in
  exists raw self',
    act !! k = X !! i /\
    models regression_model act !! k = Some raw /\
    _run_models_and_memoize models start_pos pairs self = (inr tt, self') /\
    let shifted := py_max 0 (raw + 4)%Q in
    let highly_active := py_ge shifted (regression_threshold self) in
    mem_at self' start_pos !! pair = Some (shifted, highly_active) /\
    (0 <= shifted)%Q /\ (raw + 4 <= shifted)%Q /\
    (shifted = 0%Q \/ shifted = (raw + 4)%Q) /\
    (highly_active = true <-> (regression_threshold self <= shifted)%Q) /\
    ((raw == -5)%Q -> shifted = 0%Q) /\
    ((shifted < regression_threshold self)%Q -> highly_active = false).
Proof.
  intros Hc Hlb Hsh Hnd HX Hi Hs Hge flags act k.
  assert (Hfl : flags !! i = Some true).
  { subst flags. rewrite (classification_flags_lookup _ _ _ _ _ Hs Hc).
    f_equal. by apply py_ge_true. }
  destruct (lookup_lt_is_Some_2 X i) as [x Hx];
    [rewrite (model_input_length self pairs X HX); by apply lookup_lt_Some in Hi|].
  assert (Hact : act !! k = Some x) by (by apply active_of_lookup).
  destruct (lookup_lt_is_Some_2 (models regression_model act) k)
    as [raw Hraw]; [rewrite Hc; by apply lookup_lt_Some in Hact|].
  exists raw. eexists.
  split; [by rewrite Hact, Hx|]. split; [done|].
  split; [by apply run_models_ok|].
  intros shifted highly_active.
  destruct (py_max_spec 0 (raw + 4)) as (H0 & H4 & Hor).
  split; [|split; [done|split; [done|split; [done|split; [|split]]]]].
  - pose proof (stored_result models self start_pos pairs X i pair
                  Hc Hnd HX Hi) as Hst.
    rewrite (run_models_ok models self start_pos pairs X Hc HX) in Hst.
    simpl in Hst. rewrite Hst.
    assert (Hcm : count_active flags
                  = length (regression_values models self act))
      by apply (run_counts_match models self X Hc).
    destruct (merge_results_active (regression_threshold self) flags
                (regression_values models self act) i) as (a & Ha & Hm);
      [by rewrite Hcm|done|].
    fold flags act. rewrite Hm.
    fold k in Ha. unfold regression_values in Ha.
    destruct (Nat.eqb_spec (length act) 0) as [Hz|Hnz];
      [apply lookup_lt_Some in Hact; lia|].
    rewrite list_lookup_fmap, Hraw, Hlb, Hsh in Ha. simpl in Ha.
    by injection Ha as <-.
  - apply py_ge_true.
  - intros Hraw5. subst shifted. unfold py_max.
    replace (Qle_bool (raw + 4) 0) with true; [done|].
    symmetry. apply Qle_bool_iff. rewrite Hraw5. done.
  - apply py_ge_false.
Qed.

Lemma active_pair_result_witness :
  exists raw self',
    raw = (-3)%Q /\
    _run_models_and_memoize (ex_models (9 # 10) (-3)) 5 [ex_pair] ex_self
    = (inr tt, self') /\
    mem_at self' 5 !! ex_pair = Some (1%Q, true).
Proof.
  destruct (active_pair_result (ex_models (9 # 10) (-3)) ex_self 5
              [ex_pair]
              ex_encoded
              0 ex_pair (9 # 10))
    as (raw & self' & _ & Hraw & Hrun & Hmem & _).
  - apply ex_models_contract.
  - reflexivity.
  - reflexivity.
  - apply NoDup_singleton.
  - vm_compute. reflexivity.
  - reflexivity.
  - reflexivity.
  - vm_compute. discriminate.
  - vm_compute in Hraw. injection Hraw as Hraw. subst raw.
    exists (-3)%Q, self'. split; [reflexivity|]. split; [exact Hrun|].
    exact Hmem.
Defined.

(** C2 as stated describes the activity of an active pair whose shifted
    regression output is below the regression threshold as nonzero.  Here the
    classifier score 0.9 reaches the threshold 0.5, the raw regression output
    is -5, and the shifted value 0 is below the regression threshold 0.8: the
    regression model is called, and the result is (0, False), with activity
    exactly 0. *)
Lemma active_pair_zero_activity :
  (classification_threshold ex_self <= 9 # 10)%Q /\
  (py_max 0 (-5 + 4) < regression_threshold ex_self)%Q /\
  (compute_activity (ex_models (9 # 10) (-5)) ex_set_iter 5 [ex_pair]
     ex_self).1 = inr [0%Q] /\
  (determine_highly_active (ex_models (9 # 10) (-5)) ex_set_iter 5 [ex_pair]
     ex_self).1 = inr [false] /\
  map fst (model_calls
    (compute_activity (ex_models (9 # 10) (-5)) ex_set_iter 5 [ex_pair]
       ex_self).2) = [classification_model; regression_model].
Proof.
  split; [vm_compute; discriminate|].
  split; [vm_compute; reflexivity|].
  split; [vm_compute; reflexivity|].
  split; vm_compute; reflexivity.
Qed.

(** ** C8: thresholds at construction *)

Lemma py_ge_cases (a b : Q) :
  (py_ge a b = true /\ (b <= a)%Q) \/ (py_ge a b = false /\ (a < b)%Q).
Proof.
  destruct (py_ge a b) eqn:H; [left|right]; (split; [done|]).
  - by apply py_ge_true.
  - by apply py_ge_false.
Qed.

Ltac py_ge_case a b :=
  let H := fresh "Hge" in let H' := fresh "Hord" in
  destruct (py_ge_cases a b) as [[H H']|[H H']]; rewrite H in *; simpl in *.

(** C8.  A caller-supplied classification threshold below 0 or above 1 makes
    the constructor fail (with [ValueError] once the context metadata is
    read); so does a caller-supplied regression threshold below 0.  When the
    constructor returns a predictor: its classification threshold lies in
    [0,1] and is the caller's or, if none was supplied, the one of the
    metadata file; its regression threshold is the caller's (then at least
    0) or, if none was supplied, the default of the metadata file plus the
    shift 4, and then strictly above 0.  A default classification threshold
    outside [0,1], or a default regression threshold whose shifted value is
    not above 0, makes the constructor fail (with [AssertionError] once the
    earlier checks pass): no predictor is returned. *)
Theorem init_thresholds cdir rdir ct rt :
  (forall t, ct = Some t -> (t < 0 \/ 1 < t)%Q ->
     (exists e, __init__ cdir rdir ct rt = inl e) /\
     (forall n, context_nt_arg cdir = Some n -> context_nt_arg rdir = Some n ->
        __init__ cdir rdir ct rt = inl ValueError)) /\
  (forall t, rt = Some t -> (t < 0)%Q ->
     (exists e, __init__ cdir rdir ct rt = inl e) /\
     (forall n tc, context_nt_arg cdir = Some n ->
        context_nt_arg rdir = Some n ->
        ct = Some tc -> (0 <= tc)%Q -> (tc <= 1)%Q ->
        __init__ cdir rdir ct rt = inl ValueError)) /\
  (forall d, ct = None -> default_threshold_arg cdir = Some d ->
     (d < 0 \/ 1 < d)%Q ->
     (exists e, __init__ cdir rdir ct rt = inl e) /\
     (forall n, context_nt_arg cdir = Some n -> context_nt_arg rdir = Some n ->
        __init__ cdir rdir ct rt = inl AssertionError)) /\
  (forall d, rt = None -> default_threshold_arg rdir = Some d ->
     (d + 4 <= 0)%Q ->
     (exists e, __init__ cdir rdir ct rt = inl e) /\
     (forall n tc, context_nt_arg cdir = Some n ->
        context_nt_arg rdir = Some n ->
        ct = Some tc -> (0 <= tc)%Q -> (tc <= 1)%Q ->
        __init__ cdir rdir ct rt = inl AssertionError)) /\
  (forall self, __init__ cdir rdir ct rt = inr self ->
     regression_lower_bound self = 0%Q /\
     regression_shift self = 4%Q /\
     _memoized_evaluations self = ∅ /\
     (0 <= classification_threshold self)%Q /\
     (classification_threshold self <= 1)%Q /\
     match ct with
     | Some t => classification_threshold self = t
     | None => default_threshold_arg cdir = Some (classification_threshold self)
     end /\
     match rt with
     | Some t => regression_threshold self = t /\ (0 <= t)%Q
     | None =>
         exists d, default_threshold_arg rdir = Some d /\
           regression_threshold self = (d + 4)%Q /\
           (0 < regression_threshold self)%Q
     end).
Proof.
  unfold __init__.
  destruct (context_nt_arg cdir) as [nc|], (context_nt_arg rdir) as [nr|];
    try (repeat split; intros; try discriminate; eauto; fail).
  destruct (Nat.eqb_spec nc nr) as [->|Hne]; simpl.
  2: { repeat split; intros; try discriminate; eauto;
       match goal with
       | H1 : Some nc = Some ?n, H2 : Some nr = Some ?n |- _ =>
           injection H1 as <-; injection H2 as <-; done
       end. }
  split; [|split; [|split; [|split]]].
  - intros t -> Ht. simpl.
    assert (negb (py_ge t 0) || negb (py_ge 1 t) = true) as ->.
    { destruct Ht as [Ht|Ht]; apply py_ge_false in Ht; rewrite Ht;
        simpl; [done|]. by rewrite orb_true_r. }
    simpl. eauto.
  - intros t -> Ht.
    apply py_ge_false in Ht.
    split.
    + destruct ct as [tc|]; simpl.
      * destruct (negb (py_ge tc 0) || negb (py_ge 1 tc)); simpl; eauto.
        rewrite Ht. simpl. eauto.
      * destruct (default_threshold_arg cdir) as [d|]; simpl; eauto.
        destruct (py_ge d 0 && py_ge 1 d); simpl; eauto.
        rewrite Ht. simpl. eauto.
    + intros n tc _ _ -> H0 H1. simpl.
      apply py_ge_true in H0, H1. rewrite H0, H1. simpl.
      rewrite Ht. done.
  - intros d -> Hd Hout. rewrite Hd. simpl.
    assert (py_ge d 0 && py_ge 1 d = false) as ->.
    { destruct Hout as [Ht|Ht]; apply py_ge_false in Ht; rewrite Ht;
        simpl; [done|]. by rewrite andb_false_r. }
    simpl. eauto.
  - intros d -> Hd Hle. rewrite Hd.
    apply Qle_bool_iff in Hle.
    split.
    + destruct ct as [tc|]; simpl.
      * destruct (negb (py_ge tc 0) || negb (py_ge 1 tc)); simpl; eauto.
        rewrite Hle. simpl. eauto.
      * destruct (default_threshold_arg cdir) as [d'|]; simpl; eauto.
        destruct (py_ge d' 0 && py_ge 1 d'); simpl; eauto.
        rewrite Hle. simpl. eauto.
    + intros n tc _ _ -> H0 H1. simpl.
      apply py_ge_true in H0, H1. rewrite H0, H1. simpl.
      rewrite Hle. done.
  - intros self.
    destruct ct as [tc|]; simpl.
    + py_ge_case tc 0%Q; [|done]. py_ge_case 1%Q tc; [|done].
      destruct rt as [tr|]; simpl.
      * py_ge_case tr 0%Q; [|done]. intros [= <-]. simpl. done.
      * destruct (default_threshold_arg rdir) as [d|]; simpl; [|done].
        destruct (Qle_bool (d + 4) 0) eqn:Hd; simpl; [done|].
        intros [= <-]. simpl. repeat split; try done.
        exists d. repeat split. apply Qnot_le_lt.
        rewrite <- Qle_bool_iff. congruence.
    + destruct (default_threshold_arg cdir) as [dc|]; simpl; [|done].
      py_ge_case dc 0%Q; [|done]. py_ge_case 1%Q dc; [|done].
      destruct rt as [tr|]; simpl.
      * py_ge_case tr 0%Q; [|done]. intros [= <-]. simpl. done.
      * destruct (default_threshold_arg rdir) as [d|]; simpl; [|done].
        destruct (Qle_bool (d + 4) 0) eqn:Hd; simpl; [done|].
        intros [= <-]. simpl. repeat split; try done.
        exists d. repeat split. apply Qnot_le_lt.
        rewrite <- Qle_bool_iff. congruence.
Qed.

Lemma init_thresholds_witness :
  __init__ ex_cdir ex_rdir (Some (3 # 2)) None = inl ValueError /\
  __init__ ex_cdir ex_rdir (Some (1 # 2)) (Some (-1)%Q) = inl ValueError /\
  exists self, __init__ ex_cdir ex_rdir None None = inr self /\
    classification_threshold self = (1 # 2) /\
    regression_threshold self = (- (32 # 10) + 4)%Q /\
    (0 < regression_threshold self)%Q.
Proof.
  split; [|split].
  - apply (proj1 (init_thresholds ex_cdir ex_rdir (Some (3 # 2)) None)
             (3 # 2) eq_refl (or_intror eq_refl)) with (n := 2%nat);
      reflexivity.
  - apply (proj1 (proj2 (init_thresholds ex_cdir ex_rdir (Some (1 # 2))
                           (Some (-1)%Q)))
             (-1)%Q eq_refl eq_refl) with (n := 2%nat) (tc := 1 # 2);
      try reflexivity; vm_compute; discriminate.
  - eexists. split; [reflexivity|].
    destruct (proj2 (proj2 (proj2 (proj2
                (init_thresholds ex_cdir ex_rdir None None)))) _ eq_refl)
      as (_ & _ & _ & _ & _ & Hc & d & Hd & Hr & Hpos).
    simpl in Hc, Hd. injection Hd as Hd. subst d.
    split; [reflexivity|]. split; [exact Hr|exact Hpos].
Defined.

(** ** The one-hot vectors *)

Lemma dict_get_elem {V : Type} (d : list (ascii * V)) k v :
  dict_get d k = Some v -> (k, v) ∈ d.
Proof.
  induction d as [|[k' v'] d IH]; simpl; [done|].
  destruct (Ascii.eqb_spec k' k) as [->|Hne].
  - intros [= ->]. apply elem_of_cons. by left.
  - intros H. apply elem_of_cons. right. by apply IH.
Qed.

Lemma onehot_recognized b real_bases :
  dict_get FASTA_CODES b = Some real_bases ->
  onehot b = inr (base_weights real_bases) /\
  length (base_weights real_bases) = 4%nat /\
  (sumQ (base_weights real_bases) == 1)%Q /\
  (forall ch i, dict_get onehot_idx ch = Some i ->
     base_weights real_bases !! i
     = Some (if bool_decide (ch ∈ real_bases)
             then (1 / inject_Z (Z.of_nat (length real_bases)))%Q
             else 0%Q)).
Proof.
  intros Hb. apply dict_get_elem in Hb. unfold FASTA_CODES in Hb.
  repeat (apply elem_of_cons in Hb as [Hb|Hb];
          [injection Hb as -> ->;
           split; [vm_compute; reflexivity|];
           split; [reflexivity|];
           split; [vm_compute; reflexivity|];
           intros ch i Hi; apply dict_get_elem in Hi; unfold onehot_idx in Hi;
           repeat (apply elem_of_cons in Hi as [Hi|Hi];
                   [injection Hi as -> ->; vm_compute; reflexivity|]);
           by apply elem_of_nil in Hi
          |]).
  by apply elem_of_nil in Hb.
Qed.

(** ** Strings as lists of characters *)

Lemma string_get_lookup (s : string) (i : nat) :
  String.get i s = list_ascii_of_string s !! i.
Proof.
  revert i. induction s as [|c s IH]; intros [|i]; simpl; try done.
Qed.

Lemma string_length_list (s : string) :
  String.length s = length (list_ascii_of_string s).
Proof. induction s as [|c s IH]; simpl; [done|]. by rewrite IH. Qed.

Lemma str_index_lookup (s : string) (i : nat) c :
  list_ascii_of_string s !! i = Some c -> str_index s i = inr c.
Proof. unfold str_index. rewrite string_get_lookup. by intros ->. Qed.

Lemma onehot_vec_eq b : recognized b -> onehot b = inr (onehot_vec b).
Proof.
  intros [rb Hrb]. unfold onehot_vec.
  by rewrite (proj1 (onehot_recognized b rb Hrb)).
Qed.

Lemma res_map_ok {A B : Type} (f : A -> res B) (g : A -> B) (l : list A) :
  (forall a, a ∈ l -> f a = inr (g a)) -> res_map f l = inr (map g l).
Proof.
  induction l as [|a l IH]; intros Hf; simpl; [done|].
  rewrite Hf by (apply elem_of_cons; by left). simpl.
  rewrite IH; [done|]. intros a' Ha'. apply Hf. apply elem_of_cons. by right.
Qed.

(** Reading a window of a sequence position by position. *)
Lemma map_window {A B : Type} (l : list A) (F : A -> B) (h : nat -> B)
    (o a n : nat) :
  (o + a + n <= length l)%nat ->
  (forall pos x, l !! (o + pos)%nat = Some x -> h pos = F x) ->
  map h (seq a n) = map F (take n (drop (o + a) l)).
Proof.
  intros Hlen Hh. revert a Hlen. induction n as [|n IH]; intros a Hlen;
    simpl; [done|].
  destruct (lookup_lt_is_Some_2 l (o + a)) as [x Hx]; [lia|].
  rewrite (drop_S _ _ _ Hx). simpl. rewrite (Hh _ _ Hx).
  f_equal. replace (S (o + a)) with (o + S a)%nat by lia. apply IH. lia.
Qed.

Lemma map_window2 {A B : Type} (l1 l2 : list A) (F : A -> A -> B)
    (h : nat -> B) (c a n : nat) :
  (c + a + n <= length l1)%nat ->
  (a + n <= length l2)%nat ->
  (forall pos x y, l1 !! (c + pos)%nat = Some x -> l2 !! pos = Some y ->
     h pos = F x y) ->
  map h (seq a n)
  = zip_with F (take n (drop (c + a) l1)) (take n (drop a l2)).
Proof.
  intros Hlen1 Hlen2 Hh. revert a Hlen1 Hlen2.
  induction n as [|n IH]; intros a Hlen1 Hlen2; simpl; [done|].
  destruct (lookup_lt_is_Some_2 l1 (c + a)) as [x Hx]; [lia|].
  destruct (lookup_lt_is_Some_2 l2 a) as [y Hy]; [lia|].
  rewrite (drop_S _ _ _ Hx), (drop_S _ _ _ Hy). simpl.
  rewrite (Hh _ _ _ Hx Hy). f_equal.
  replace (S (c + a)) with (c + S a)%nat by lia. apply IH; lia.
Qed.

Lemma input_vec_of_ok self target_with_context guide :
  over_alphabet target_with_context ->
  over_alphabet guide ->
  String.length target_with_context
  = (2 * context_nt self + String.length guide)%nat ->
  input_vec_of self (target_with_context, guide)
  = inr (rows_of (context_nt self) target_with_context guide).
Proof.
  intros HT HG Hlen. unfold input_vec_of. rewrite Hlen, Nat.eqb_refl. simpl.
  rewrite !string_length_list in *.
  set (T := list_ascii_of_string target_with_context) in *.
  set (G := list_ascii_of_string guide) in *.
  set (c := context_nt self) in *.
  unfold over_alphabet in HT, HG. fold T in HT. fold G in HG.
  rewrite Forall_lookup in HT, HG.
  rewrite (res_map_ok _
             (fun pos => match T !! pos with
                         | Some b => onehot_vec b ++ zeros4
                         | None => []
                         end)).
  2: { intros pos Hpos. apply elem_of_seq in Hpos.
       destruct (lookup_lt_is_Some_2 T pos) as [b Hb]; [lia|].
       rewrite (str_index_lookup _ _ _ Hb), Hb. simpl.
       rewrite onehot_vec_eq by eauto. done. }
  simpl.
  rewrite (res_map_ok _
             (fun pos => match T !! (c + pos)%nat, G !! pos with
                         | Some bt, Some bg => onehot_vec bt ++ onehot_vec bg
                         | _, _ => []
                         end)).
  2: { intros pos Hpos. apply elem_of_seq in Hpos.
       destruct (lookup_lt_is_Some_2 T (c + pos)) as [bt Hbt]; [lia|].
       destruct (lookup_lt_is_Some_2 G pos) as [bg Hbg]; [lia|].
       rewrite (str_index_lookup _ _ _ Hbt), Hbt. simpl.
       rewrite onehot_vec_eq by eauto. simpl.
       rewrite (str_index_lookup _ _ _ Hbg), Hbg. simpl.
       rewrite onehot_vec_eq by eauto. done. }
  simpl.
  rewrite (res_map_ok _
             (fun pos => match T !! (c + length G + pos)%nat with
                         | Some b => onehot_vec b ++ zeros4
                         | None => []
                         end)).
  2: { intros pos Hpos. apply elem_of_seq in Hpos.
       destruct (lookup_lt_is_Some_2 T (c + length G + pos)) as [b Hb]; [lia|].
       rewrite (str_index_lookup _ _ _ Hb), Hb. simpl.
       rewrite onehot_vec_eq by eauto. done. }
  simpl. unfold rows_of. fold T G. f_equal. f_equal; [|f_equal].
  - rewrite (map_window T (fun b => onehot_vec b ++ zeros4) _ 0 0 c);
      [done|lia|]. simpl. by intros pos x ->.
  - rewrite (map_window2 T G (fun bt bg => onehot_vec bt ++ onehot_vec bg)
               _ c 0 (length G)); [|lia|lia|].
    + rewrite Nat.add_0_r, drop_0, firstn_all. done.
    + by intros pos x y -> ->.
  - rewrite (map_window T (fun b => onehot_vec b ++ zeros4) _
               (c + length G) 0 c); [|lia|by intros pos x ->].
    rewrite Nat.add_0_r, take_ge; [done|]. rewrite length_drop. lia.
Qed.

Lemma np_assign_same l (rows : list (list Q)) :
  length rows = l -> (0 < l)%nat -> np_assign l rows = inr rows.
Proof.
  intros <- Hpos. destruct rows as [|r [|r' rows]]; simpl in *; [lia|done|].
  by rewrite Nat.eqb_refl.
Qed.

Lemma rows_of_length c target_with_context guide :
  String.length target_with_context = (2 * c + String.length guide)%nat ->
  length (rows_of c target_with_context guide)
  = String.length target_with_context.
Proof.
  intros Hlen. rewrite !string_length_list in *. unfold rows_of.
  rewrite !length_app, !length_map, length_zip_with, !length_take,
    !length_drop.
  lia.
Qed.

(** ** Failures of the encoder *)

Lemma res_map_inr {A B : Type} (f : A -> res B) (l : list A) bs :
  res_map f l = inr bs ->
  length bs = length l /\
  forall i a, l !! i = Some a -> exists b, f a = inr b /\ bs !! i = Some b.
Proof.
  revert bs. induction l as [|a l IH]; intros bs; simpl.
  - intros [= <-]. split; [done|]. intros i a Hi. by destruct i.
  - destruct (f a) as [e|b] eqn:Hfa; simpl; [done|].
    destruct (res_map f l) as [e|bs'] eqn:Hl; simpl; [done|].
    intros [= <-]. destruct (IH bs' eq_refl) as [Hlen Hall].
    split; [simpl; by rewrite Hlen|].
    intros [|i] a' Hi; simpl in *.
    + injection Hi as <-. eauto.
    + by apply Hall.
Qed.

Lemma res_map_inl {A B : Type} (f : A -> res B) (l : list A) e :
  res_map f l = inl e -> exists a, a ∈ l /\ f a = inl e.
Proof.
  induction l as [|a l IH]; simpl; [done|].
  destruct (f a) as [e'|b] eqn:Hfa; simpl.
  - intros [= <-]. exists a. split; [apply elem_of_cons; by left|done].
  - destruct (res_map f l) as [e'|bs'] eqn:Hl; simpl; [|done].
    intros [= <-]. destruct (IH eq_refl) as (a' & Ha' & Hf).
    exists a'. split; [apply elem_of_cons; by right|done].
Qed.

Lemma res_map_fails {A B : Type} (f : A -> res B) (l : list A) a e :
  a ∈ l -> f a = inl e -> exists e', res_map f l = inl e'.
Proof.
  intros Ha Hf. destruct (res_map f l) as [e'|bs] eqn:Hl; [eauto|].
  apply list_elem_of_lookup in Ha as [i Hi].
  destruct (proj2 (res_map_inr f l bs Hl) i a Hi) as (b & Hb & _).
  congruence.
Qed.

Lemma onehot_inr b v : onehot b = inr v -> recognized b.
Proof.
  unfold onehot, recognized. destruct (dict_get FASTA_CODES b); [eauto|done].
Qed.

Lemma onehot_inl b e : onehot b = inl e -> e = KeyError b /\ ~ recognized b.
Proof.
  unfold recognized. destruct (dict_get FASTA_CODES b) as [rb|] eqn:Hb.
  - rewrite (proj1 (onehot_recognized b rb Hb)). done.
  - unfold onehot. rewrite Hb. intros [= <-]. split; [done|].
    by intros [? ?].
Qed.

Lemma str_index_inr s i c :
  str_index s i = inr c -> list_ascii_of_string s !! i = Some c.
Proof.
  unfold str_index. rewrite string_get_lookup.
  destruct (list_ascii_of_string s !! i); [by intros [= ->]|done].
Qed.

Lemma str_index_in_range s i :
  (i < String.length s)%nat -> exists c, str_index s i = inr c.
Proof.
  rewrite string_length_list. intros Hi.
  destruct (lookup_lt_is_Some_2 _ _ Hi) as [c Hc].
  exists c. by apply str_index_lookup.
Qed.

(** What a successful per-pair encoding tells about the pair. *)
Lemma input_vec_of_inr self target_with_context guide rows :
  input_vec_of self (target_with_context, guide) = inr rows ->
  String.length target_with_context
  = (2 * context_nt self + String.length guide)%nat /\
  length rows = (2 * context_nt self + String.length guide)%nat /\
  over_alphabet target_with_context /\ over_alphabet guide.
Proof.
  unfold input_vec_of.
  destruct (Nat.eqb_spec (String.length target_with_context)
              (2 * context_nt self + String.length guide)) as [Hlen|]; [|done].
  simpl.
  set (c := context_nt self) in *.
  match goal with
  | |- (let* _ := res_map ?f1 _ in
        let* _ := res_map ?f2 _ in
        let* _ := res_map ?f3 _ in _) = _ -> _ =>
      destruct (res_map f1 (seq 0 c)) as [e|r1] eqn:H1; simpl; [done|];
      destruct (res_map f2 (seq 0 (String.length guide))) as [e|r2] eqn:H2;
        simpl; [done|];
      destruct (res_map f3 (seq 0 c)) as [e|r3] eqn:H3; simpl; [done|]
  end.
  intros [= <-].
  apply res_map_inr in H1 as [L1 A1], H2 as [L2 A2], H3 as [L3 A3].
  rewrite length_seq in L1, L2, L3.
  split; [done|]. split; [rewrite !length_app; lia|].
  rewrite !string_length_list in *.
  split.
  - apply Forall_lookup. intros pos b Hb.
    apply lookup_lt_Some in Hb as Hlt.
    destruct (decide (pos < c)%nat) as [Hc|Hc].
    { destruct (A1 pos pos) as (row & Hrow & _);
        [apply lookup_seq; lia|].
      rewrite (str_index_lookup _ _ _ Hb) in Hrow. simpl in Hrow.
      destruct (onehot b) as [|v] eqn:Hv; [done|]. by eapply onehot_inr. }
    destruct (decide (pos < c + length (list_ascii_of_string guide))%nat)
      as [Hg|Hg].
    { destruct (A2 (pos - c)%nat (pos - c)%nat) as (row & Hrow & _);
        [apply lookup_seq; lia|].
      replace (c + (pos - c))%nat with pos in Hrow by lia.
      rewrite (str_index_lookup _ _ _ Hb) in Hrow. simpl in Hrow.
      destruct (onehot b) as [|v] eqn:Hv; [done|]. by eapply onehot_inr. }
    destruct (A3 (pos - c - length (list_ascii_of_string guide))%nat
                 (pos - c - length (list_ascii_of_string guide))%nat)
      as (row & Hrow & _); [apply lookup_seq; lia|].
    rewrite <- string_length_list in Hrow.
    replace (c + String.length guide
             + (pos - c - String.length guide))%nat with pos in Hrow
      by (rewrite string_length_list; lia).
    rewrite (str_index_lookup _ _ _ Hb) in Hrow. simpl in Hrow.
    destruct (onehot b) as [|v] eqn:Hv; [done|]. by eapply onehot_inr.
  - apply Forall_lookup. intros pos b Hb.
    apply lookup_lt_Some in Hb as Hlt.
    destruct (A2 pos pos) as (row & Hrow & _); [apply lookup_seq; lia|].
    destruct (str_index target_with_context (c + pos)) as [|bt]; [done|].
    simpl in Hrow. destruct (onehot bt) as [|vt]; [done|]. simpl in Hrow.
    rewrite (str_index_lookup _ _ _ Hb) in Hrow. simpl in Hrow.
    destruct (onehot b) as [|v] eqn:Hv; [done|]. by eapply onehot_inr.
Qed.

(** A row fails only on an unrecognized base of the sequence it reads. *)
Lemma row_error (s : string) (pos : nat) (k : list Q -> res (list Q)) e :
  (pos < String.length s)%nat ->
  (let* b := str_index s pos in let* v := onehot b in k v) = inl e ->
  (exists ch, e = KeyError ch /\ ~ recognized ch /\
              ch ∈ list_ascii_of_string s) \/
  (exists v, k v = inl e).
Proof.
  intros Hpos. destruct (str_index_in_range s pos Hpos) as [b Hb].
  rewrite Hb. simpl. destruct (onehot b) as [e'|v] eqn:Hv; simpl.
  - intros [= <-]. apply onehot_inl in Hv as [-> Hn]. left. exists b.
    split; [done|]. split; [done|].
    apply str_index_inr in Hb. by eapply list_elem_of_lookup_2.
  - intros Hk. right. eauto.
Qed.

Lemma input_vec_of_inl self target_with_context guide e :
  String.length target_with_context
  = (2 * context_nt self + String.length guide)%nat ->
  input_vec_of self (target_with_context, guide) = inl e ->
  exists ch, e = KeyError ch /\ ~ recognized ch /\
    occurs_in ch (target_with_context, guide).
Proof.
  intros Hlen. unfold input_vec_of. rewrite Hlen, Nat.eqb_refl. simpl.
  set (c := context_nt self) in *.
  assert (Hcase : forall ch, e = KeyError ch /\ ~ recognized ch /\
            (ch ∈ list_ascii_of_string target_with_context \/
             ch ∈ list_ascii_of_string guide) ->
          exists ch, e = KeyError ch /\ ~ recognized ch /\
            occurs_in ch (target_with_context, guide)).
  { intros ch (? & ? & ?). exists ch. done. }
  match goal with
  | |- (let* _ := res_map ?f1 _ in
        let* _ := res_map ?f2 _ in
        let* _ := res_map ?f3 _ in _) = _ -> _ =>
      destruct (res_map f1 (seq 0 c)) as [e1|r1] eqn:H1; simpl;
        [|destruct (res_map f2 (seq 0 (String.length guide)))
            as [e2|r2] eqn:H2; simpl;
          [|destruct (res_map f3 (seq 0 c)) as [e3|r3] eqn:H3; simpl;
            [|done]]]
  end; intros [= <-].
  - apply res_map_inl in H1 as (pos & Hpos & Hf). apply elem_of_seq in Hpos.
    apply row_error in Hf as [(ch & ? & ? & ?)|[v Hv]]; [|done|lia].
    apply (Hcase ch). eauto.
  - apply res_map_inl in H2 as (pos & Hpos & Hf). apply elem_of_seq in Hpos.
    apply row_error in Hf as [(ch & ? & ? & ?)|[v Hv]]; [| |lia].
    { apply (Hcase ch). eauto. }
    apply row_error in Hv as [(ch & ? & ? & ?)|[v' Hv']]; [|done|lia].
    apply (Hcase ch). eauto.
  - apply res_map_inl in H3 as (pos & Hpos & Hf). apply elem_of_seq in Hpos.
    apply row_error in Hf as [(ch & ? & ? & ?)|[v Hv]]; [|done|lia].
    apply (Hcase ch). eauto.
Qed.

(** ** C9: inputs the encoder rejects *)

(** C9 as stated promises, for every input with a character outside the
    alphabet, an error that carries the offending character.  With
    [context_nt = 0], the pair [("XA", "A")] contains the unrecognized
    character X, but its target length 2 differs from the guide length 1:
    the length assertion fails first and the error is an [AssertionError],
    which carries no character. *)
Lemma bad_character_and_bad_length :
  ~ recognized "X"%char /\
  occurs_in "X"%char ("XA"%string, "A"%string) /\
  input_vec_of ex_self0 ("XA"%string, "A"%string) = inl AssertionError /\
  _model_input_from_nt ex_self0 [("XA"%string, "A"%string)]
  = inl AssertionError.
Proof.
  split; [intros [rb Hrb]; vm_compute in Hrb; discriminate|].
  split; [left; vm_compute; apply elem_of_cons; by left|].
  split; vm_compute; reflexivity.
Qed.

(** C9 (amended).  A batch containing a pair with a character outside the
    recognized alphabet is never encoded: [_model_input_from_nt] raises.  For
    a pair whose target length equals [2*context_nt + len(guide)], the
    per-pair encoding raises [KeyError] carrying a character of the pair that
    is outside the alphabet, and so does the encoder on the batch made of
    this pair.  A pair whose target length differs from
    [2*context_nt + len(guide)] fails the length assertion
    ([AssertionError]), whatever its characters, and no batch containing it
    is encoded. *)
Theorem encoder_rejects self pairs pair ch :
  pair ∈ pairs ->
  occurs_in ch pair ->
  ~ recognized ch ->
  (exists e, _model_input_from_nt self pairs = inl e) /\
  (String.length pair.1 = (2 * context_nt self + String.length pair.2)%nat ->
   exists ch', ~ recognized ch' /\ occurs_in ch' pair /\
     input_vec_of self pair = inl (KeyError ch') /\
     _model_input_from_nt self [pair] = inl (KeyError ch')) /\
  (forall pair' pairs',
     String.length pair'.1
       <> (2 * context_nt self + String.length pair'.2)%nat ->
     input_vec_of self pair' = inl AssertionError /\
     _model_input_from_nt self [pair'] = inl AssertionError /\
     (pair' ∈ pairs' -> exists e, _model_input_from_nt self pairs' = inl e)).
Proof.
  intros Hin Hocc Hbad.
  assert (Hpair : exists e, input_vec_of self pair = inl e).
  { destruct pair as [t g].
    destruct (input_vec_of self (t, g)) as [e|rows] eqn:Hv; [eauto|].
    apply input_vec_of_inr in Hv as (_ & _ & HT & HG).
    exfalso. apply Hbad. unfold over_alphabet in HT, HG.
    rewrite Forall_forall in HT, HG.
    destruct Hocc as [Ho|Ho]; simpl in Ho; [by apply HT|by apply HG]. }
  assert (Hbatch : forall p ps e, p ∈ ps -> input_vec_of self p = inl e ->
            exists e', _model_input_from_nt self ps = inl e').
  { intros p ps e Hp He. unfold _model_input_from_nt.
    destruct ps as [|p0 ps0]; [by apply elem_of_nil in Hp|].
    eapply res_map_fails; [exact Hp|]. rewrite He. done. }
  split; [|split].
  - destruct Hpair as [e He]. by eapply Hbatch.
  - intros Hlen. destruct Hpair as [e He]. destruct pair as [t g].
    destruct (input_vec_of_inl self t g e Hlen He) as (ch' & -> & ? & ?).
    exists ch'. split; [done|]. split; [done|]. split; [done|].
    unfold _model_input_from_nt, res_map. by rewrite He.
  - intros [t' g'] pairs' Hne. simpl in Hne.
    assert (Hv : input_vec_of self (t', g') = inl AssertionError).
    { unfold input_vec_of.
      by destruct (Nat.eqb_spec (String.length t')
                     (2 * context_nt self + String.length g')). }
    split; [done|]. split.
    + unfold _model_input_from_nt, res_map. by rewrite Hv.
    + intros Hp. by eapply Hbatch.
Qed.

Lemma encoder_rejects_witness :
  (exists e, _model_input_from_nt ex_self
               [ex_pair; ("TTAXGGG"%string, "ACG"%string)] = inl e) /\
  exists ch', ~ recognized ch' /\
    occurs_in ch' ("TTAXGGG"%string, "ACG"%string) /\
    input_vec_of ex_self ("TTAXGGG"%string, "ACG"%string)
    = inl (KeyError ch') /\
    _model_input_from_nt ex_self [("TTAXGGG"%string, "ACG"%string)]
    = inl (KeyError ch').
Proof.
  assert (Hin : ("TTAXGGG"%string, "ACG"%string)
                ∈ [ex_pair; ("TTAXGGG"%string, "ACG"%string)]).
  { apply elem_of_cons. right. apply elem_of_cons. by left. }
  assert (Hocc : occurs_in "X"%char ("TTAXGGG"%string, "ACG"%string)).
  { left. simpl. do 3 (apply elem_of_cons; right). apply elem_of_cons.
    by left. }
  assert (Hbad : ~ recognized "X"%char).
  { intros [rb Hrb]. vm_compute in Hrb. discriminate. }
  split.
  - exact (proj1 (encoder_rejects ex_self _ _ _ Hin Hocc Hbad)).
  - exact (proj1 (proj2 (encoder_rejects ex_self _ _ _ Hin Hocc Hbad))
             eq_refl).
Defined.

(** ** C10: batches of mixed guide lengths *)

Lemma np_assign_inr l rows m :
  np_assign l rows = inr m ->
  length m = l /\ (length rows = l \/ length rows = 1%nat).
Proof.
  destruct rows as [|r [|r' rows]]; unfold np_assign; [done| |].
  - intros [= <-]. rewrite length_replicate. auto.
  - destruct (Nat.eqb_spec (length (r :: r' :: rows)) l); [|done].
    intros [= <-]. auto.
Qed.

Lemma np_assign_inl l rows e : np_assign l rows = inl e -> e = ValueError.
Proof.
  destruct rows as [|r [|r' rows]]; unfold np_assign;
    [by intros [= <-]|done|].
  destruct (length (r :: r' :: rows) =? l)%nat; [done|by intros [= <-]].
Qed.

(** What the encoder guarantees when it returns. *)
Lemma model_input_inr self pair0 rest X :
  _model_input_from_nt self (pair0 :: rest) = inr X ->
  Forall (fun m => length m = row_count self pair0) X /\
  Forall (fun p =>
            String.length p.1 = row_count self p /\
            (row_count self p = row_count self pair0 \/
             row_count self p = 1%nat))
         (pair0 :: rest).
Proof.
  intros HX. unfold _model_input_from_nt in HX.
  apply res_map_inr in HX as [Hlen Hall]. split.
  - apply Forall_lookup. intros i m Hm.
    destruct (lookup_lt_is_Some_2 (pair0 :: rest) i) as [p Hp];
      [rewrite <- Hlen; by apply lookup_lt_Some in Hm|].
    destruct (Hall i p Hp) as (m' & Hm' & Hi). rewrite Hm in Hi.
    injection Hi as <-.
    destruct (input_vec_of self p) as [|rows]; [done|]. simpl in Hm'.
    by apply np_assign_inr in Hm' as [? _].
  - apply Forall_lookup. intros i [t g] Hp.
    destruct (Hall i _ Hp) as (m' & Hm' & Hi).
    destruct (input_vec_of self (t, g)) as [|rows] eqn:Hv; [done|].
    simpl in Hm'. apply input_vec_of_inr in Hv as (Ht & Hrows & _).
    apply np_assign_inr in Hm' as [_ Hor].
    unfold row_count in *. simpl in *. rewrite Hrows in Hor. done.
Qed.

(** ** C3: the layout of the encoding *)

Lemma np_assign_exact l (rows m : list (list Q)) :
  np_assign l rows = inr m -> length rows = l -> m = rows /\ (0 < l)%nat.
Proof.
  unfold np_assign. destruct rows as [|row [|row' rows']]; [done| |].
  - intros [= <-] <-. split; [done|simpl; lia].
  - intros H <-. rewrite Nat.eqb_refl in H. injection H as <-.
    split; [done|simpl; lia].
Qed.

Lemma np_assign_single l (rows m : list (list Q)) :
  np_assign l rows = inr m -> length rows <> l ->
  exists row, rows = [row] /\ m = replicate l row.
Proof.
  unfold np_assign. destruct rows as [|row [|row' rows']]; [done| |].
  - intros [= <-] _. by exists row.
  - intros H Hne.
    destruct (Nat.eqb_spec (length (row :: row' :: rows')) l); done.
Qed.

Lemma model_input_uniform self pairs pair0 :
  head pairs = Some pair0 ->
  (0 < row_count self pair0)%nat ->
  (forall pair, pair ∈ pairs ->
     over_alphabet pair.1 /\ over_alphabet pair.2 /\
     String.length pair.1
     = (2 * context_nt self + String.length pair.2)%nat /\
     String.length pair.2 = String.length pair0.2) ->
  _model_input_from_nt self pairs
  = inr (map (fun pair => rows_of (context_nt self) pair.1 pair.2) pairs).
Proof.
  intros Hhead Hpos Hall. destruct pairs as [|p0 rest]; [done|].
  injection Hhead as ->. unfold _model_input_from_nt.
  apply (res_map_ok _ (fun p => rows_of (context_nt self) p.1 p.2)).
  intros [t g] Hin. destruct (Hall _ Hin) as (Ht & Hg & Hlen & Heq).
  simpl in Ht, Hg, Hlen, Heq. cbv beta.
  rewrite (input_vec_of_ok self t g Ht Hg Hlen).
  change (np_assign (2 * context_nt self + String.length pair0.2)
            (rows_of (context_nt self) t g)
          = inr (rows_of (context_nt self) t g)).
  apply np_assign_same; [|exact Hpos].
  rewrite rows_of_length by done. rewrite Hlen. by rewrite Heq.
Qed.

Lemma model_input_layout self pairs pair0 X :
  head pairs = Some pair0 ->
  (forall pair, pair ∈ pairs ->
     over_alphabet pair.1 /\ over_alphabet pair.2 /\
     String.length pair.1
     = (2 * context_nt self + String.length pair.2)%nat) ->
  _model_input_from_nt self pairs = inr X ->
  (0 < row_count self pair0)%nat /\
  forall i pair, pairs !! i = Some pair ->
    (String.length pair.2 = String.length pair0.2 ->
     X !! i = Some (rows_of (context_nt self) pair.1 pair.2)) /\
    (String.length pair.2 <> String.length pair0.2 ->
     row_count self pair = 1%nat /\
     exists row,
       rows_of (context_nt self) pair.1 pair.2 = [row] /\
       X !! i = Some (replicate (row_count self pair0) row)).
Proof.
  intros Hhead Hall HX. destruct pairs as [|p0 rest]; [done|].
  injection Hhead as ->. unfold _model_input_from_nt in HX.
  apply res_map_inr in HX as [_ Hrows].
  assert (Hone : forall i t g, (pair0 :: rest) !! i = Some (t, g) ->
            exists m, X !! i = Some m /\
              np_assign (row_count self pair0)
                (rows_of (context_nt self) t g) = inr m /\
              length (rows_of (context_nt self) t g)
              = row_count self (t, g)).
  { intros i t g Hi. destruct (Hrows i _ Hi) as (m & Hm & HXi).
    destruct (Hall (t, g)) as (Ht & Hg & Hlen);
      [by eapply list_elem_of_lookup_2|].
    simpl in Ht, Hg, Hlen.
    rewrite (input_vec_of_ok self t g Ht Hg Hlen) in Hm.
    exists m. split; [done|]. split; [exact Hm|].
    rewrite rows_of_length by done. exact Hlen. }
  split.
  - destruct pair0 as [t0 g0].
    destruct (Hone 0%nat t0 g0 eq_refl) as (m & _ & Hm & Hlen).
    by destruct (np_assign_exact _ _ _ Hm Hlen).
  - intros i [t g] Hi. destruct (Hone i t g Hi) as (m & HXi & Hm & Hlen).
    unfold row_count in *. simpl in *. split.
    + intros Heq. rewrite Heq in Hlen.
      destruct (np_assign_exact _ _ _ Hm Hlen) as [-> _]. done.
    + intros Hne.
      destruct (np_assign_single _ _ _ Hm) as (row & Hrow & ->); [lia|].
      rewrite Hrow in Hlen. simpl in Hlen. split; [lia|].
      by exists row.
Qed.

(** C3 as stated says that the encoder produces, for every pair over the
    alphabet whose target has length [2*context_nt + len(guide)], a matrix
    of [context_nt + len(guide) + context_nt] rows.  With [context_nt = 0]
    the pair [("T", "T")] is such a pair and the loop body builds its single
    row; but in the batch [("ACG", "ACG"); ("T", "T")] the batch matrix has
    three rows per pair, sized from the first guide, and the assignment
    [x[i] = input_vec] repeats the row: the matrix the encoder returns for
    [("T", "T")] has three rows. *)
Lemma single_row_pair_is_repeated :
  over_alphabet "T" /\
  String.length "T" = (2 * context_nt ex_self0 + String.length "T")%nat /\
  input_vec_of ex_self0 ("T"%string, "T"%string)
  = inr [ [0; 0; 0; 1; 0; 0; 0; 1] ]%Q /\
  _model_input_from_nt ex_self0
    [("ACG"%string, "ACG"%string); ("T"%string, "T"%string)]
  = inr [ [ [1; 0; 0; 0; 1; 0; 0; 0]; [0; 1; 0; 0; 0; 1; 0; 0];
            [0; 0; 1; 0; 0; 0; 1; 0] ];
          [ [0; 0; 0; 1; 0; 0; 0; 1]; [0; 0; 0; 1; 0; 0; 0; 1];
            [0; 0; 0; 1; 0; 0; 0; 1] ] ]%Q.
Proof.
  split; [repeat constructor; vm_compute; eauto|].
  split; [reflexivity|]. split; vm_compute; reflexivity.
Qed.

(** C3 (amended).  For a non-empty batch of pairs over the recognized
    alphabet whose targets have length [2*context_nt + len(guide)]: the loop
    body builds for every pair, in positional order, [context_nt] rows for
    the first [context_nt] target bases (target encoding, then four zeros),
    then [len(guide)] rows pairing the next target bases with the guide
    bases (target encoding, then guide encoding), then [context_nt] rows for
    the remaining target bases (target encoding, then four zeros).  When all
    guides have the length of the first and the first pair has at least one
    position, [_model_input_from_nt] returns exactly these matrices, one per
    pair, in order.  Whenever the encoder returns, the first pair has at
    least one position, every pair whose guide has the length of the first
    guide gets this matrix, and any other pair has a single row, which is
    returned repeated to the row count of the first pair; when the first
    pair has no position the encoder raises [ValueError].  The encoding of a
    base with represented bases [real_bases] has four channels (A, C, G, T),
    weight [1/|real_bases|] on each represented base and 0 elsewhere; it
    sums to 1, and for A, C, G, T it is the standard one-hot vector. *)
Theorem encoder_layout self pairs pair0 :
  head pairs = Some pair0 ->
  (forall pair, pair ∈ pairs ->
     over_alphabet pair.1 /\ over_alphabet pair.2 /\
     String.length pair.1
     = (2 * context_nt self + String.length pair.2)%nat) ->
  let c := context_nt self in
  (forall target_with_context guide,
     (target_with_context, guide) ∈ pairs ->
     let T := list_ascii_of_string target_with_context in
     let G := list_ascii_of_string guide in
     let leading := map (fun b => onehot_vec b ++ zeros4) (take c T) in
     let paired :=
       zip_with (fun bt bg => onehot_vec bt ++ onehot_vec bg)
                (take (length G) (drop c T)) G in
     let trailing :=
       map (fun b => onehot_vec b ++ zeros4) (drop (c + length G) T) in
     input_vec_of self (target_with_context, guide)
     = inr (leading ++ paired ++ trailing) /\
     rows_of c target_with_context guide = leading ++ paired ++ trailing /\
     length leading = c /\ length paired = String.length guide /\
     length trailing = c) /\
  ((0 < row_count self pair0)%nat ->
   (forall pair, pair ∈ pairs ->
      String.length pair.2 = String.length pair0.2) ->
   _model_input_from_nt self pairs
   = inr (map (fun pair => rows_of c pair.1 pair.2) pairs)) /\
  (forall X,
     _model_input_from_nt self pairs = inr X ->
     (0 < row_count self pair0)%nat /\ length X = length pairs /\
     forall i pair, pairs !! i = Some pair ->
       (String.length pair.2 = String.length pair0.2 ->
        X !! i = Some (rows_of c pair.1 pair.2)) /\
       (String.length pair.2 <> String.length pair0.2 ->
        row_count self pair = 1%nat /\
        exists row,
          rows_of c pair.1 pair.2 = [row] /\
          X !! i = Some (replicate (row_count self pair0) row))) /\
  (row_count self pair0 = 0%nat ->
   _model_input_from_nt self pairs = inl ValueError) /\
  (forall b real_bases, dict_get FASTA_CODES b = Some real_bases ->
     onehot b = inr (onehot_vec b) /\
     length (onehot_vec b) = 4%nat /\
     (sumQ (onehot_vec b) == 1)%Q /\
     (forall ch i, dict_get onehot_idx ch = Some i ->
        onehot_vec b !! i
        = Some (if bool_decide (ch ∈ real_bases)
                then (1 / inject_Z (Z.of_nat (length real_bases)))%Q
                else 0%Q))) /\
  (forall b i, dict_get onehot_idx b = Some i ->
     onehot b = inr (<[i := 1%Q]> zeros4)).
Proof.
  intros Hhead Hall c.
  split; [|split; [|split; [|split; [|split]]]].
  - intros t g Hin T G leading paired trailing.
    destruct (Hall _ Hin) as (HT & HG & Hlen). simpl in HT, HG, Hlen.
    pose proof (input_vec_of_ok self _ _ HT HG Hlen) as Hrows.
    unfold rows_of in Hrows. fold c T G leading paired trailing in Hrows.
    assert (HlT : length T = (2 * c + length G)%nat)
      by (subst T G c; by rewrite <- !string_length_list).
    split; [done|]. split; [done|].
    split; [subst leading; rewrite length_map, length_take; lia|].
    split; [subst paired; rewrite length_zip_with, length_take, length_drop,
              string_length_list; fold G; lia|].
    subst trailing; rewrite length_map, length_drop; lia.
  - intros Hpos Hsame. apply (model_input_uniform self pairs pair0 Hhead Hpos).
    intros pair Hin. destruct (Hall _ Hin) as (? & ? & ?).
    by specialize (Hsame _ Hin).
  - intros X HX.
    destruct (model_input_layout self pairs pair0 X Hhead Hall HX)
      as [Hpos Hrows].
    split; [done|]. split; [by eapply model_input_length|]. done.
  - intros Hzero. destruct pairs as [|p0 rest]; [done|].
    injection Hhead as ->. destruct pair0 as [t0 g0].
    destruct (Hall (t0, g0) (list_elem_of_here _ _)) as (Ht & Hg & Hlen).
    simpl in Ht, Hg, Hlen. unfold row_count in Hzero. simpl in Hzero.
    unfold _model_input_from_nt, res_map.
    rewrite (input_vec_of_ok self t0 g0 Ht Hg Hlen). cbn [res_bind snd].
    pose proof (rows_of_length (context_nt self) t0 g0 Hlen) as Hl.
    rewrite Hlen, Hzero in Hl.
    destruct (rows_of (context_nt self) t0 g0); [|done].
    reflexivity.
  - intros b rb Hb. unfold onehot_vec.
    destruct (onehot_recognized b rb Hb) as (-> & ? & ? & ?). done.
  - intros b i Hi. apply dict_get_elem in Hi. unfold onehot_idx in Hi.
    repeat (apply elem_of_cons in Hi as [Hi|Hi];
            [injection Hi as -> ->; vm_compute; reflexivity|]).
    by apply elem_of_nil in Hi.
Qed.

Lemma encoder_layout_witness :
  _model_input_from_nt ex_self [ex_pair; ("GGTTTAA"%string, "TTT"%string)]
  = inr [ [ [0; 0; 0; 1; 0; 0; 0; 0]; [0; 0; 0; 1; 0; 0; 0; 0];
            [1; 0; 0; 0; 1; 0; 0; 0]; [0; 1; 0; 0; 0; 1; 0; 0];
            [0; 0; 1; 0; 0; 0; 1; 0];
            [0; 0; 1; 0; 0; 0; 0; 0]; [0; 0; 1; 0; 0; 0; 0; 0] ];
          [ [0; 0; 1; 0; 0; 0; 0; 0]; [0; 0; 1; 0; 0; 0; 0; 0];
            [0; 0; 0; 1; 0; 0; 0; 1]; [0; 0; 0; 1; 0; 0; 0; 1];
            [0; 0; 0; 1; 0; 0; 0; 1];
            [1; 0; 0; 0; 0; 0; 0; 0]; [1; 0; 0; 0; 0; 0; 0; 0] ] ]%Q.
Proof.
  assert (Hin : forall p,
            p ∈ [ex_pair; ("GGTTTAA"%string, "TTT"%string)] ->
            p = ex_pair \/ p = ("GGTTTAA"%string, "TTT"%string)).
  { intros p Hp. apply list_elem_of_In in Hp. simpl in Hp.
    destruct Hp as [<-|[<-|[]]]; [by left|by right]. }
  refine (eq_trans
    (proj1 (proj2 (encoder_layout ex_self
                     [ex_pair; ("GGTTTAA"%string, "TTT"%string)] ex_pair
                     eq_refl _)) _ _) _).
  - intros p Hp.
    destruct (Hin p Hp) as [->| ->];
      (split; [repeat constructor; vm_compute; eauto|]);
      (split; [repeat constructor; vm_compute; eauto|reflexivity]).
  - unfold row_count. simpl. lia.
  - intros p Hp. destruct (Hin p Hp) as [->| ->]; reflexivity.
  - vm_compute. reflexivity.
Defined.

(** C10 as stated says that a batch mixing guide lengths fails.  With
    [context_nt = 0], the batch [("AC", "AC"); ("G", "G")] mixes guide lengths
    2 and 1; the second pair encodes to a single row, which the numpy
    assignment broadcasts to the two rows of the batch matrix: the encoder
    returns, and so does the evaluation. *)
Lemma mixed_batch_is_broadcast :
  String.length ("AC"%string, "AC"%string).2
  <> String.length ("G"%string, "G"%string).2 /\
  _model_input_from_nt ex_self0
    [("AC"%string, "AC"%string); ("G"%string, "G"%string)]
  = inr [ [ [1; 0; 0; 0; 1; 0; 0; 0]; [0; 1; 0; 0; 0; 1; 0; 0] ];
          [ [0; 0; 1; 0; 0; 0; 1; 0]; [0; 0; 1; 0; 0; 0; 1; 0] ] ]%Q /\
  (compute_activity (ex_models (9 # 10) (-3)) ex_set_iter 5
     [("AC"%string, "AC"%string); ("G"%string, "G"%string)] ex_self0).1
  = inr [1%Q; 1%Q].
Proof.
  split; [simpl; lia|]. split; vm_compute; reflexivity.
Qed.

(** C10 (amended).  The encoder sizes every matrix of a non-empty batch from
    the first pair: when it returns, every pair has passed the length
    assertion, every matrix has [2*context_nt + len(first guide)] rows, and
    every pair has that number of rows or exactly one row.  A batch
    containing a pair whose row count [2*context_nt + len(guide)] is neither
    that of the first pair nor 1 is not encoded: the encoder raises, with
    [AssertionError] or [ValueError] when all characters are in the
    alphabet, and [_run_models_and_memoize] raises the same error without
    calling a model or touching the cache. *)
Theorem mixed_batch_fails models self start_pos pair0 rest :
  (forall X, _model_input_from_nt self (pair0 :: rest) = inr X ->
     Forall (fun m => length m = row_count self pair0) X /\
     Forall (fun p =>
               String.length p.1 = row_count self p /\
               (row_count self p = row_count self pair0 \/
                row_count self p = 1%nat))
            (pair0 :: rest)) /\
  (forall pair,
     pair ∈ pair0 :: rest ->
     row_count self pair <> row_count self pair0 ->
     row_count self pair <> 1%nat ->
     exists e,
       _model_input_from_nt self (pair0 :: rest) = inl e /\
       _run_models_and_memoize models start_pos (pair0 :: rest) self
       = (inl e, self) /\
       (Forall (fun p => over_alphabet p.1 /\ over_alphabet p.2)
               (pair0 :: rest) ->
        e = AssertionError \/ e = ValueError)).
Proof.
  split; [intros X; apply model_input_inr|].
  intros pair Hin Hne Hne1.
  assert (Hfail : exists e,
            (let* input_vec := input_vec_of self pair in
             np_assign (row_count self pair0) input_vec) = inl e).
  { destruct pair as [t g].
    destruct (input_vec_of self (t, g)) as [e|rows] eqn:Hv; simpl; [eauto|].
    apply input_vec_of_inr in Hv as (_ & Hrows & _).
    destruct (np_assign (row_count self pair0) rows) as [e|m] eqn:Hm; [eauto|].
    apply np_assign_inr in Hm as [_ [Hl|Hl]]; unfold row_count in *;
      simpl in *; lia. }
  destruct Hfail as [e0 He0].
  destruct (res_map_fails
              (fun p => let* input_vec := input_vec_of self p in
                        np_assign (row_count self pair0) input_vec)
              _ _ _ Hin He0) as [e He].
  assert (Henc : _model_input_from_nt self (pair0 :: rest) = inl e)
    by exact He.
  exists e. split; [done|]. split.
  - by rewrite run_models_eq, Henc.
  - intros Hall. apply res_map_inl in He as ([t g] & Hp & Hf).
    rewrite Forall_forall in Hall. destruct (Hall _ Hp) as [HT HG].
    simpl in HT, HG.
    destruct (Nat.eq_dec (String.length t)
                (2 * context_nt self + String.length g)) as [Hlen|Hlen].
    + rewrite (input_vec_of_ok self t g HT HG Hlen) in Hf. simpl in Hf.
      apply np_assign_inl in Hf. by right.
    + unfold input_vec_of in Hf.
      destruct (Nat.eqb_spec (String.length t)
                  (2 * context_nt self + String.length g)); [done|].
      simpl in Hf. injection Hf as <-. by left.
Qed.

Lemma mixed_batch_fails_witness :
  exists e,
    _model_input_from_nt ex_self
      [ex_pair; ("TTACGTGG"%string, "ACGT"%string)] = inl e /\
    _run_models_and_memoize (ex_models (9 # 10) (-3)) 5
      [ex_pair; ("TTACGTGG"%string, "ACGT"%string)] ex_self
    = (inl e, ex_self).
Proof.
  destruct (proj2 (mixed_batch_fails (ex_models (9 # 10) (-3)) ex_self 5
                     ex_pair [("TTACGTGG"%string, "ACGT"%string)])
              ("TTACGTGG"%string, "ACGT"%string))
    as (e & Henc & Hrun & _).
  - apply elem_of_cons. right. apply elem_of_cons. by left.
  - vm_compute. discriminate.
  - vm_compute. discriminate.
  - exists e. split; [exact Henc|exact Hrun].
Defined.

(** ** The cache-backed queries, without the monad *)

Lemma mem_at_ensured self start_pos other :
  mem_at (ensured self start_pos) other = mem_at self other.
Proof.
  unfold ensured, mem_at.
  destruct (_memoized_evaluations self !! start_pos) eqn:Hm; [done|].
  simpl. destruct (decide (start_pos = other)) as [->|Hne].
  - by rewrite lookup_insert_eq, Hm.
  - by rewrite lookup_insert_ne.
Qed.

Lemma ensured_idem self start_pos :
  is_Some (_memoized_evaluations self !! start_pos) ->
  ensured self start_pos = self.
Proof. intros [m Hm]. unfold ensured. by rewrite Hm. Qed.

Lemma ensured_fields self start_pos :
  regression_lower_bound (ensured self start_pos) = regression_lower_bound self
  /\ regression_shift (ensured self start_pos) = regression_shift self
  /\ context_nt (ensured self start_pos) = context_nt self
  /\ classification_threshold (ensured self start_pos)
     = classification_threshold self
  /\ regression_threshold (ensured self start_pos) = regression_threshold self
  /\ model_calls (ensured self start_pos) = model_calls self.
Proof.
  unfold ensured. by destruct (_memoized_evaluations self !! start_pos).
Qed.

(** The encoder and the model stages read [context_nt] and the thresholds
    only. *)
Lemma model_input_fields self1 self2 pairs :
  context_nt self1 = context_nt self2 ->
  _model_input_from_nt self1 pairs = _model_input_from_nt self2 pairs.
Proof.
  intros Hc. unfold _model_input_from_nt, input_vec_of. by rewrite Hc.
Qed.

Lemma evaluation_fields models self1 self2 pairs :
  regression_lower_bound self1 = regression_lower_bound self2 ->
  regression_shift self1 = regression_shift self2 ->
  context_nt self1 = context_nt self2 ->
  classification_threshold self1 = classification_threshold self2 ->
  regression_threshold self1 = regression_threshold self2 ->
  evaluation_outcome models self1 pairs = evaluation_outcome models self2 pairs
  /\ evaluation_calls models self1 pairs = evaluation_calls models self2 pairs.
Proof.
  intros Hl Hs Hc Hct Hrt.
  unfold evaluation_outcome, evaluation_calls.
  rewrite (model_input_fields self1 self2 pairs Hc).
  destruct (_model_input_from_nt self2 pairs) as [e|X]; simpl; [done|].
  unfold classification_flags, regression_values.
  rewrite !combine_model_results_spec, Hl, Hs, Hct, Hrt. done.
Qed.

(** One evaluation: its outcome and calls do not depend on the start
    position or on the cache; the start position only selects where the
    results are stored. *)
Lemma run_models_outcome models start_pos pairs self :
  _run_models_and_memoize models start_pos pairs self =
  let self' := log_calls self (evaluation_calls models self pairs) in
  match evaluation_outcome models self pairs with
  | inl e => (inl e, self')
  | inr updates => (inr tt, memoized_with self' start_pos updates)
  end.
Proof.
  rewrite run_models_eq. unfold evaluation_outcome, evaluation_calls.
  destruct (_model_input_from_nt self pairs) as [e|X]; simpl.
  - by destruct self.
  - by destruct (_combine_model_results _ _ _).
Qed.

Section QueryFacts.

Variable models : model_id -> list (list (list Q)) -> list Q.
Variable set_iter : list (string * string) -> list (string * string).

Lemma ensure_start_pos_eq start_pos self :
  ensure_start_pos start_pos self = (inr tt, ensured self start_pos).
Proof. reflexivity. Qed.

Lemma query_unfold {A : Type} (proj : Q * bool -> A) start_pos pairs self :
  (do _ <- ensure_start_pos start_pos ;
   do mem <- read (fun self => mem_at self start_pos) ;
   do _ <- _run_models_and_memoize models start_pos
             (unique_pairs_to_evaluate set_iter mem pairs) ;
   do mem <- read (fun self => mem_at self start_pos) ;
   lift (res_map (fun pair => let* r := mem_get mem pair in inr (proj r))
                 pairs)) self
  = query_result models set_iter proj start_pos pairs self.
Proof.
  unfold query_result.
  unfold bind at 1. rewrite ensure_start_pos_eq.
  unfold bind at 1. unfold read at 1. rewrite mem_at_ensured.
  unfold bind at 1. rewrite run_models_outcome.
  destruct (ensured_fields self start_pos) as (Hl & Hs & Hc & Hct & Hrt & _).
  destruct (evaluation_fields models (ensured self start_pos) self
              (unique_pairs_to_evaluate set_iter (mem_at self start_pos) pairs)
              Hl Hs Hc Hct Hrt) as [-> ->].
  simpl.
  destruct (evaluation_outcome models self _) as [e|updates]; [done|].
  reflexivity.
Qed.

Lemma compute_activity_eq start_pos pairs self :
  compute_activity models set_iter start_pos pairs self
  = query_result models set_iter fst start_pos pairs self.
Proof. apply (query_unfold fst). Qed.

Lemma determine_highly_active_eq start_pos pairs self :
  determine_highly_active models set_iter start_pos pairs self
  = query_result models set_iter snd start_pos pairs self.
Proof. apply (query_unfold snd). Qed.

End QueryFacts.

(** ** C7: cleanup and isolation between start positions *)

Lemma ensured_memo_ne self start_pos other :
  other <> start_pos ->
  _memoized_evaluations (ensured self start_pos) !! other
  = _memoized_evaluations self !! other.
Proof.
  intros Hne. unfold ensured.
  destruct (_memoized_evaluations self !! start_pos); [done|].
  simpl. by rewrite lookup_insert_ne.
Qed.

Lemma run_models_memo_ne models start_pos pairs self other :
  other <> start_pos ->
  _memoized_evaluations
    (_run_models_and_memoize models start_pos pairs self).2 !! other
  = _memoized_evaluations self !! other.
Proof.
  intros Hne. rewrite run_models_outcome. simpl.
  destruct (evaluation_outcome models self pairs) as [e|updates]; simpl.
  - by rewrite memoized_log_calls.
  - rewrite lookup_insert_ne by done. by rewrite memoized_log_calls.
Qed.

Lemma query_memo_ne {A : Type} models set_iter (proj : Q * bool -> A)
    start_pos pairs self other :
  other <> start_pos ->
  _memoized_evaluations
    (query_result models set_iter proj start_pos pairs self).2 !! other
  = _memoized_evaluations self !! other.
Proof.
  intros Hne. unfold query_result.
  destruct (evaluation_outcome models self _) as [e|updates]; simpl.
  - rewrite memoized_log_calls. by apply ensured_memo_ne.
  - rewrite lookup_insert_ne by done. rewrite memoized_log_calls.
    by apply ensured_memo_ne.
Qed.

(** C7.  [cleanup_memoized] never raises.  Afterwards the start position has
    no cached entry, every other start position has exactly the entries it
    had, and no model was called; if the start position was absent from the
    cache the predictor is unchanged, and if it had no entries the cached
    entries of all start positions are unchanged.  Evaluating pairs at a
    start position, through [_run_models_and_memoize], [compute_activity] or
    [determine_highly_active], whether the call returns or raises, leaves
    the entries of every other start position as they were. *)
Theorem cleanup_and_isolation models set_iter self start_pos :
  (exists self',
     cleanup_memoized start_pos self = (inr tt, self') /\
     _memoized_evaluations self' !! start_pos = None /\
     (forall pair, mem_at self' start_pos !! pair = None) /\
     (forall other, other <> start_pos ->
        _memoized_evaluations self' !! other
        = _memoized_evaluations self !! other) /\
     model_calls self' = model_calls self /\
     (_memoized_evaluations self !! start_pos = None -> self' = self) /\
     (mem_at self start_pos = ∅ ->
        forall other, mem_at self' other = mem_at self other)) /\
  (forall pairs other, other <> start_pos ->
     _memoized_evaluations
       (_run_models_and_memoize models start_pos pairs self).2 !! other
     = _memoized_evaluations self !! other /\
     _memoized_evaluations
       (compute_activity models set_iter start_pos pairs self).2 !! other
     = _memoized_evaluations self !! other /\
     _memoized_evaluations
       (determine_highly_active models set_iter start_pos pairs self).2
       !! other
     = _memoized_evaluations self !! other).
Proof.
  split.
  - unfold cleanup_memoized, modify.
    destruct (_memoized_evaluations self !! start_pos) as [mem|] eqn:Hm.
    + eexists. split; [reflexivity|]. simpl.
      split; [apply lookup_delete_eq|].
      split; [intros pair; unfold mem_at; simpl;
              by rewrite lookup_delete_eq|].
      split; [intros other Hne; by rewrite lookup_delete_ne|].
      split; [done|]. split; [done|].
      intros Hempty other. unfold mem_at in *. simpl.
      destruct (decide (start_pos = other)) as [<-|Hne].
      * rewrite lookup_delete_eq. simpl. by rewrite Hempty.
      * by rewrite lookup_delete_ne.
    + exists self. split; [done|]. split; [done|].
      split; [intros pair; unfold mem_at; by rewrite Hm|].
      repeat split; done.
  - intros pairs other Hne. split; [by apply run_models_memo_ne|].
    rewrite compute_activity_eq, determine_highly_active_eq.
    split; by apply query_memo_ne.
Qed.

Lemma cleanup_and_isolation_witness :
  _memoized_evaluations
    (compute_activity (ex_models (9 # 10) (-3)) ex_set_iter 1 [ex_pair]
       ex_cached).2 !! 5%Z
  = _memoized_evaluations ex_cached !! 5%Z /\
  (exists self', cleanup_memoized 7 ex_cached = (inr tt, self') /\
     self' = ex_cached) /\
  (exists self', cleanup_memoized 1 ex_cached = (inr tt, self') /\
     _memoized_evaluations self' !! 5%Z
     = _memoized_evaluations ex_cached !! 5%Z).
Proof.
  split; [|split].
  - apply (proj2 (cleanup_and_isolation (ex_models (9 # 10) (-3)) ex_set_iter
                    ex_cached 1) [ex_pair] 5%Z).
    discriminate.
  - destruct (proj1 (cleanup_and_isolation (ex_models (9 # 10) (-3))
                       ex_set_iter ex_cached 7))
      as (self' & Hrun & _ & _ & _ & _ & Hnoop & _).
    exists self'. split; [exact Hrun|]. apply Hnoop. vm_compute. reflexivity.
  - destruct (proj1 (cleanup_and_isolation (ex_models (9 # 10) (-3))
                       ex_set_iter ex_cached 1))
      as (self' & Hrun & _ & _ & Hother & _).
    exists self'. split; [exact Hrun|]. apply Hother. discriminate.
Defined.

(** ** C4: deduplication and idempotence of the cache *)

Lemma ex_set_iter_spec : set_iteration ex_set_iter.
Proof.
  intros pairs. split; [apply NoDup_remove_dups|].
  intros p. apply elem_of_remove_dups.
Defined.

Section CacheFacts.

Variable models : model_id -> list (list (list Q)) -> list Q.
Variable set_iter : list (string * string) -> list (string * string).
Hypothesis set_iter_spec : set_iteration set_iter.

Lemma List_filter_NoDup {A : Type} (f : A -> bool) (l : list A) :
  NoDup l -> NoDup (List.filter f l).
Proof.
  induction 1 as [|x l Hx Hnd IH]; simpl; [apply NoDup_nil_2|].
  destruct (f x); [|done]. apply NoDup_cons. split; [|done].
  intros Hin. apply Hx. apply list_elem_of_In in Hin.
  apply List.filter_In in Hin as [Hin _]. by apply list_elem_of_In.
Qed.

Lemma unique_pairs_spec mem pairs :
  NoDup (unique_pairs_to_evaluate set_iter mem pairs) /\
  forall p, p ∈ unique_pairs_to_evaluate set_iter mem pairs
            <-> p ∈ pairs /\ mem !! p = None.
Proof.
  destruct (set_iter_spec pairs) as [Hnd Hel].
  unfold unique_pairs_to_evaluate. split; [by apply List_filter_NoDup|].
  intros p. rewrite list_elem_of_In, List.filter_In, <- list_elem_of_In, Hel.
  rewrite negb_true_iff, bool_decide_eq_false, <- eq_None_not_Some. done.
Qed.

Lemma unique_pairs_all_cached mem pairs :
  (forall p, p ∈ pairs -> is_Some (mem !! p)) ->
  unique_pairs_to_evaluate set_iter mem pairs = [].
Proof.
  intros Hall.
  destruct (unique_pairs_to_evaluate set_iter mem pairs) as [|p U] eqn:HU;
    [done|].
  assert (Hp : p ∈ unique_pairs_to_evaluate set_iter mem pairs)
    by (rewrite HU; apply elem_of_cons; by left).
  apply unique_pairs_spec in Hp as [Hp Hnone].
  destruct (Hall p Hp) as [r Hr]. congruence.
Qed.

Lemma evaluation_of_nothing self :
  evaluation_outcome models self [] = inr [] /\
  evaluation_calls models self [] = [].
Proof. split; reflexivity. Qed.

Lemma memoized_with_nothing self start_pos :
  is_Some (_memoized_evaluations self !! start_pos) ->
  memoized_with self start_pos [] = self.
Proof.
  intros [mem Hm]. unfold memoized_with, mem_at. simpl. rewrite Hm. simpl.
  rewrite insert_id by done. apply set_memoized_id.
Qed.

(** A query all of whose pairs are cached reads the cache and does nothing
    else. *)
Lemma query_cached {A : Type} (proj : Q * bool -> A) start_pos pairs self :
  is_Some (_memoized_evaluations self !! start_pos) ->
  (forall p, p ∈ pairs -> is_Some (mem_at self start_pos !! p)) ->
  query_result models set_iter proj start_pos pairs self
  = (res_map (fun pair =>
                let* r := mem_get (mem_at self start_pos) pair in
                inr (proj r))
             pairs,
     self).
Proof.
  intros Hpos Hall. unfold query_result.
  rewrite (unique_pairs_all_cached _ _ Hall).
  destruct (evaluation_of_nothing self) as [-> ->].
  rewrite (ensured_idem _ _ Hpos). simpl.
  by rewrite (memoized_with_nothing _ _ Hpos).
Qed.

Lemma cached_results_inr {A : Type} (proj : Q * bool -> A)
    (mem : gmap (string * string) (Q * bool)) pairs :
  (forall p, p ∈ pairs -> is_Some (mem !! p)) ->
  exists rs,
    res_map (fun pair => let* r := mem_get mem pair in inr (proj r)) pairs
    = inr rs.
Proof.
  intros Hall.
  destruct (res_map _ pairs) as [e|rs] eqn:Hr; [|eauto].
  apply res_map_inl in Hr as (p & Hp & Hf).
  destruct (Hall p Hp) as [r Hr]. unfold mem_get in Hf. by rewrite Hr in Hf.
Qed.

Lemma cached_results_lookup {A : Type} (proj : Q * bool -> A)
    (mem : gmap (string * string) (Q * bool)) pairs rs :
  res_map (fun pair => let* r := mem_get mem pair in inr (proj r)) pairs
  = inr rs ->
  forall i p, pairs !! i = Some p ->
    exists r, mem !! p = Some r /\ rs !! i = Some (proj r).
Proof.
  intros Hr i p Hp. apply res_map_inr in Hr as [_ Hall].
  destruct (Hall i p Hp) as (a & Ha & Hi). unfold mem_get in Ha.
  destruct (mem !! p) as [r|]; [|done]. simpl in Ha. injection Ha as <-.
  eauto.
Qed.

(** The facts behind C4, for either projection of the cached results. *)
Lemma query_idempotent {A : Type} (proj : Q * bool -> A)
    start_pos pairs self rs self' :
  query_result models set_iter proj start_pos pairs self = (inr rs, self') ->
  (forall p r, mem_at self start_pos !! p = Some r ->
     mem_at self' start_pos !! p = Some r) /\
  (forall i p, pairs !! i = Some p ->
     exists r, mem_at self' start_pos !! p = Some r /\
       rs !! i = Some (proj r)) /\
  query_result models set_iter proj start_pos pairs self' = (inr rs, self') /\
  (forall (B : Type) (proj' : Q * bool -> B) pairs',
     (forall p, p ∈ pairs' -> p ∈ pairs) ->
     exists rs',
       query_result models set_iter proj' start_pos pairs' self'
       = (inr rs', self')).
Proof.
  unfold query_result at 1.
  set (U := unique_pairs_to_evaluate set_iter (mem_at self start_pos) pairs).
  destruct (evaluation_outcome models self U) as [e|updates] eqn:Hout;
    [done|].
  intros [= Hrs Hself'].
  assert (Hmem : mem_at self' start_pos
                 = foldl (fun mem pr => <[pr.1 := pr.2]> mem)
                         (mem_at self start_pos) updates).
  { rewrite <- Hself', mem_at_memoized_with, mem_at_log_calls.
    by rewrite mem_at_ensured. }
  assert (Hpos : is_Some (_memoized_evaluations self' !! start_pos)).
  { rewrite <- Hself'. unfold memoized_with. simpl.
    rewrite lookup_insert_eq. eauto. }
  rewrite Hself' in Hrs.
  pose proof (cached_results_lookup proj _ _ _ Hrs) as Hlook.
  assert (Hall : forall p, p ∈ pairs ->
            is_Some (mem_at self' start_pos !! p)).
  { intros p Hp. apply list_elem_of_lookup in Hp as [i Hi].
    destruct (Hlook i p Hi) as (r & Hr & _). eauto. }
  split; [|split; [done|split]].
  - intros p r Hp. rewrite Hmem. rewrite foldl_store_notin; [done|].
    intros Hin. apply list_elem_of_fmap in Hin as ([p' r'] & -> & Hin).
    simpl in *. unfold evaluation_outcome in Hout.
    destruct (_model_input_from_nt self U) as [|X]; [done|]. simpl in Hout.
    destruct (_combine_model_results _ _ _) as [|rs0]; [done|].
    simpl in Hout. injection Hout as <-.
    apply elem_of_zip_l in Hin. apply unique_pairs_spec in Hin as [_ Hn].
    congruence.
  - rewrite (query_cached proj _ _ _ Hpos Hall). by rewrite Hrs.
  - intros B proj' pairs' Hsub.
    assert (Hall' : forall p, p ∈ pairs' ->
              is_Some (mem_at self' start_pos !! p))
      by (intros p Hp; apply Hall; by apply Hsub).
    rewrite (query_cached proj' _ _ _ Hpos Hall').
    destruct (cached_results_inr proj' _ _ Hall') as [rs' ->]. eauto.
Qed.

Lemma query_model_calls {A : Type} (proj : Q * bool -> A)
    start_pos pairs self :
  model_calls (query_result models set_iter proj start_pos pairs self).2
  = model_calls self
    ++ evaluation_calls models self
         (unique_pairs_to_evaluate set_iter (mem_at self start_pos) pairs).
Proof.
  unfold query_result.
  destruct (evaluation_outcome models self _) as [e|updates]; simpl;
    rewrite model_calls_log_calls;
    by rewrite (proj2 (proj2 (proj2 (proj2 (proj2
                 (ensured_fields self start_pos)))))).
Qed.

End CacheFacts.

Lemma evaluation_calls_elem models self pairs c :
  c ∈ evaluation_calls models self pairs ->
  exists X, _model_input_from_nt self pairs = inr X /\
    (c = (classification_model, X) \/
     c = (regression_model,
          active_of X (classification_flags models self X))).
Proof.
  unfold evaluation_calls, calls_for.
  destruct (_model_input_from_nt self pairs) as [e|X];
    [by intros ?%elem_of_nil|].
  intros Hc. exists X. split; [done|].
  apply elem_of_app in Hc as [Hc|Hc].
  - destruct (length X =? 0)%nat; [by apply elem_of_nil in Hc|].
    apply list_elem_of_singleton in Hc. by left.
  - destruct (length (active_of X _) =? 0)%nat;
      [by apply elem_of_nil in Hc|].
    apply list_elem_of_singleton in Hc. by right.
Qed.

(** C4.  Let [U] be the list [determine_highly_active] and
    [compute_activity] hand to the evaluation: [U] has no duplicates and its
    elements are exactly the requested pairs that are not cached at the start
    position.  The model calls either query makes are those of one evaluation
    of [U]: each is the classification model on the encoding of [U] or the
    regression model on its active part.  When a query returns: entries
    cached before are kept as they were; every requested pair, duplicates
    included, is answered from the cached entry of that pair; the same query
    repeated on the resulting predictor returns the same list and leaves the
    predictor, its list of model calls included, unchanged; and so does
    either query on any list of pairs drawn from the first one. *)
Theorem cache_dedup_idempotent models set_iter self start_pos pairs :
  set_iteration set_iter ->
  let U := unique_pairs_to_evaluate set_iter (mem_at self start_pos) pairs in
  NoDup U /\
  (forall p, p ∈ U <-> p ∈ pairs /\ mem_at self start_pos !! p = None) /\
  model_calls (compute_activity models set_iter start_pos pairs self).2
  = model_calls self ++ evaluation_calls models self U /\
  model_calls (determine_highly_active models set_iter start_pos pairs self).2
  = model_calls self ++ evaluation_calls models self U /\
  (forall c, c ∈ evaluation_calls models self U ->
     exists X, _model_input_from_nt self U = inr X /\
       (c = (classification_model, X) \/
        c = (regression_model,
             active_of X (classification_flags models self X)))) /\
  (forall rs self',
     compute_activity models set_iter start_pos pairs self = (inr rs, self') ->
     (forall p r, mem_at self start_pos !! p = Some r ->
        mem_at self' start_pos !! p = Some r) /\
     (forall i p, pairs !! i = Some p ->
        exists r, mem_at self' start_pos !! p = Some r /\
          rs !! i = Some r.1) /\
     compute_activity models set_iter start_pos pairs self' = (inr rs, self') /\
     (forall pairs', (forall p, p ∈ pairs' -> p ∈ pairs) ->
        (exists rs', compute_activity models set_iter start_pos pairs' self'
                     = (inr rs', self')) /\
        (exists hs', determine_highly_active models set_iter start_pos pairs'
                       self' = (inr hs', self')))) /\
  (forall hs self',
     determine_highly_active models set_iter start_pos pairs self
     = (inr hs, self') ->
     (forall p r, mem_at self start_pos !! p = Some r ->
        mem_at self' start_pos !! p = Some r) /\
     (forall i p, pairs !! i = Some p ->
        exists r, mem_at self' start_pos !! p = Some r /\
          hs !! i = Some r.2) /\
     determine_highly_active models set_iter start_pos pairs self'
     = (inr hs, self') /\
     (forall pairs', (forall p, p ∈ pairs' -> p ∈ pairs) ->
        (exists rs', compute_activity models set_iter start_pos pairs' self'
                     = (inr rs', self')) /\
        (exists hs', determine_highly_active models set_iter start_pos pairs'
                       self' = (inr hs', self')))).
Proof.
  intros Hset U.
  destruct (unique_pairs_spec set_iter Hset (mem_at self start_pos) pairs)
    as [Hnd Hel].
  split; [done|]. split; [done|].
  split; [rewrite compute_activity_eq; apply query_model_calls|].
  split; [rewrite determine_highly_active_eq; apply query_model_calls|].
  split; [intros c; apply evaluation_calls_elem|].
  split.
  - intros rs self' Hq. rewrite compute_activity_eq in Hq.
    destruct (query_idempotent models set_iter Hset fst _ _ _ _ _ Hq)
      as (Hkeep & Hread & Hagain & Hsub).
    split; [done|]. split; [done|].
    split; [by rewrite compute_activity_eq|].
    intros pairs' Hp'. rewrite compute_activity_eq,
      determine_highly_active_eq.
    split; by apply Hsub.
  - intros hs self' Hq. rewrite determine_highly_active_eq in Hq.
    destruct (query_idempotent models set_iter Hset snd _ _ _ _ _ Hq)
      as (Hkeep & Hread & Hagain & Hsub).
    split; [done|]. split; [done|].
    split; [by rewrite determine_highly_active_eq|].
    intros pairs' Hp'. rewrite compute_activity_eq,
      determine_highly_active_eq.
    split; by apply Hsub.
Qed.

Lemma cache_dedup_idempotent_witness :
  map fst (model_calls ex_cached) = [classification_model; regression_model] /\
  compute_activity (ex_models (9 # 10) (-3)) ex_set_iter 5
    [ex_pair; ex_pair] ex_cached = (inr [1%Q; 1%Q], ex_cached).
Proof.
  split; [vm_compute; reflexivity|].
  assert (Hfirst : compute_activity (ex_models (9 # 10) (-3)) ex_set_iter 5
                     [ex_pair; ex_pair] ex_self = (inr [1%Q; 1%Q], ex_cached))
    by (vm_compute; reflexivity).
  apply (proj1 (proj2 (proj2
           (proj1 (proj2 (proj2 (proj2 (proj2 (proj2
              (cache_dedup_idempotent (ex_models (9 # 10) (-3)) ex_set_iter
                 ex_self 5 [ex_pair; ex_pair] ex_set_iter_spec))))))
              [1%Q; 1%Q] ex_cached Hfirst)))).
Defined.

(** ** C6: the start position does not influence the results *)


Lemma evaluation_outcome_keys models self pairs updates :
  one_output_per_input models ->
  evaluation_outcome models self pairs = inr updates ->
  updates.*1 = pairs.
Proof.
  intros Hc. unfold evaluation_outcome.
  destruct (_model_input_from_nt self pairs) as [|X] eqn:HX; [done|].
  simpl. rewrite combine_model_results_spec.
  rewrite (run_counts_match models self X Hc), Nat.compare_refl. simpl.
  intros [= <-]. apply fst_zip.
  rewrite merge_results_length.
  - rewrite classification_flags_length by done.
    by rewrite (model_input_length self pairs X HX).
  - by rewrite <- (run_counts_match models self X Hc).
Qed.


Lemma np_assign_long l (rows m : list (list Q)) :
  (2 <= length rows)%nat -> np_assign l rows = inr m -> m = rows.
Proof.
  destruct rows as [|r [|r' rows]]; [simpl; lia|simpl; lia|]. intros _.
  unfold np_assign.
  destruct (length (r :: r' :: rows) =? l)%nat; [by intros [= ->]|done].
Qed.

Lemma model_input_rows self pairs X :
  (0 < context_nt self)%nat ->
  _model_input_from_nt self pairs = inr X ->
  length X = length pairs /\
  forall i p, pairs !! i = Some p ->
    exists rows, input_vec_of self p = inr rows /\ X !! i = Some rows.
Proof.
  intros Hc HX. split; [by apply (model_input_length self)|].
  unfold _model_input_from_nt in HX. destruct pairs as [|p0 pairs0].
  { intros i p Hi. by destruct i. }
  apply res_map_inr in HX as [_ Hall]. intros i [t g] Hi.
  destruct (Hall i _ Hi) as (m & Hm & HXi).
  destruct (input_vec_of self (t, g)) as [|rows] eqn:Hv; [done|].
  simpl in Hm. exists rows. split; [done|].
  apply input_vec_of_inr in Hv as (_ & Hrows & _).
  apply np_assign_long in Hm; [by subst m|]. lia.
Qed.

Lemma merge_results_pointwise threshold (f : list (list Q) -> bool)
    (g : list (list Q) -> Q) (X : list (list (list Q))) :
  merge_results threshold (map f X) (map g (active_of X (map f X)))
  = map (fun x => if f x then (g x, py_ge (g x) threshold) else (0%Q, false)) X.
Proof.
  induction X as [|x X IH]; [done|].
  change (map f (x :: X)) with (f x :: map f X).
  rewrite active_of_cons. destruct (f x) eqn:Hf; simpl; rewrite Hf.
  - by rewrite IH.
  - by rewrite IH.
Qed.

Lemma evaluation_outcome_pointwise models score raw self pairs updates :
  pointwise models score raw ->
  (0 < context_nt self)%nat ->
  evaluation_outcome models self pairs = inr updates ->
  forall p r, (p, r) ∈ updates -> pair_result score raw self p = Some r.
Proof.
  intros Hpw Hc. unfold evaluation_outcome.
  destruct (_model_input_from_nt self pairs) as [|X] eqn:HX; [done|].
  simpl. unfold classification_flags, regression_values.
  assert (Hfl : (if (length X =? 0)%nat then []
                 else map (fun p => py_ge p (classification_threshold self))
                          (models classification_model X))
                = map (fun x => py_ge (score x) (classification_threshold self))
                      X).
  { rewrite (proj1 (Hpw X)), map_map. by destruct X. }
  rewrite Hfl.
  set (flags := map (fun x => py_ge (score x) (classification_threshold self))
                    X).
  assert (Hreg : (if (length (active_of X flags) =? 0)%nat then []
                  else map (fun p => py_max (regression_lower_bound self)
                                       (p + regression_shift self)%Q)
                           (models regression_model (active_of X flags)))
                 = map (fun x => py_max (regression_lower_bound self)
                                   (raw x + regression_shift self)%Q)
                       (active_of X flags)).
  { rewrite (proj2 (Hpw _)), map_map. by destruct (active_of X flags). }
  rewrite Hreg, combine_model_results_spec.
  rewrite length_map, active_of_length by (subst flags; by rewrite length_map).
  rewrite Nat.compare_refl. simpl. intros [= <-] p r Hin.
  subst flags. rewrite merge_results_pointwise in Hin.
  apply list_elem_of_lookup in Hin as [i Hi].
  rewrite lookup_zip_with in Hi.
  destruct (pairs !! i) as [p'|] eqn:Hp; [|done]. simpl in Hi.
  rewrite list_lookup_fmap in Hi.
  destruct (proj2 (model_input_rows self pairs X Hc HX) i p' Hp)
    as (rows & Hrows & HXi).
  rewrite HXi in Hi. simpl in Hi. injection Hi as <- <-.
  unfold pair_result, policy. by rewrite Hrows.
Qed.

Lemma foldl_store_cases (updates : list ((string * string) * (Q * bool)))
    (mem : gmap (string * string) (Q * bool)) pair r :
  foldl (fun mem pr => <[pr.1 := pr.2]> mem) mem updates !! pair = Some r ->
  (pair, r) ∈ updates \/ mem !! pair = Some r.
Proof.
  revert mem. induction updates as [|[k v] updates IH]; intros mem; simpl;
    [by right|].
  intros Hl. destruct (IH _ Hl) as [Hin|Hm].
  - left. apply elem_of_cons. by right.
  - destruct (decide (k = pair)) as [->|Hne].
    + rewrite lookup_insert_eq in Hm. injection Hm as ->. left.
      apply elem_of_cons. by left.
    + rewrite lookup_insert_ne in Hm by done. by right.
Qed.

Lemma pair_result_fields score raw self1 self2 pair :
  regression_lower_bound self1 = regression_lower_bound self2 ->
  regression_shift self1 = regression_shift self2 ->
  context_nt self1 = context_nt self2 ->
  classification_threshold self1 = classification_threshold self2 ->
  regression_threshold self1 = regression_threshold self2 ->
  pair_result score raw self1 pair = pair_result score raw self2 pair.
Proof.
  intros Hl Hs Hc Hct Hrt. unfold pair_result, policy, input_vec_of.
  by rewrite Hl, Hs, Hc, Hct, Hrt.
Qed.

Lemma empty_cache_consistent score raw self :
  _memoized_evaluations self = ∅ -> cache_consistent score raw self.
Proof.
  intros Hempty pos p r. unfold mem_at. rewrite Hempty, lookup_empty. simpl.
  by rewrite lookup_empty.
Qed.

(** Under pointwise models, a query on a predictor with a consistent cache
    answers every pair with the result of that pair and keeps the cache
    consistent. *)
Lemma query_pointwise {A : Type} models set_iter score raw
    (proj : Q * bool -> A) start_pos pairs self rs self' :
  pointwise models score raw ->
  (0 < context_nt self)%nat ->
  cache_consistent score raw self ->
  query_result models set_iter proj start_pos pairs self = (inr rs, self') ->
  cache_consistent score raw self' /\
  length rs = length pairs /\
  forall i p, pairs !! i = Some p ->
    exists r, pair_result score raw self p = Some r /\
      rs !! i = Some (proj r).
Proof.
  intros Hpw Hc Hcons. unfold query_result.
  set (U := unique_pairs_to_evaluate set_iter (mem_at self start_pos) pairs).
  destruct (evaluation_outcome models self U) as [e|updates] eqn:Hout;
    [done|].
  intros [= Hrs Hself'].
  pose proof (evaluation_outcome_pointwise _ _ _ _ _ _ Hpw Hc Hout) as Hups.
  assert (Hres : forall p, pair_result score raw self' p
                           = pair_result score raw self p).
  { intros p. rewrite <- Hself'. apply pair_result_fields;
      unfold memoized_with; simpl; rewrite log_calls_eq; simpl;
      apply ensured_fields. }
  assert (Hcons' : forall pos p r, mem_at self' pos !! p = Some r ->
            pair_result score raw self p = Some r).
  { intros pos p r. rewrite <- Hself'.
    destruct (decide (start_pos = pos)) as [<-|Hne].
    - rewrite mem_at_memoized_with, mem_at_log_calls, mem_at_ensured.
      intros [Hin|Hm]%foldl_store_cases; [by apply Hups|].
      by apply (Hcons start_pos).
    - unfold mem_at. rewrite mem_at_memoized_with_ne by done.
      rewrite memoized_log_calls.
      rewrite ensured_memo_ne by done. apply (Hcons pos). }
  rewrite Hself' in Hrs.
  split; [|split].
  - intros pos p r Hm. rewrite Hres. by apply (Hcons' pos).
  - by apply res_map_inr in Hrs as [? _].
  - intros i p Hp.
    destruct (cached_results_lookup proj _ _ _ Hrs i p Hp) as (r & Hr & Hi).
    exists r. split; [by apply (Hcons' start_pos)|done].
Qed.






(** ** The end-to-end scenarios of the specification *)

(** [context_nt = 2], guide ACG, target TT+ACG+GG, classification threshold
    0.5 and regression threshold 0.8.  With classification score 0.9 and raw
    regression output -3 the result is (1, True). *)
Example scenario_active :
  (compute_activity (ex_models (9 # 10) (-3)) ex_set_iter 0 [ex_pair]
     ex_self).1 = inr [1%Q] /\
  (determine_highly_active (ex_models (9 # 10) (-3)) ex_set_iter 0 [ex_pair]
     ex_self).1 = inr [true].
Proof. split; vm_compute; reflexivity. Qed.

(** With classification score 0.2 the result is (0, False) and the only
    model called is the classification model. *)
Example scenario_inactive :
  (compute_activity (ex_models (2 # 10) (-3)) ex_set_iter 0 [ex_pair]
     ex_self).1 = inr [0%Q] /\
  (determine_highly_active (ex_models (2 # 10) (-3)) ex_set_iter 0 [ex_pair]
     ex_self).1 = inr [false] /\
  model_calls
    (compute_activity (ex_models (2 # 10) (-3)) ex_set_iter 0 [ex_pair]
       ex_self).2 = [(classification_model, ex_encoded)].
Proof. repeat split; vm_compute; reflexivity. Qed.

(** An empty request touches neither model. *)
Example scenario_empty :
  compute_activity (ex_models (9 # 10) (-3)) ex_set_iter 0 [] ex_self
  = (inr [], set_memoized ex_self {[ 0%Z := ∅ ]}).
Proof. vm_compute. reflexivity. Qed.

(** * Further properties of the code *)

(** ** The encoding loses no information *)

Lemma onehot_inj b1 b2 :
  recognized b1 -> recognized b2 -> onehot b1 = onehot b2 -> b1 = b2.
Proof.
  intros [rb1 Hrb1] [rb2 Hrb2] H1.
  apply dict_get_elem in Hrb1, Hrb2. unfold FASTA_CODES in Hrb1, Hrb2.
  repeat (apply elem_of_cons in Hrb1 as [Hrb1|Hrb1];
          [injection Hrb1 as -> ->;
           repeat (apply elem_of_cons in Hrb2 as [Hrb2|Hrb2];
                   [injection Hrb2 as -> ->;
                    first [reflexivity | vm_compute in H1; discriminate]|]);
           by apply elem_of_nil in Hrb2
          |]).
  by apply elem_of_nil in Hrb1.
Qed.

Lemma onehot_vec_inj b1 b2 :
  recognized b1 -> recognized b2 -> onehot_vec b1 = onehot_vec b2 -> b1 = b2.
Proof.
  intros H1 H2 Hv. apply onehot_inj; [done|done|].
  by rewrite (onehot_vec_eq _ H1), (onehot_vec_eq _ H2), Hv.
Qed.

Lemma onehot_vec_length b : recognized b -> length (onehot_vec b) = 4%nat.
Proof.
  intros [rb Hrb]. unfold onehot_vec.
  destruct (onehot_recognized b rb Hrb) as (-> & ? & _). done.
Qed.

(** X1.  Two recognized bases with the same one-hot vector are the same
    base: the fifteen codes of [FASTA_CODES] have pairwise different
    vectors, so a base can be read back from its encoding. *)
Theorem onehot_injective b1 b2 v :
  onehot b1 = inr v -> onehot b2 = inr v -> b1 = b2.
Proof.
  intros H1 H2. apply onehot_inj.
  - by eapply onehot_inr.
  - by eapply onehot_inr.
  - by rewrite H1, H2.
Qed.

Lemma onehot_injective_witness :
  onehot "N"%char = inr [1 # 4; 1 # 4; 1 # 4; 1 # 4]%Q /\ "N"%char = "N"%char.
Proof.
  split; [reflexivity|].
  apply (onehot_injective "N" "N" [1 # 4; 1 # 4; 1 # 4; 1 # 4]%Q);
    reflexivity.
Defined.

Lemma map_inj_on {A B : Type} (P : A -> Prop) (F : A -> B) (l1 l2 : list A) :
  (forall x y, P x -> P y -> F x = F y -> x = y) ->
  Forall P l1 -> Forall P l2 -> map F l1 = map F l2 -> l1 = l2.
Proof.
  intros Hinj H1. revert l2. induction H1 as [|x l1 Hx H1 IH];
    intros [|y l2] H2 Heq; simpl in Heq; try done.
  apply Forall_cons in H2 as [Hy H2]. injection Heq as Hxy Heq.
  f_equal; [by apply Hinj|by apply IH].
Qed.

Lemma zip_with_inj_on {A B : Type} (P : A -> Prop) (H : A -> A -> B)
    (l1 k1 l2 k2 : list A) :
  (forall x y x' y', P x -> P y -> P x' -> P y' ->
     H x y = H x' y' -> x = x' /\ y = y') ->
  length l1 = length k1 -> length l2 = length k2 ->
  Forall P l1 -> Forall P k1 -> Forall P l2 -> Forall P k2 ->
  zip_with H l1 k1 = zip_with H l2 k2 -> l1 = l2 /\ k1 = k2.
Proof.
  intros Hinj. revert k1 l2 k2.
  induction l1 as [|x l1 IH]; intros [|y k1] [|x' l2] [|y' k2];
    simpl; try done.
  intros [= Hl1] [= Hl2] [Hx Hl]%Forall_cons [Hy Hk]%Forall_cons
    [Hx' Hl']%Forall_cons [Hy' Hk']%Forall_cons [= Hh Hrest].
  destruct (Hinj _ _ _ _ Hx Hy Hx' Hy' Hh) as [-> ->].
  destruct (IH k1 l2 k2 Hl1 Hl2 Hl Hk Hl' Hk' Hrest) as [-> ->]. done.
Qed.

Lemma rows_of_inj c t1 g1 t2 g2 :
  over_alphabet t1 -> over_alphabet g1 ->
  over_alphabet t2 -> over_alphabet g2 ->
  String.length t1 = (2 * c + String.length g1)%nat ->
  String.length t2 = (2 * c + String.length g2)%nat ->
  rows_of c t1 g1 = rows_of c t2 g2 ->
  t1 = t2 /\ g1 = g2.
Proof.
  intros HT1 HG1 HT2 HG2 Hl1 Hl2 Hrows.
  pose proof (rows_of_length c t1 g1 Hl1) as Hn1.
  pose proof (rows_of_length c t2 g2 Hl2) as Hn2.
  rewrite Hrows in Hn1. rewrite Hn1 in Hn2.
  unfold rows_of in Hrows. unfold over_alphabet in *.
  rewrite !string_length_list in *.
  set (T1 := list_ascii_of_string t1) in *.
  set (G1 := list_ascii_of_string g1) in *.
  set (T2 := list_ascii_of_string t2) in *.
  set (G2 := list_ascii_of_string g2) in *.
  assert (HG : length G1 = length G2) by lia.
  apply app_inj_1 in Hrows as [Hlead Hrows];
    [|rewrite !length_map, !length_take; lia].
  apply app_inj_1 in Hrows as [Hpair Htrail];
    [|rewrite !length_zip_with, !length_take, !length_drop; lia].
  apply (map_inj_on recognized) in Hlead;
    [|intros x y Hx Hy Hxy; apply app_inv_tail in Hxy;
      by apply onehot_vec_inj
     |by apply Forall_take|by apply Forall_take].
  apply (map_inj_on recognized) in Htrail;
    [|intros x y Hx Hy Hxy; apply app_inv_tail in Hxy;
      by apply onehot_vec_inj
     |by apply Forall_drop|by apply Forall_drop].
  apply (zip_with_inj_on recognized) in Hpair as [Hmid HGG];
    [|intros x y x' y' Hx Hy Hx' Hy' Hxy;
      apply app_inj_1 in Hxy as [? ?];
      [split; by apply onehot_vec_inj
      |by rewrite !onehot_vec_length]
     |rewrite length_take, length_drop; lia
     |rewrite length_take, length_drop; lia
     |by apply Forall_take, Forall_drop|done
     |by apply Forall_take, Forall_drop|done].
  assert (HTT : T1 = T2).
  { rewrite <- (take_drop c T1), <- (take_drop c T2), Hlead. f_equal.
    rewrite <- (take_drop (length G1) (drop c T1)).
    rewrite <- (take_drop (length G2) (drop c T2)).
    rewrite !drop_drop, Hmid, Htrail. done. }
  split.
  - rewrite <- (string_of_list_ascii_of_string t1),
      <- (string_of_list_ascii_of_string t2). fold T1 T2. by rewrite HTT.
  - rewrite <- (string_of_list_ascii_of_string g1),
      <- (string_of_list_ascii_of_string g2). fold G1 G2. by rewrite HGG.
Qed.

(** X2.  For a fixed [context_nt], two pairs with the same per-pair encoding
    are the same pair: target and guide can be read back from the rows. *)
Theorem encoding_injective self pair1 pair2 rows :
  input_vec_of self pair1 = inr rows ->
  input_vec_of self pair2 = inr rows ->
  pair1 = pair2.
Proof.
  destruct pair1 as [t1 g1], pair2 as [t2 g2]. intros H1 H2.
  destruct (input_vec_of_inr _ _ _ _ H1) as (Hl1 & _ & HT1 & HG1).
  destruct (input_vec_of_inr _ _ _ _ H2) as (Hl2 & _ & HT2 & HG2).
  rewrite (input_vec_of_ok self t1 g1 HT1 HG1 Hl1) in H1.
  rewrite (input_vec_of_ok self t2 g2 HT2 HG2 Hl2) in H2.
  injection H1 as H1. injection H2 as H2.
  destruct (rows_of_inj (context_nt self) t1 g1 t2 g2) as [-> ->];
    try done. by rewrite H1, H2.
Qed.

Lemma encoding_injective_witness :
  exists rows, input_vec_of ex_self ex_pair = inr rows /\ ex_pair = ex_pair.
Proof.
  eexists. split; [vm_compute; reflexivity|].
  eapply (encoding_injective ex_self ex_pair ex_pair);
    vm_compute; reflexivity.
Defined.

(** ** The shape of an encoded batch *)

Lemma onehot_vec_range b :
  recognized b ->
  Forall (fun q => (0 <= q)%Q /\ (q <= 1)%Q) (onehot_vec b) /\
  (sumQ (onehot_vec b) == 1)%Q.
Proof.
  intros [rb Hrb]. unfold onehot_vec.
  pose proof (onehot_recognized b rb Hrb) as (-> & _ & Hsum & _).
  split; [|done]. clear Hsum.
  assert (Hb : forallb (fun q => Qle_bool 0 q && Qle_bool q 1)
                       (base_weights rb) = true).
  { apply dict_get_elem in Hrb. unfold FASTA_CODES in Hrb.
    repeat (apply elem_of_cons in Hrb as [Hrb|Hrb];
            [injection Hrb as -> ->; vm_compute; reflexivity|]).
    by apply elem_of_nil in Hrb. }
  apply Forall_forall. intros q Hq. rewrite forallb_forall in Hb.
  apply list_elem_of_In, Hb, andb_true_iff in Hq as [H0 H1].
  by apply Qle_bool_iff in H0, H1.
Qed.

Lemma np_assign_elem l rows m row :
  np_assign l rows = inr m -> row ∈ m -> row ∈ rows.
Proof.
  destruct rows as [|r [|r' rows]]; unfold np_assign; [done| |].
  - intros [= <-] Hin. apply elem_of_replicate in Hin as [-> _].
    apply elem_of_cons. by left.
  - destruct (length (r :: r' :: rows) =? l)%nat; [|done].
    by intros [= <-].
Qed.

Lemma elem_of_drop_1 {A : Type} (x : A) n (l : list A) :
  x ∈ drop n l -> x ∈ l.
Proof. apply subseteq_drop. Qed.

Lemma rows_of_elem c t g row :
  over_alphabet t -> over_alphabet g ->
  row ∈ rows_of c t g ->
  exists b, recognized b /\
    (row = onehot_vec b ++ zeros4 \/
     exists b', recognized b' /\ row = onehot_vec b ++ onehot_vec b').
Proof.
  unfold over_alphabet, rows_of. intros HT HG Hin.
  rewrite Forall_forall in HT, HG.
  apply elem_of_app in Hin as [Hin|Hin];
    [|apply elem_of_app in Hin as [Hin|Hin]].
  - apply list_elem_of_fmap in Hin as (b & -> & Hb).
    apply elem_of_take in Hb as (i & Hb & _).
    apply list_elem_of_lookup_2 in Hb. exists b. split; [by apply HT|by left].
  - apply elem_of_lookup_zip_with in Hin as (i & bt & bg & -> & Hbt & Hbg).
    apply lookup_take_Some in Hbt as [Hbt _].
    apply list_elem_of_lookup_2 in Hbt, Hbg.
    apply elem_of_drop_1 in Hbt.
    exists bt. split; [by apply HT|]. right. exists bg. split; [by apply HG|done].
  - apply list_elem_of_fmap in Hin as (b & -> & Hb).
    apply elem_of_drop_1 in Hb. exists b. split; [by apply HT|by left].
Qed.

Lemma zeros4_range : Forall (fun q => (0 <= q)%Q /\ (q <= 1)%Q) zeros4.
Proof.
  apply Forall_forall. intros q Hq. unfold zeros4 in Hq.
  repeat (apply elem_of_cons in Hq as [->|Hq];
          [split; vm_compute; discriminate|]).
  by apply elem_of_nil in Hq.
Qed.

(** X3.  When the encoder returns, it returns one matrix per pair; every
    matrix has the row count of the first pair, every row has 8 entries, all
    between 0 and 1; the first four entries of a row (the target half) sum
    to 1, and the last four (the guide half) are all zero or sum to 1. *)
Theorem encoded_batch_shape self pairs X :
  _model_input_from_nt self pairs = inr X ->
  length X = length pairs /\
  forall pair0 m,
    head pairs = Some pair0 -> m ∈ X ->
    length m = row_count self pair0 /\
    forall row, row ∈ m ->
      length row = 8%nat /\
      Forall (fun q => (0 <= q)%Q /\ (q <= 1)%Q) row /\
      (sumQ (take 4 row) == 1)%Q /\
      (drop 4 row = zeros4 \/ (sumQ (drop 4 row) == 1)%Q).
Proof.
  intros HX. split; [by apply (model_input_length self)|].
  intros pair0 m Hhead Hm. destruct pairs as [|p0 rest]; [done|].
  injection Hhead as ->.
  destruct (model_input_inr self pair0 rest X HX) as [Hlen _].
  rewrite Forall_forall in Hlen. split; [by apply Hlen|].
  intros row Hrow. unfold _model_input_from_nt in HX.
  apply res_map_inr in HX as [HlenX Hall].
  apply list_elem_of_lookup in Hm as [i Hi].
  destruct (lookup_lt_is_Some_2 (pair0 :: rest) i) as [[t g] Hp];
    [rewrite <- HlenX; by apply lookup_lt_Some in Hi|].
  destruct (Hall i _ Hp) as (m' & Hm' & Hi'). rewrite Hi in Hi'.
  injection Hi' as <-.
  destruct (input_vec_of self (t, g)) as [|rows] eqn:Hv; [done|].
  simpl in Hm'. apply (np_assign_elem _ _ _ row Hm') in Hrow.
  destruct (input_vec_of_inr _ _ _ _ Hv) as (Hl & _ & HT & HG).
  rewrite (input_vec_of_ok self t g HT HG Hl) in Hv. injection Hv as <-.
  apply rows_of_elem in Hrow as (b & Hb & Hrow); [|done|done].
  destruct (onehot_vec_range b Hb) as [Hrange Hsum].
  pose proof (onehot_vec_length b Hb) as Hl4.
  destruct Hrow as [->|(b' & Hb' & ->)].
  - split; [rewrite length_app, Hl4; reflexivity|].
    split; [apply Forall_app; split; [done|apply zeros4_range]|].
    rewrite take_app_length', drop_app_length' by done.
    split; [done|by left].
  - destruct (onehot_vec_range b' Hb') as [Hrange' Hsum'].
    split; [rewrite length_app, Hl4, (onehot_vec_length b' Hb');
            reflexivity|].
    split; [by apply Forall_app|].
    rewrite take_app_length', drop_app_length' by done.
    split; [done|by right].
Qed.

Lemma encoded_batch_shape_witness :
  length ex_encoded = 1%nat /\
  forall m, m ∈ ex_encoded -> length m = 7%nat.
Proof.
  assert (HX : _model_input_from_nt ex_self [ex_pair] = inr ex_encoded)
    by (vm_compute; reflexivity).
  destruct (encoded_batch_shape ex_self [ex_pair] ex_encoded HX)
    as [Hlen Hshape].
  split; [exact Hlen|].
  intros m Hm. exact (proj1 (Hshape ex_pair m eq_refl Hm)).
Defined.

(** ** The results of the queries are well formed *)

Lemma merge_results_elem threshold flags reg r :
  r ∈ merge_results threshold flags reg ->
  r = (0%Q, false) \/ exists a, a ∈ reg /\ r = (a, py_ge a threshold).
Proof.
  revert reg. induction flags as [|b flags IH]; intros reg; simpl;
    [by intros ?%elem_of_nil|].
  destruct b.
  - destruct reg as [|a reg]; [by intros ?%elem_of_nil|].
    intros [->|Hin]%elem_of_cons.
    + right. exists a. split; [apply elem_of_cons; by left|done].
    + destruct (IH _ Hin) as [->|(a' & Ha' & ->)]; [by left|].
      right. exists a'. split; [apply elem_of_cons; by right|done].
  - intros [->|Hin]%elem_of_cons; [by left|]. by apply IH.
Qed.

Lemma evaluation_outcome_ok models self pairs updates :
  (0 <= regression_lower_bound self)%Q ->
  evaluation_outcome models self pairs = inr updates ->
  forall p r, (p, r) ∈ updates -> entry_ok self r.
Proof.
  intros Hlb. unfold evaluation_outcome.
  destruct (_model_input_from_nt self pairs) as [|X]; [done|]. simpl.
  rewrite combine_model_results_spec.
  destruct (Nat.compare _ _); [|done..]. simpl. intros [= <-] p r Hin.
  apply elem_of_zip_r in Hin.
  apply merge_results_elem in Hin as [->|(a & Ha & ->)].
  - split; [done|]. simpl. discriminate.
  - split; simpl; [|apply py_ge_true].
    unfold regression_values in Ha.
    destruct (length (active_of X _) =? 0)%nat;
      [by apply elem_of_nil in Ha|].
    apply list_elem_of_fmap in Ha as (x & -> & _).
    destruct (py_max_spec (regression_lower_bound self)
                (x + regression_shift self)) as (Hge & _).
    by eapply Qle_trans.
Qed.

Lemma query_result_fields {A : Type} models set_iter (proj : Q * bool -> A)
    start_pos pairs self :
  let self' := (query_result models set_iter proj start_pos pairs self).2 in
  regression_lower_bound self' = regression_lower_bound self /\
  regression_shift self' = regression_shift self /\
  context_nt self' = context_nt self /\
  classification_threshold self' = classification_threshold self /\
  regression_threshold self' = regression_threshold self.
Proof.
  unfold query_result.
  destruct (evaluation_outcome models self _) as [e|updates]; simpl;
    rewrite log_calls_eq; simpl;
    destruct (ensured_fields self start_pos) as (? & ? & ? & ? & ? & _);
    done.
Qed.

Lemma query_result_cache_ok {A : Type} models set_iter (proj : Q * bool -> A)
    start_pos pairs self :
  (0 <= regression_lower_bound self)%Q ->
  cache_ok self ->
  cache_ok (query_result models set_iter proj start_pos pairs self).2.
Proof.
  intros Hlb Hok pos p r.
  destruct (query_result_fields models set_iter proj start_pos pairs self)
    as (_ & _ & _ & _ & Hrt).
  unfold entry_ok. rewrite Hrt. clear Hrt. fold (entry_ok self r).
  unfold query_result.
  destruct (evaluation_outcome models self _) as [e|updates] eqn:Hout; simpl.
  - rewrite mem_at_log_calls, mem_at_ensured. apply Hok.
  - destruct (decide (start_pos = pos)) as [<-|Hne].
    + rewrite mem_at_memoized_with, mem_at_log_calls, mem_at_ensured.
      intros [Hin|Hm]%foldl_store_cases.
      * by eapply evaluation_outcome_ok.
      * by eapply Hok.
    + unfold mem_at. rewrite mem_at_memoized_with_ne by done.
      rewrite memoized_log_calls, ensured_memo_ne by done. apply Hok.
Qed.

(** X4.  On a predictor whose lower bound is not negative and whose cached
    results are well formed (activity at least 0; highly active only with an
    activity at or above the regression threshold), both queries, whether
    they return or raise, leave every cached result well formed; every
    activity [compute_activity] returns is at least 0, and every pair that
    [determine_highly_active] answers with [True] is cached with an activity
    at or above the regression threshold. *)
Theorem results_well_formed models set_iter self start_pos pairs :
  (0 <= regression_lower_bound self)%Q ->
  cache_ok self ->
  let c := compute_activity models set_iter start_pos pairs self in
  let d := determine_highly_active models set_iter start_pos pairs self in
  cache_ok c.2 /\ cache_ok d.2 /\
  (forall rs, c.1 = inr rs -> Forall (fun a => (0 <= a)%Q) rs) /\
  (forall hs, d.1 = inr hs ->
     forall i p, pairs !! i = Some p -> hs !! i = Some true ->
       exists a, mem_at d.2 start_pos !! p = Some (a, true) /\
         (regression_threshold self <= a)%Q /\ (0 <= a)%Q).
Proof.
  intros Hlb Hok c d. subst c d.
  rewrite compute_activity_eq, determine_highly_active_eq.
  pose proof (query_result_cache_ok models set_iter fst start_pos pairs self
                Hlb Hok) as Hc.
  pose proof (query_result_cache_ok models set_iter snd start_pos pairs self
                Hlb Hok) as Hd.
  split; [done|]. split; [done|]. split.
  - intros rs Hrs. apply Forall_lookup. intros i a Hi.
    destruct (query_result models set_iter fst start_pos pairs self)
      as [r self'] eqn:Hq. simpl in *. subst r.
    assert (Hres : exists mem,
              res_map (fun pair => let* r := mem_get mem pair in inr r.1)
                      pairs = inr rs /\ mem = mem_at self' start_pos).
    { unfold query_result in Hq.
      destruct (evaluation_outcome models self _); [done|].
      injection Hq as Hq <-. eauto. }
    destruct Hres as (mem & Hres & ->).
    destruct (lookup_lt_is_Some_2 pairs i) as [p Hp].
    { apply res_map_inr in Hres as [<- _]. by apply lookup_lt_Some in Hi. }
    destruct (cached_results_lookup fst _ _ _ Hres i p Hp) as (r & Hr & Hi').
    rewrite Hi in Hi'. injection Hi' as ->.
    by destruct (Hc _ _ _ Hr).
  - intros hs Hhs i p Hp Hi.
    destruct (query_result_fields models set_iter snd start_pos pairs self)
      as (_ & _ & _ & _ & Hrt).
    destruct (query_result models set_iter snd start_pos pairs self)
      as [r self'] eqn:Hq. simpl in *. subst r.
    assert (Hres : res_map (fun pair =>
                              let* r := mem_get (mem_at self' start_pos) pair
                              in inr r.2) pairs = inr hs).
    { unfold query_result in Hq.
      destruct (evaluation_outcome models self _); [done|].
      by injection Hq as Hq <-. }
    destruct (cached_results_lookup snd _ _ _ Hres i p Hp)
      as ([a h] & Hr & Hi').
    rewrite Hi in Hi'. injection Hi' as <-. exists a. split; [done|].
    destruct (Hd _ _ _ Hr) as [H0 Hthr]. simpl in *.
    rewrite <- Hrt. split; [by apply Hthr|done].
Qed.

Lemma empty_cache_ok self : _memoized_evaluations self = ∅ -> cache_ok self.
Proof.
  intros Hempty pos p r. unfold mem_at. rewrite Hempty, lookup_empty. simpl.
  by rewrite lookup_empty.
Qed.

Lemma results_well_formed_witness :
  cache_ok ex_cached /\
  Forall (fun a => (0 <= a)%Q) [1%Q; 1%Q].
Proof.
  destruct (results_well_formed (ex_models (9 # 10) (-3)) ex_set_iter ex_self
              5 [ex_pair; ex_pair])
    as (Hc & _ & Hrs & _).
  - vm_compute. discriminate.
  - apply empty_cache_ok. reflexivity.
  - split; [exact Hc|]. apply Hrs. vm_compute. reflexivity.
Defined.

(** ** When the queries return *)

Lemma evaluation_outcome_contract models self pairs X :
  one_output_per_input models ->
  _model_input_from_nt self pairs = inr X ->
  exists updates,
    evaluation_outcome models self pairs = inr updates /\
    updates.*1 = pairs.
Proof.
  intros Hc HX.
  destruct (evaluation_outcome models self pairs) as [e|updates] eqn:Hout.
  - exfalso. unfold evaluation_outcome in Hout. rewrite HX in Hout.
    simpl in Hout. rewrite combine_model_results_spec in Hout.
    by rewrite (run_counts_match models self X Hc), Nat.compare_refl in Hout.
  - exists updates. split; [done|]. by eapply evaluation_outcome_keys.
Qed.

Lemma query_result_returns {A : Type} models set_iter (proj : Q * bool -> A)
    start_pos pairs self :
  one_output_per_input models ->
  set_iteration set_iter ->
  let U := unique_pairs_to_evaluate set_iter (mem_at self start_pos) pairs in
  match _model_input_from_nt self U with
  | inl e => (query_result models set_iter proj start_pos pairs self).1 = inl e
  | inr _ =>
      exists rs,
        (query_result models set_iter proj start_pos pairs self).1 = inr rs /\
        length rs = length pairs
  end.
Proof.
  intros Hc Hset U. unfold query_result. fold U.
  destruct (_model_input_from_nt self U) as [e|X] eqn:HX.
  - unfold evaluation_outcome. by rewrite HX.
  - destruct (evaluation_outcome_contract models self U X Hc HX)
      as (updates & -> & Hkeys).
    simpl. rewrite mem_at_memoized_with, mem_at_log_calls, mem_at_ensured.
    destruct (cached_results_inr proj
                (foldl (fun mem pr => <[pr.1 := pr.2]> mem)
                       (mem_at self start_pos) updates) pairs)
      as [rs Hrs].
    + intros p Hp. apply foldl_store_is_Some. rewrite Hkeys.
      destruct (mem_at self start_pos !! p) as [r|] eqn:Hm; [by right|].
      left. by apply (unique_pairs_spec set_iter Hset).
    + exists rs. split; [done|]. by apply res_map_inr in Hrs as [? _].
Qed.

(** X5.  When the models return one output per input, a query raises
    exactly when the encoder raises on the uncached requested pairs, and
    then with the encoder's exception; otherwise it returns one answer per
    requested pair.  In particular a lookup in the cache never fails. *)
Theorem query_returns_when_encoded models set_iter self start_pos pairs :
  one_output_per_input models ->
  set_iteration set_iter ->
  let U := unique_pairs_to_evaluate set_iter (mem_at self start_pos) pairs in
  let c := compute_activity models set_iter start_pos pairs self in
  let d := determine_highly_active models set_iter start_pos pairs self in
  match _model_input_from_nt self U with
  | inl e => c.1 = inl e /\ d.1 = inl e
  | inr _ =>
      exists rs hs, c.1 = inr rs /\ d.1 = inr hs /\
        length rs = length pairs /\ length hs = length pairs
  end.
Proof.
  intros Hc Hset U c d. subst c d.
  rewrite compute_activity_eq, determine_highly_active_eq.
  pose proof (query_result_returns models set_iter fst start_pos pairs self
                Hc Hset) as H1.
  pose proof (query_result_returns models set_iter snd start_pos pairs self
                Hc Hset) as H2.
  simpl in H1, H2. fold U in H1, H2.
  destruct (_model_input_from_nt self U) as [e|X]; [done|].
  destruct H1 as (rs & ? & ?), H2 as (hs & ? & ?). exists rs, hs. done.
Qed.

Lemma query_returns_when_encoded_witness :
  exists rs hs,
    (compute_activity (ex_models (9 # 10) (-3)) ex_set_iter 5
       [ex_pair; ex_pair] ex_self).1 = inr rs /\
    (determine_highly_active (ex_models (9 # 10) (-3)) ex_set_iter 5
       [ex_pair; ex_pair] ex_self).1 = inr hs /\
    length rs = 2%nat /\ length hs = 2%nat.
Proof.
  pose proof (query_returns_when_encoded (ex_models (9 # 10) (-3))
                ex_set_iter ex_self 5 [ex_pair; ex_pair]
                (ex_models_contract _ _) ex_set_iter_spec) as H.
  simpl in H.
  destruct (_model_input_from_nt ex_self
              (unique_pairs_to_evaluate ex_set_iter (mem_at ex_self 5)
                 [ex_pair; ex_pair])) as [e|X] eqn:HX.
  - exfalso. vm_compute in HX. discriminate.
  - exact H.
Defined.

(** ** Empty requests *)

Lemma ensured_present self start_pos :
  is_Some (_memoized_evaluations (ensured self start_pos) !! start_pos).
Proof.
  unfold ensured.
  destruct (_memoized_evaluations self !! start_pos) as [m|] eqn:Hm; [eauto|].
  simpl. rewrite lookup_insert_eq. eauto.
Qed.

Lemma set_iter_nil set_iter : set_iteration set_iter -> set_iter [] = [].
Proof.
  intros Hset. destruct (set_iter []) as [|p l] eqn:Hl; [done|].
  assert (Hp : p ∈ set_iter []) by (rewrite Hl; apply elem_of_cons; by left).
  apply (Hset []) in Hp. by apply elem_of_nil in Hp.
Qed.

(** X6.  An empty request short-circuits at every stage: the evaluation and
    both queries return at once (the queries with an empty list), no model
    is called, and the only change to the predictor is that the start
    position now has a (possibly empty) dict in the cache, with the cached
    entries of every start position as before. *)
Theorem empty_request models set_iter self start_pos :
  set_iteration set_iter ->
  _run_models_and_memoize models start_pos [] self
  = (inr tt, ensured self start_pos) /\
  compute_activity models set_iter start_pos [] self
  = (inr [], ensured self start_pos) /\
  determine_highly_active models set_iter start_pos [] self
  = (inr [], ensured self start_pos) /\
  model_calls (ensured self start_pos) = model_calls self /\
  (forall other, mem_at (ensured self start_pos) other = mem_at self other).
Proof.
  intros Hset.
  assert (Hq : forall (A : Type) (proj : Q * bool -> A),
            query_result models set_iter proj start_pos [] self
            = (inr [], ensured self start_pos)).
  { intros A proj. unfold query_result, unique_pairs_to_evaluate.
    rewrite (set_iter_nil _ Hset). simpl.
    by rewrite (memoized_with_nothing _ _ (ensured_present self start_pos)). }
  split.
  - rewrite run_models_outcome. simpl. unfold memoized_with, ensured, mem_at.
    destruct (_memoized_evaluations self !! start_pos) as [m|] eqn:Hm; simpl.
    + rewrite insert_id by done. by destruct self.
    + done.
  - rewrite compute_activity_eq, determine_highly_active_eq.
    split; [apply Hq|]. split; [apply Hq|].
    split; [apply ensured_fields|]. intros other. apply mem_at_ensured.
Qed.

Lemma empty_request_witness :
  compute_activity (ex_models (9 # 10) (-3)) ex_set_iter 5 [] ex_cached
  = (inr [], ex_cached).
Proof.
  refine (eq_trans
    (proj1 (proj2 (empty_request (ex_models (9 # 10) (-3)) ex_set_iter
                     ex_cached 5 ex_set_iter_spec))) _).
  vm_compute. reflexivity.
Defined.

(** ** Cleanup composed with itself and with the queries *)

Lemma cleanup_memoized_eq start_pos self :
  cleanup_memoized start_pos self
  = (inr tt,
     set_memoized self (delete start_pos (_memoized_evaluations self))).
Proof.
  unfold cleanup_memoized, modify.
  destruct (_memoized_evaluations self !! start_pos) as [m|] eqn:Hm; [done|].
  rewrite delete_id by done. by rewrite set_memoized_id.
Qed.

Lemma query_result_memo {A : Type} models set_iter (proj : Q * bool -> A)
    start_pos pairs self :
  delete start_pos
    (_memoized_evaluations
       (query_result models set_iter proj start_pos pairs self).2)
  = delete start_pos (_memoized_evaluations self).
Proof.
  assert (He : delete start_pos
                 (_memoized_evaluations (ensured self start_pos))
               = delete start_pos (_memoized_evaluations self)).
  { unfold ensured.
    destruct (_memoized_evaluations self !! start_pos); [done|].
    simpl. apply delete_insert_eq. }
  unfold query_result.
  destruct (evaluation_outcome models self _) as [e|updates]; simpl.
  - by rewrite memoized_log_calls.
  - by rewrite delete_insert_eq, memoized_log_calls.
Qed.

(** X7.  A query followed by [cleanup_memoized] at the same start position
    leaves the cache as it was before the query with that start position
    removed, whether the query returned or raised; so when the start
    position was not in the cache, the cache is restored exactly. *)
Theorem query_then_cleanup models set_iter self start_pos pairs :
  let after_c := (compute_activity models set_iter start_pos pairs self).2 in
  let after_d :=
    (determine_highly_active models set_iter start_pos pairs self).2 in
  _memoized_evaluations (cleanup_memoized start_pos after_c).2
  = delete start_pos (_memoized_evaluations self) /\
  _memoized_evaluations (cleanup_memoized start_pos after_d).2
  = delete start_pos (_memoized_evaluations self) /\
  (_memoized_evaluations self !! start_pos = None ->
   _memoized_evaluations (cleanup_memoized start_pos after_c).2
   = _memoized_evaluations self /\
   _memoized_evaluations (cleanup_memoized start_pos after_d).2
   = _memoized_evaluations self).
Proof.
  intros after_c after_d. subst after_c after_d.
  rewrite compute_activity_eq, determine_highly_active_eq.
  rewrite !cleanup_memoized_eq. simpl. rewrite !query_result_memo.
  split; [done|]. split; [done|].
  intros Hnone. by rewrite delete_id.
Qed.

Lemma query_then_cleanup_witness :
  _memoized_evaluations
    (cleanup_memoized 5
       (compute_activity (ex_models (9 # 10) (-3)) ex_set_iter 5 [ex_pair]
          ex_self).2).2
  = _memoized_evaluations ex_self.
Proof.
  apply (proj1 (proj2 (proj2
           (query_then_cleanup (ex_models (9 # 10) (-3)) ex_set_iter
              ex_self 5 [ex_pair])) eq_refl)).
Defined.

(** X8.  [cleanup_memoized] is idempotent, and cleanups at two start
    positions commute: the predictor reached is the same in either order. *)
Theorem cleanup_idempotent_commutes self pos1 pos2 :
  (cleanup_memoized pos1 (cleanup_memoized pos1 self).2).2
  = (cleanup_memoized pos1 self).2 /\
  (cleanup_memoized pos1 (cleanup_memoized pos2 self).2).2
  = (cleanup_memoized pos2 (cleanup_memoized pos1 self).2).2.
Proof.
  rewrite !cleanup_memoized_eq. simpl. unfold set_memoized. simpl.
  split.
  - by rewrite delete_delete_eq.
  - by rewrite delete_delete.
Qed.

(** X9.  After [cleanup_memoized] at a start position, nothing cached there
    is reused: a query at that start position evaluates every distinct
    requested pair again, so its model calls are those of one evaluation of
    all of [set(pairs)]. *)
Theorem cleanup_forces_reevaluation models set_iter self start_pos pairs :
  let self' := (cleanup_memoized start_pos self).2 in
  unique_pairs_to_evaluate set_iter (mem_at self' start_pos) pairs
  = set_iter pairs /\
  model_calls (compute_activity models set_iter start_pos pairs self').2
  = model_calls self ++ evaluation_calls models self (set_iter pairs) /\
  model_calls (determine_highly_active models set_iter start_pos pairs self').2
  = model_calls self ++ evaluation_calls models self (set_iter pairs).
Proof.
  intros self'. subst self'. rewrite cleanup_memoized_eq. simpl.
  set (self' := set_memoized self
                  (delete start_pos (_memoized_evaluations self))).
  assert (Hmem : mem_at self' start_pos = ∅).
  { unfold mem_at, self'. simpl. by rewrite lookup_delete_eq. }
  assert (HU : unique_pairs_to_evaluate set_iter (mem_at self' start_pos) pairs
               = set_iter pairs).
  { rewrite Hmem. unfold unique_pairs_to_evaluate.
    induction (set_iter pairs) as [|p l IH]; [done|]. simpl.
    rewrite lookup_empty.
    rewrite bool_decide_eq_false_2 by (by intros [? ?]). simpl.
    by rewrite IH. }
  split; [done|].
  assert (Hcalls : evaluation_calls models self' (set_iter pairs)
                   = evaluation_calls models self (set_iter pairs))
    by (by apply evaluation_fields).
  rewrite compute_activity_eq, determine_highly_active_eq.
  rewrite !query_model_calls, HU, Hcalls. done.
Qed.

(** ** The answers of the queries *)

(** X10.  With models that score each input on its own, a positive
    [context_nt] and a cache in which every entry is the result of its pair
    (in particular an empty cache), the answer of a query for a pair is the
    decision policy applied to the encoding of that pair alone: it depends
    neither on the other pairs requested nor on what is cached nor on the
    start position. *)
Theorem query_answers_are_policy models set_iter score raw self start_pos
    pairs :
  pointwise models score raw ->
  (0 < context_nt self)%nat ->
  cache_consistent score raw self ->
  (forall rs self',
     compute_activity models set_iter start_pos pairs self = (inr rs, self') ->
     length rs = length pairs /\
     forall i p, pairs !! i = Some p ->
       exists rows, input_vec_of self p = inr rows /\
         rs !! i = Some (policy score raw self rows).1) /\
  (forall hs self',
     determine_highly_active models set_iter start_pos pairs self
     = (inr hs, self') ->
     length hs = length pairs /\
     forall i p, pairs !! i = Some p ->
       exists rows, input_vec_of self p = inr rows /\
         hs !! i = Some (policy score raw self rows).2).
Proof.
  intros Hpw Hc Hcons. split.
  - intros rs self' Hq. rewrite compute_activity_eq in Hq.
    destruct (query_pointwise _ _ _ _ fst _ _ _ _ _ Hpw Hc Hcons Hq)
      as (_ & Hlen & Hall).
    split; [done|]. intros i p Hp. destruct (Hall i p Hp) as (r & Hr & Hi).
    unfold pair_result in Hr.
    destruct (input_vec_of self p) as [|rows]; [done|].
    injection Hr as <-. eauto.
  - intros hs self' Hq. rewrite determine_highly_active_eq in Hq.
    destruct (query_pointwise _ _ _ _ snd _ _ _ _ _ Hpw Hc Hcons Hq)
      as (_ & Hlen & Hall).
    split; [done|]. intros i p Hp. destruct (Hall i p Hp) as (r & Hr & Hi).
    unfold pair_result in Hr.
    destruct (input_vec_of self p) as [|rows]; [done|].
    injection Hr as <-. eauto.
Qed.

Lemma query_answers_are_policy_witness :
  exists rows, input_vec_of ex_self ex_pair = inr rows /\
    [1%Q; 1%Q] !! 0%nat
    = Some (policy (fun _ => 9 # 10) (fun _ => (-3)%Q) ex_self rows).1.
Proof.
  assert (Hpw : pointwise (ex_models (9 # 10) (-3))
                  (fun _ => 9 # 10) (fun _ => (-3)%Q))
    by (intros X; split; reflexivity).
  assert (Hempty : cache_consistent (fun _ => 9 # 10) (fun _ => (-3)%Q)
                     ex_self)
    by (apply empty_cache_consistent; reflexivity).
  assert (Hpos : (0 < context_nt ex_self)%nat) by (vm_compute; lia).
  assert (Hq : compute_activity (ex_models (9 # 10) (-3)) ex_set_iter 5
                 [ex_pair; ex_pair] ex_self = (inr [1%Q; 1%Q], ex_cached))
    by (vm_compute; reflexivity).
  exact (proj2 (proj1 (query_answers_are_policy (ex_models (9 # 10) (-3))
                         ex_set_iter _ _ ex_self 5 [ex_pair; ex_pair]
                         Hpw Hpos Hempty) _ _ Hq)
           0%nat ex_pair eq_refl).
Defined.

(** X11.  The two queries are the two projections of the same cached
    results: after [compute_activity] returns, [determine_highly_active] on
    the same pairs returns without changing the predictor (so without a
    model call), and for every requested position the activity returned by
    the first and the flag returned by the second are the two components of
    the cached entry of the pair. *)
Theorem queries_agree models set_iter self start_pos pairs rs self' :
  set_iteration set_iter ->
  compute_activity models set_iter start_pos pairs self = (inr rs, self') ->
  exists hs,
    determine_highly_active models set_iter start_pos pairs self'
    = (inr hs, self') /\
    length hs = length rs /\
    forall i p, pairs !! i = Some p ->
      exists a h, mem_at self' start_pos !! p = Some (a, h) /\
        rs !! i = Some a /\ hs !! i = Some h.
Proof.
  intros Hset Hq. rewrite compute_activity_eq in Hq.
  destruct (query_idempotent models set_iter Hset fst _ _ _ _ _ Hq)
    as (_ & Hread & _ & Hsub).
  assert (Hrs : length rs = length pairs).
  { unfold query_result in Hq.
    destruct (evaluation_outcome models self _); [done|].
    injection Hq as Hq _. by apply res_map_inr in Hq as [? _]. }
  destruct (Hsub bool snd pairs (fun p Hp => Hp)) as [hs Hhs].
  exists hs. rewrite determine_highly_active_eq. split; [done|].
  assert (Hpos : is_Some (_memoized_evaluations self' !! start_pos)).
  { unfold query_result in Hq.
    destruct (evaluation_outcome models self _); [done|].
    injection Hq as _ <-. unfold memoized_with. simpl.
    rewrite lookup_insert_eq. eauto. }
  assert (Hall : forall p, p ∈ pairs -> is_Some (mem_at self' start_pos !! p)).
  { intros p Hp. apply list_elem_of_lookup in Hp as [i Hi].
    destruct (Hread i p Hi) as (r & Hr & _). eauto. }
  rewrite (query_cached models set_iter Hset snd _ _ _ Hpos Hall) in Hhs.
  injection Hhs as Hhs.
  split; [apply res_map_inr in Hhs as [-> _]; by rewrite Hrs|].
  intros i p Hp. destruct (Hread i p Hp) as ([a h] & Hr & Hi).
  destruct (cached_results_lookup snd _ _ _ Hhs i p Hp) as (r' & Hr' & Hi').
  rewrite Hr in Hr'. injection Hr' as <-. exists a, h. done.
Qed.

Lemma queries_agree_witness :
  exists hs,
    determine_highly_active (ex_models (9 # 10) (-3)) ex_set_iter 5
      [ex_pair; ex_pair] ex_cached = (inr hs, ex_cached) /\
    length hs = 2%nat.
Proof.
  assert (Hq : compute_activity (ex_models (9 # 10) (-3)) ex_set_iter 5
                 [ex_pair; ex_pair] ex_self = (inr [1%Q; 1%Q], ex_cached))
    by (vm_compute; reflexivity).
  destruct (queries_agree _ _ _ _ _ _ _ ex_set_iter_spec Hq)
    as (hs & Hd & Hlen & _).
  exists hs. split; [exact Hd|exact Hlen].
Defined.

(** ** The model calls of a query *)

Lemma active_of_sublist (X : list (list (list Q))) flags :
  active_of X flags `sublist_of` X.
Proof.
  revert flags. induction X as [|x X IH]; intros [|b flags];
    try (unfold active_of; simpl; apply sublist_nil_l).
  rewrite active_of_cons. destruct b; simpl.
  - by apply sublist_skip.
  - by apply sublist_cons.
Qed.

(** X12.  A query calls the models at most twice: the classification model
    at most once, and the regression model at most once and only after the
    classification model; no model is ever called on an empty batch, and
    the regression batch is a sub-list of the classification batch, in the
    same order.  Both queries make the same calls. *)
Theorem model_calls_bounded models set_iter self start_pos pairs :
  exists calls,
    model_calls (compute_activity models set_iter start_pos pairs self).2
    = model_calls self ++ calls /\
    model_calls (determine_highly_active models set_iter start_pos pairs self).2
    = model_calls self ++ calls /\
    (calls = [] \/
     (exists X, X <> [] /\ calls = [(classification_model, X)]) \/
     (exists X A, X <> [] /\ A <> [] /\ A `sublist_of` X /\
        calls = [(classification_model, X); (regression_model, A)])).
Proof.
  rewrite compute_activity_eq, determine_highly_active_eq.
  rewrite !query_model_calls.
  set (U := unique_pairs_to_evaluate set_iter (mem_at self start_pos) pairs).
  exists (evaluation_calls models self U). split; [done|]. split; [done|].
  unfold evaluation_calls, calls_for.
  destruct (_model_input_from_nt self U) as [e|X]; [by left|].
  set (A := active_of X (classification_flags models self X)).
  assert (Hsub : A `sublist_of` X) by apply active_of_sublist.
  destruct X as [|x X].
  - apply sublist_nil_r in Hsub. rewrite Hsub. by left.
  - destruct A as [|a A'] eqn:HA; simpl.
    + right. left. by exists (x :: X).
    + right. right. exists (x :: X), (a :: A'). done.
Qed.

(** ** Construction: the context metadata *)

(** X13.  The constructor fails with [Exception], whatever the thresholds,
    when a [context_nt] file is missing or when the two models disagree on
    [context_nt].  It returns a predictor exactly when both files hold the
    same [context_nt] and both thresholds pass their checks, and the
    predictor is then fully determined: that [context_nt], lower bound 0,
    shift 4, the two thresholds, an empty cache and no model call. *)
Theorem init_context_nt cdir rdir ct rt :
  ((context_nt_arg cdir = None \/ context_nt_arg rdir = None \/
    context_nt_arg cdir <> context_nt_arg rdir) ->
   __init__ cdir rdir ct rt = inl Exception) /\
  (forall self,
     __init__ cdir rdir ct rt = inr self <->
     exists n cthr rthr,
       context_nt_arg cdir = Some n /\ context_nt_arg rdir = Some n /\
       match ct with
       | Some t => cthr = t
       | None => default_threshold_arg cdir = Some cthr
       end /\
       (0 <= cthr)%Q /\ (cthr <= 1)%Q /\
       match rt with
       | Some t => rthr = t /\ (0 <= t)%Q
       | None => exists d, default_threshold_arg rdir = Some d /\
                   rthr = (d + 4)%Q /\ (0 < rthr)%Q
       end /\
       self = mkPredictor 0 4 n cthr rthr ∅ []).
Proof.
  unfold __init__. split.
  - intros Hbad.
    destruct (context_nt_arg cdir) as [nc|]; [|done].
    destruct (context_nt_arg rdir) as [nr|]; [|done].
    destruct (Nat.eqb_spec nc nr) as [->|Hne]; [|done].
    destruct Hbad as [?|[?|?]]; done.
  - intros self. split.
    + destruct (context_nt_arg cdir) as [nc|]; [|done].
      destruct (context_nt_arg rdir) as [nr|]; [|done].
      destruct (Nat.eqb_spec nc nr) as [->|Hne]; [|done]. simpl.
      destruct ct as [tc|]; simpl.
      * py_ge_case tc 0%Q; [|done]. py_ge_case 1%Q tc; [|done].
        destruct rt as [tr|]; simpl.
        -- py_ge_case tr 0%Q; [|done]. intros [= <-].
           exists nr, tc, tr. done.
        -- destruct (default_threshold_arg rdir) as [d|]; simpl; [|done].
           destruct (Qle_bool (d + 4) 0) eqn:Hd; simpl; [done|].
           intros [= <-]. exists nr, tc, (d + 4)%Q.
           repeat split; try done. exists d. repeat split.
           apply Qnot_le_lt. rewrite <- Qle_bool_iff. congruence.
      * destruct (default_threshold_arg cdir) as [dc|]; simpl; [|done].
        py_ge_case dc 0%Q; [|done]. py_ge_case 1%Q dc; [|done].
        destruct rt as [tr|]; simpl.
        -- py_ge_case tr 0%Q; [|done]. intros [= <-].
           exists nr, dc, tr. done.
        -- destruct (default_threshold_arg rdir) as [d|]; simpl; [|done].
           destruct (Qle_bool (d + 4) 0) eqn:Hd; simpl; [done|].
           intros [= <-]. exists nr, dc, (d + 4)%Q.
           repeat split; try done. exists d. repeat split.
           apply Qnot_le_lt. rewrite <- Qle_bool_iff. congruence.
    + intros (n & cthr & rthr & -> & -> & Hct & H0 & H1 & Hrt & ->).
      rewrite Nat.eqb_refl. simpl.
      apply py_ge_true in H0, H1.
      assert (Hreg : match rt with
                     | Some t => rthr = t /\ py_ge t 0 = true
                     | None => exists d, default_threshold_arg rdir = Some d /\
                                 rthr = (d + 4)%Q /\
                                 Qle_bool (d + 4) 0 = false
                     end).
      { destruct rt as [t|].
        - destruct Hrt as [-> Ht]. split; [done|]. by apply py_ge_true.
        - destruct Hrt as (d & Hd & -> & Hpos). exists d.
          split; [done|]. split; [done|].
          apply not_true_is_false. rewrite Qle_bool_iff.
          by apply Qlt_not_le. }
      clear Hrt.
      destruct ct as [t|]; [subst t|rewrite Hct]; simpl;
        rewrite H0, H1; simpl.
      * destruct rt as [t|]; simpl.
        -- destruct Hreg as [-> Ht]. by rewrite Ht.
        -- destruct Hreg as (d & -> & -> & Hd). simpl. by rewrite Hd.
      * destruct rt as [t|]; simpl.
        -- destruct Hreg as [-> Ht]. by rewrite Ht.
        -- destruct Hreg as (d & -> & -> & Hd). simpl. by rewrite Hd.
Qed.

Lemma init_context_nt_witness :
  __init__ ex_cdir (mkModelDir (Some 3%nat) (Some (1 # 2))) None None
  = inl Exception /\
  __init__ ex_cdir ex_rdir None (Some (8 # 10))
  = inr (mkPredictor 0 4 2 (1 # 2) (8 # 10) ∅ []).
Proof.
  split.
  - apply (proj1 (init_context_nt ex_cdir
                    (mkModelDir (Some 3%nat) (Some (1 # 2))) None None)).
    right. right. discriminate.
  - apply (proj2 (init_context_nt ex_cdir ex_rdir None (Some (8 # 10)))).
    exists 2%nat, (1 # 2), (8 # 10).
    repeat split; try reflexivity; vm_compute; discriminate.
Defined.

(** ** Reading the inputs *)

Lemma rstrip_spec line :
  exists trailing,
    line = rstrip line ++ trailing /\
    Forall (fun c => is_space c = true) trailing /\
    forall c, last (rstrip line) = Some c -> is_space c = false.
Proof.
  induction line as [|c line (w & Hl & Hw & Hlast)]; simpl.
  - exists []. done.
  - destruct (rstrip line) as [|r rest] eqn:Hr.
    + destruct (is_space c) eqn:Hc.
      * exists (c :: line). split; [done|]. split; [|done].
        apply Forall_cons. split; [done|]. simpl in Hl. by rewrite Hl.
      * exists line. split; [done|]. simpl in Hl. split; [by rewrite Hl|].
        by intros c' [= <-].
    + exists w. split; [simpl; by rewrite Hl at 1|]. split; [done|].
      intros c' Hc'. apply Hlast. by rewrite last_cons_cons in Hc'.
Qed.

Lemma split_nonempty sep line : split sep line <> [].
Proof.
  destruct line as [|c line]; simpl; [done|].
  destruct (Ascii.eqb c sep); [done|]. by destruct (split sep line).
Qed.

Lemma join_split sep line : join sep (split sep line) = line.
Proof.
  induction line as [|c line IH]; [done|]. simpl.
  destruct (Ascii.eqb_spec c sep) as [->|Hne].
  - pose proof (split_nonempty sep line).
    destruct (split sep line) as [|f fs] eqn:Hs; [done|].
    change (join sep ([] :: f :: fs)) with (sep :: join sep (f :: fs)).
    by rewrite IH.
  - destruct (split sep line) as [|f fs] eqn:Hs.
    + by destruct (split_nonempty sep line).
    + destruct fs as [|f' fs]; simpl in *; by rewrite <- IH.
Qed.

Lemma split_no_sep sep line :
  Forall (fun field => sep ∉ field) (split sep line).
Proof.
  induction line as [|c line IH]; simpl.
  - constructor; [apply not_elem_of_nil|constructor].
  - destruct (Ascii.eqb_spec c sep) as [->|Hne].
    + constructor; [apply not_elem_of_nil|done].
    + destruct (split sep line) as [|f fs]; simpl.
      * constructor; [|done].
        intros [?|?%elem_of_nil]%elem_of_cons; done.
      * inversion IH as [|? ? Hf Hfs]; subst. constructor; [|done].
        intros [?|?]%elem_of_cons; done.
Qed.

Lemma split_length sep line :
  length (split sep line) = S (occurrences sep line).
Proof.
  unfold occurrences. induction line as [|c line IH]; [done|]. simpl.
  destruct (Ascii.eqb_spec c sep) as [->|Hne].
  - rewrite filter_cons_True by done. simpl. by rewrite IH.
  - rewrite filter_cons_False by done.
    destruct (split sep line) as [|f fs]; simpl in *; [done|done].
Qed.

Lemma split_join sep fields :
  fields <> [] ->
  Forall (fun field => sep ∉ field) fields ->
  split sep (join sep fields) = fields.
Proof.
  assert (Hfield : forall field rest,
            sep ∉ field ->
            split sep (field ++ sep :: rest) = field :: split sep rest).
  { induction field as [|c field IH]; intros rest Hn; simpl.
    - by rewrite Ascii.eqb_refl.
    - apply not_elem_of_cons in Hn as [Hc Hn].
      destruct (Ascii.eqb_spec c sep) as [->|_]; [done|].
      by rewrite IH. }
  assert (Hlast : forall field, sep ∉ field -> split sep field = [field]).
  { induction field as [|c field IH]; intros Hn; simpl; [done|].
    apply not_elem_of_cons in Hn as [Hc Hn].
    destruct (Ascii.eqb_spec c sep) as [->|_]; [done|]. by rewrite IH. }
  induction fields as [|f fs IH]; intros Hne Hall; [done|].
  apply Forall_cons in Hall as [Hf Hfs].
  destruct fs as [|f' fs]; [by apply Hlast|].
  change (join sep (f :: f' :: fs)) with (f ++ sep :: join sep (f' :: fs)).
  rewrite Hfield by done. by rewrite IH.
Qed.

Lemma tab_is_space : is_space tab = true.
Proof. reflexivity. Qed.

(** One line is read exactly when, once stripped on the right, it is a
    target and a guide without tabs separated by one tab, the guide no
    longer than the target. *)
Lemma read_line_inr line t g :
  read_line line = inr (t, g) <->
  rstrip (list_ascii_of_string line)
  = list_ascii_of_string t ++ tab :: list_ascii_of_string g /\
  (tab ∉ list_ascii_of_string t) /\ (tab ∉ list_ascii_of_string g) /\
  (String.length g <= String.length t)%nat.
Proof.
  unfold read_line. rewrite !string_length_list.
  set (R := rstrip (list_ascii_of_string line)).
  split.
  - pose proof (join_split tab R) as Hjoin.
    pose proof (split_no_sep tab R) as Hno.
    destruct (split tab R) as [|T [|G [|F fs]]]; try done.
    destruct (Nat.ltb_spec (length T) (length G)); [done|].
    intros [= <- <-]. rewrite !list_ascii_of_string_of_list_ascii.
    apply Forall_cons in Hno as [HT Hno]. apply Forall_cons in Hno as [HG _].
    simpl in Hjoin. done.
  - intros (HR & HT & HG & Hlen).
    rewrite HR.
    change (list_ascii_of_string t ++ tab :: list_ascii_of_string g)
      with (join tab [list_ascii_of_string t; list_ascii_of_string g]).
    rewrite split_join; [|done|by repeat (apply Forall_cons; split)].
    destruct (Nat.ltb_spec (length (list_ascii_of_string t))
                (length (list_ascii_of_string g))); [lia|].
    by rewrite !string_of_list_ascii_of_string.
Qed.

(** X14.  When [read_inputs] returns, it returns one pair per line, in
    order, and for every line: the line stripped of trailing whitespace is
    the target, a tab and the guide; neither contains a tab; the guide is
    not empty and does not end in whitespace; and the target is at least as
    long as the guide (so it is not empty either). *)
Theorem read_inputs_sound lines inputs :
  read_inputs lines = inr inputs ->
  length inputs = length lines /\
  forall i line, lines !! i = Some line ->
    exists t g, inputs !! i = Some (t, g) /\
      rstrip (list_ascii_of_string line)
      = list_ascii_of_string t ++ tab :: list_ascii_of_string g /\
      (tab ∉ list_ascii_of_string t) /\ (tab ∉ list_ascii_of_string g) /\
      (0 < String.length g)%nat /\
      (String.length g <= String.length t)%nat /\
      (forall c, last (list_ascii_of_string g) = Some c -> is_space c = false).
Proof.
  intros Hread. unfold read_inputs in Hread.
  apply res_map_inr in Hread as [Hlen Hall]. split; [done|].
  intros i line Hi. destruct (Hall i line Hi) as ([t g] & Hline & Hin).
  exists t, g. split; [done|].
  apply read_line_inr in Hline as (HR & HT & HG & Hle).
  destruct (rstrip_spec (list_ascii_of_string line)) as (w & _ & _ & Hlast).
  rewrite HR in Hlast.
  repeat split; try done.
  - rewrite string_length_list.
    destruct (list_ascii_of_string g) as [|c G] eqn:Hg; [|simpl; lia].
    exfalso. specialize (Hlast tab). rewrite last_snoc in Hlast.
    specialize (Hlast eq_refl). by rewrite tab_is_space in Hlast.
  - intros c Hc. apply Hlast.
    destruct (list_ascii_of_string g) as [|c' G] eqn:Hg; [done|].
    rewrite last_app, last_cons_cons, Hc. done.
Qed.

Lemma read_inputs_sound_witness :
  length [ex_pair] = length [ex_line] /\
  exists t g, [ex_pair] !! 0%nat = Some (t, g) /\ (0 < String.length g)%nat.
Proof.
  assert (Hread : read_inputs [ex_line] = inr [ex_pair])
    by (vm_compute; reflexivity).
  destruct (read_inputs_sound [ex_line] [ex_pair] Hread) as [Hlen Hall].
  split; [exact Hlen|].
  destruct (Hall 0%nat ex_line eq_refl) as (t & g & Hi & _ & _ & _ & Hg & _).
  exists t, g. split; [exact Hi|exact Hg].
Defined.

Lemma rstrip_all_space line :
  Forall (fun c => is_space c = true) line -> rstrip line = [].
Proof.
  induction 1 as [|c line Hc _ IH]; [done|]. simpl. by rewrite IH, Hc.
Qed.

Lemma res_map_app_inl {A B : Type} (f : A -> res B) before a after bs e :
  res_map f before = inr bs -> f a = inl e ->
  res_map f (before ++ a :: after) = inl e.
Proof.
  revert bs. induction before as [|x before IH]; intros bs; simpl.
  - intros _ ->. done.
  - destruct (f x) as [|b]; [done|]. simpl.
    destruct (res_map f before) as [|bs'] eqn:Hb; [done|]. simpl.
    intros _ Ha. by rewrite (IH bs' eq_refl Ha).
Qed.

(** X15.  [read_inputs] raises the exception of the first line that cannot
    be read and returns nothing.  A line that, stripped of trailing
    whitespace, does not contain exactly one tab fails the assertion on the
    number of columns; this includes every empty or blank line, and every
    line whose second column is empty.  A line with exactly two columns
    whose target is shorter than its guide raises [Exception]. *)
Theorem read_inputs_errors before line after inputs e :
  read_inputs before = inr inputs ->
  read_line line = inl e ->
  read_inputs (before ++ line :: after) = inl e /\
  (e = AssertionError \/ e = Exception) /\
  (e = AssertionError <->
   occurrences tab (rstrip (list_ascii_of_string line)) <> 1%nat) /\
  (Forall (fun c => is_space c = true) (list_ascii_of_string line) ->
   e = AssertionError) /\
  (e = Exception <->
   exists T G, rstrip (list_ascii_of_string line) = T ++ tab :: G /\
     (tab ∉ T) /\ (tab ∉ G) /\ (length T < length G)%nat).
Proof.
  intros Hbefore Hline.
  split; [by eapply res_map_app_inl|].
  unfold read_line in Hline.
  set (R := rstrip (list_ascii_of_string line)) in *.
  pose proof (split_length tab R) as Hlen.
  pose proof (join_split tab R) as Hjoin.
  pose proof (split_no_sep tab R) as Hno.
  assert (Hblank : Forall (fun c => is_space c = true)
                     (list_ascii_of_string line) ->
                   occurrences tab R = 0%nat).
  { intros Hall. unfold R. by rewrite rstrip_all_space. }
  destruct (split tab R) as [|T [|G [|F fs]]] eqn:Hs.
  - injection Hline as <-. simpl in Hlen. lia.
  - injection Hline as <-. simpl in Hlen.
    split; [by left|]. split; [split; [lia|done]|].
    split; [done|]. split; [done|].
    intros (T' & G' & HR & HT' & HG' & _).
    assert (Hs' : split tab R = [T'; G']).
    { rewrite HR. change (T' ++ tab :: G') with (join tab [T'; G']).
      apply split_join; [done|]. by repeat (constructor; [done|]). }
    rewrite Hs in Hs'. discriminate.
  - simpl in Hlen. simpl in Hjoin.
    inversion Hno as [|? ? HT Hno']; subst.
    inversion Hno' as [|? ? HG _]; subst.
    destruct (Nat.ltb_spec (length T) (length G)) as [Hlt|Hge]; [|done].
    injection Hline as <-.
    split; [by right|]. split; [split; [done|lia]|].
    split; [intros Hall; specialize (Hblank Hall); lia|].
    split; [|done]. intros _. exists T, G. done.
  - injection Hline as <-. simpl in Hlen.
    split; [by left|]. split; [split; [lia|done]|].
    split; [done|]. split; [done|].
    intros (T' & G' & HR & HT' & HG' & _).
    assert (Hs' : split tab R = [T'; G']).
    { rewrite HR. change (T' ++ tab :: G') with (join tab [T'; G']).
      apply split_join; [done|]. by repeat (constructor; [done|]). }
    rewrite Hs in Hs'. discriminate.
Qed.

Lemma read_inputs_errors_witness :
  read_inputs [ex_line; String newline EmptyString; ex_line]
  = inl AssertionError.
Proof.
  refine (proj1 (read_inputs_errors [ex_line] (String newline EmptyString)
                   [ex_line] [ex_pair] AssertionError _ _));
    vm_compute; reflexivity.
Defined.

(** ** Writing the predictions *)

Lemma list_ascii_of_string_app (s1 s2 : string) :
  list_ascii_of_string (s1 ++ s2)%string
  = list_ascii_of_string s1 ++ list_ascii_of_string s2.
Proof. induction s1 as [|c s1 IH]; simpl; [done|]. by rewrite IH. Qed.

Lemma write_preds_length str_of_pred inputs preds :
  length (write_preds str_of_pred inputs preds)
  = Nat.min (length inputs) (length preds).
Proof. apply length_zip_with. Qed.

Lemma write_preds_lookup str_of_pred inputs preds i t g pred :
  inputs !! i = Some (t, g) -> preds !! i = Some pred ->
  exists line,
    write_preds str_of_pred inputs preds !! i = Some line /\
    list_ascii_of_string line
    = (list_ascii_of_string t
       ++ tab :: list_ascii_of_string g
       ++ tab :: list_ascii_of_string (str_of_pred pred)) ++ [newline].
Proof.
  intros Hi Hp. unfold write_preds. eexists. split.
  - rewrite lookup_zip_with, Hi. simpl. rewrite Hp. simpl. reflexivity.
  - simpl. rewrite !list_ascii_of_string_app. simpl.
    by rewrite ?list_ascii_of_string_app, <- ?app_assoc.
Qed.

(** X16.  [write_preds] writes one line per input that has a prediction, in
    order (as many as the shorter of the two lists): the target, a tab, the
    guide, a tab, the prediction and a newline.  When the three fields
    contain no tab, splitting the row on tabs gives back exactly the target,
    the guide and the prediction. *)
Theorem write_preds_rows str_of_pred inputs preds :
  length (write_preds str_of_pred inputs preds)
  = Nat.min (length inputs) (length preds) /\
  forall i t g pred,
    inputs !! i = Some (t, g) -> preds !! i = Some pred ->
    exists line,
      write_preds str_of_pred inputs preds !! i = Some line /\
      let row :=
        list_ascii_of_string t
        ++ tab :: list_ascii_of_string g
        ++ tab :: list_ascii_of_string (str_of_pred pred) in
      list_ascii_of_string line = row ++ [newline] /\
      ((tab ∉ list_ascii_of_string t) -> (tab ∉ list_ascii_of_string g) ->
       (tab ∉ list_ascii_of_string (str_of_pred pred)) ->
       split tab row
       = [list_ascii_of_string t; list_ascii_of_string g;
          list_ascii_of_string (str_of_pred pred)]).
Proof.
  unfold write_preds. split; [apply length_zip_with|].
  intros i t g pred Hi Hp. eexists. split.
  - rewrite lookup_zip_with, Hi. simpl. rewrite Hp. simpl. reflexivity.
  - cbv zeta. split.
    + simpl. rewrite !list_ascii_of_string_app. simpl.
      by rewrite ?list_ascii_of_string_app, <- ?app_assoc.
    + intros HT HG HP.
      change (list_ascii_of_string t
              ++ tab :: list_ascii_of_string g
              ++ tab :: list_ascii_of_string (str_of_pred pred))
        with (join tab [list_ascii_of_string t; list_ascii_of_string g;
                        list_ascii_of_string (str_of_pred pred)]).
      apply split_join; [done|]. by repeat (constructor; [done|]).
Qed.

Lemma write_preds_rows_witness :
  length (write_preds (fun _ => "1.0"%string) [ex_pair] [1%Q; 2%Q]) = 1%nat /\
  write_preds (fun _ => "1.0"%string) [ex_pair] [1%Q; 2%Q] !! 0%nat
  = Some ("TTACGGG" ++ String tab ("ACG" ++ String tab ("1.0"
            ++ String newline EmptyString)))%string.
Proof.
  destruct (write_preds_rows (fun _ => "1.0"%string) [ex_pair] [1%Q; 2%Q])
    as [Hlen Hrows].
  split; [exact Hlen|].
  destruct (Hrows 0%nat "TTACGGG"%string "ACG"%string 1%Q eq_refl eq_refl)
    as (line & Hline & _).
  rewrite Hline. vm_compute in Hline. injection Hline as <-. reflexivity.
Defined.

(** ** The entry point *)

Lemma init_fresh cdir rdir ct rt predictor :
  __init__ cdir rdir ct rt = inr predictor ->
  regression_lower_bound predictor = 0%Q /\
  _memoized_evaluations predictor = ∅ /\
  model_calls predictor = [].
Proof.
  unfold __init__.
  destruct (context_nt_arg cdir) as [nc|]; [|done].
  destruct (context_nt_arg rdir) as [nr|]; [|done].
  destruct (negb (nc =? nr)%nat); [done|].
  match goal with
  | |- (let* _ := ?a in let* _ := ?b in _) = _ -> _ =>
      destruct a as [|cthr]; [done|]; simpl;
      destruct b as [|rthr]; [done|]; simpl
  end.
  by intros [= <-].
Qed.

Lemma unique_pairs_empty set_iter mem pairs :
  mem = ∅ -> unique_pairs_to_evaluate set_iter mem pairs = set_iter pairs.
Proof.
  intros ->. unfold unique_pairs_to_evaluate.
  induction (set_iter pairs) as [|p l IH]; [done|]. simpl.
  rewrite lookup_empty.
  rewrite bool_decide_eq_false_2 by (by intros [? ?]). simpl. by rewrite IH.
Qed.

Lemma compute_activity_nonneg models set_iter self start_pos pairs rs self' :
  (0 <= regression_lower_bound self)%Q ->
  cache_ok self ->
  compute_activity models set_iter start_pos pairs self = (inr rs, self') ->
  length rs = length pairs /\ Forall (fun a => (0 <= a)%Q) rs.
Proof.
  intros Hlb Hok Hq. rewrite compute_activity_eq in Hq.
  pose proof (query_result_cache_ok models set_iter fst start_pos pairs self
                Hlb Hok) as Hc.
  rewrite Hq in Hc. simpl in Hc.
  unfold query_result in Hq.
  destruct (evaluation_outcome models self _); [done|].
  injection Hq as Hres Hself. rewrite Hself in Hres.
  split; [by apply res_map_inr in Hres as [? _]|].
  apply Forall_lookup. intros i a Hi.
  destruct (lookup_lt_is_Some_2 pairs i) as [p Hp].
  { apply res_map_inr in Hres as [<- _]. by apply lookup_lt_Some in Hi. }
  destruct (cached_results_lookup fst _ _ _ Hres i p Hp) as (r & Hr & Hi').
  rewrite Hi in Hi'. injection Hi' as ->. by destruct (Hc _ _ _ Hr).
Qed.

Lemma compute_activity_cached models set_iter self start_pos pairs rs self' :
  compute_activity models set_iter start_pos pairs self = (inr rs, self') ->
  forall i p, pairs !! i = Some p ->
    exists r, mem_at self' start_pos !! p = Some r /\ rs !! i = Some r.1.
Proof.
  intros Hq i p Hp. rewrite compute_activity_eq in Hq.
  unfold query_result in Hq.
  destruct (evaluation_outcome models self _); [done|].
  injection Hq as Hres Hself. rewrite Hself in Hres.
  exact (cached_results_lookup fst _ _ _ Hres i p Hp).
Qed.

(** X17.  When [main] completes, the predictor was built with the default
    thresholds and every line of the input was read; the predictions are
    the list [compute_activity] returns for the inputs at start position -1
    on that fresh predictor, the output is what [write_preds] writes for the
    inputs and these predictions, and the model calls are those of that one
    query: a single evaluation of the distinct input pairs.  So the output
    has one line per input line, in order, made of the target, a tab, the
    guide, a tab, the activity predicted for the pair (the one cached for
    it by the query, which is at least 0) and a newline; and every target
    has the length of its guide plus twice [context_nt]. *)
Theorem main_output models set_iter str_of_pred cdir rdir lines out calls :
  main models set_iter str_of_pred cdir rdir lines = (inr out, calls) ->
  exists predictor inputs preds predictor',
    __init__ cdir rdir None None = inr predictor /\
    read_inputs lines = inr inputs /\
    compute_activity models set_iter (-1) inputs predictor
    = (inr preds, predictor') /\
    out = write_preds str_of_pred inputs preds /\
    calls = model_calls predictor' /\
    length out = length lines /\ length preds = length lines /\
    calls = evaluation_calls models predictor (set_iter inputs) /\
    forall i t g, inputs !! i = Some (t, g) ->
      String.length t = (String.length g + 2 * context_nt predictor)%nat /\
      exists a h line,
        preds !! i = Some a /\
        mem_at predictor' (-1) !! (t, g) = Some (a, h) /\
        (0 <= a)%Q /\ out !! i = Some line /\
        list_ascii_of_string line
        = (list_ascii_of_string t
           ++ tab :: list_ascii_of_string g
           ++ tab :: list_ascii_of_string (str_of_pred a)) ++ [newline].
Proof.
  unfold main.
  destruct (__init__ cdir rdir None None) as [|predictor] eqn:Hinit; [done|].
  destruct (read_inputs lines) as [|inputs] eqn:Hread; [done|].
  destruct (forallb _ inputs) eqn:Hcheck; [|done].
  destruct (compute_activity models set_iter (-1) inputs predictor)
    as [[e|preds] predictor'] eqn:Hq; [done|].
  intros [= <- <-]. exists predictor, inputs, preds, predictor'.
  destruct (init_fresh _ _ _ _ _ Hinit) as (Hlb & Hmemo & Hcalls).
  assert (Hinputs : length inputs = length lines).
  { unfold read_inputs in Hread. by apply res_map_inr in Hread as [? _]. }
  destruct (compute_activity_nonneg models set_iter predictor (-1) inputs
              preds predictor') as [Hlen Hnonneg];
    [rewrite Hlb; done|by apply empty_cache_ok|done|].
  pose proof (write_preds_length str_of_pred inputs preds) as Hout.
  split; [done|]. split; [done|]. split; [done|]. split; [done|].
  split; [done|].
  split; [rewrite Hout, Hlen, Hinputs; lia|]. split; [lia|].
  split.
  - pose proof (query_model_calls models set_iter fst (-1) inputs predictor)
      as Hmc.
    rewrite <- compute_activity_eq, Hq in Hmc. simpl in Hmc.
    rewrite Hmc, Hcalls. simpl. f_equal. apply unique_pairs_empty.
    unfold mem_at. by rewrite Hmemo, lookup_empty.
  - intros i t g Hi. split.
    + rewrite forallb_forall in Hcheck.
      specialize (Hcheck (t, g)). simpl in Hcheck.
      symmetry. apply Nat.eqb_eq, Hcheck.
      apply list_elem_of_In. by eapply list_elem_of_lookup_2.
    + destruct (lookup_lt_is_Some_2 preds i) as [a Ha];
        [rewrite Hlen; by apply lookup_lt_Some in Hi|].
      destruct (write_preds_lookup str_of_pred inputs preds i t g a Hi Ha)
        as (line & Hline & Hchars).
      destruct (compute_activity_cached models set_iter predictor (-1)
                  inputs preds predictor' Hq i (t, g) Hi)
        as ([a' h] & Hmem & Ha').
      rewrite Ha in Ha'. injection Ha' as ->.
      exists a', h, line. split; [done|]. split; [done|].
      rewrite Forall_lookup in Hnonneg. split; [by eapply Hnonneg|]. done.
Qed.

Lemma main_output_witness :
  exists out calls,
    main (ex_models (9 # 10) (-3)) ex_set_iter (fun _ => "1.0"%string)
      ex_cdir ex_rdir [ex_line; ex_line] = (inr out, calls) /\
    length out = 2%nat /\ length calls = 2%nat.
Proof.
  destruct (main (ex_models (9 # 10) (-3)) ex_set_iter
              (fun _ => "1.0"%string) ex_cdir ex_rdir [ex_line; ex_line])
    as [[e|out] calls] eqn:Hmain.
  - exfalso. vm_compute in Hmain. discriminate.
  - exists out, calls. split; [reflexivity|].
    destruct (main_output _ _ _ _ _ _ _ _ Hmain)
      as (predictor & inputs & preds & predictor' & _ & _ & _ & _ & _
          & Hout & _ & _ & _).
    split; [exact Hout|].
    vm_compute in Hmain. injection Hmain as _ <-. reflexivity.
Defined.

(** X18.  [main] stops before any model is called when the predictor cannot
    be built or the input cannot be read, with the exception of the
    constructor or of [read_inputs]; and when some input row has a target
    whose length is not the length of its guide plus twice [context_nt], it
    stops with a [NameError] (the message of its check refers to the
    undefined name [model]), again before any model is called. *)
Theorem main_checks models set_iter str_of_pred cdir rdir lines :
  (forall e, __init__ cdir rdir None None = inl e ->
     main models set_iter str_of_pred cdir rdir lines = (inl (Raised e), [])) /\
  (forall predictor e,
     __init__ cdir rdir None None = inr predictor ->
     read_inputs lines = inl e ->
     main models set_iter str_of_pred cdir rdir lines = (inl (Raised e), [])) /\
  (forall predictor inputs i t g,
     __init__ cdir rdir None None = inr predictor ->
     read_inputs lines = inr inputs ->
     inputs !! i = Some (t, g) ->
     String.length t <> (String.length g + 2 * context_nt predictor)%nat ->
     main models set_iter str_of_pred cdir rdir lines = (inl NameError, [])).
Proof.
  unfold main. split; [|split].
  - by intros e ->.
  - by intros predictor e -> ->.
  - intros predictor inputs i t g -> -> Hi Hne.
    destruct (forallb _ inputs) eqn:Hcheck; [|done].
    exfalso. rewrite forallb_forall in Hcheck.
    specialize (Hcheck (t, g)). simpl in Hcheck.
    apply Hne. symmetry. apply Nat.eqb_eq, Hcheck.
    apply list_elem_of_In. by eapply list_elem_of_lookup_2.
Qed.

Lemma main_checks_witness :
  main (ex_models (9 # 10) (-3)) ex_set_iter (fun _ => "1.0"%string)
    ex_cdir ex_rdir
    [ex_line; ("TTACGGGA" ++ String tab "ACG")%string]
  = (inl NameError, []).
Proof.
  eapply (proj2 (proj2 (main_checks (ex_models (9 # 10) (-3)) ex_set_iter
                          (fun _ => "1.0"%string) ex_cdir ex_rdir _))
            _ _ 1%nat "TTACGGGA"%string "ACG"%string).
  - vm_compute. reflexivity.
  - vm_compute. reflexivity.
  - reflexivity.
  - vm_compute. discriminate.
Defined.

Lemma read_line_guide line t g :
  read_line line = inr (t, g) -> (0 < String.length g)%nat.
Proof.
  intros Hline. apply read_line_inr in Hline as (HR & _ & _ & _).
  destruct (rstrip_spec (list_ascii_of_string line)) as (w & _ & _ & Hlast).
  rewrite HR in Hlast. rewrite string_length_list.
  destruct (list_ascii_of_string g) as [|c G] eqn:Hg; [|simpl; lia].
  exfalso. specialize (Hlast tab). rewrite last_snoc in Hlast.
  specialize (Hlast eq_refl). by rewrite tab_is_space in Hlast.
Qed.

Lemma model_input_ok self pairs :
  (forall p, p ∈ pairs ->
     String.length p.1 = row_count self p /\ (0 < String.length p.2)%nat /\
     over_alphabet p.1 /\ over_alphabet p.2) ->
  (forall p q, p ∈ pairs -> q ∈ pairs -> String.length p.2 = String.length q.2) ->
  exists X, _model_input_from_nt self pairs = inr X.
Proof.
  intros Hall Hsame. destruct pairs as [|pair0 rest]; [by eexists|].
  unfold _model_input_from_nt.
  eexists. apply (res_map_ok _ (fun p => rows_of (context_nt self) p.1 p.2)).
  intros [t g] Hin. destruct (Hall _ Hin) as (Hlen & Hpos & Ht & Hg).
  unfold row_count in Hlen. simpl in Hlen, Hpos, Ht, Hg.
  cbv beta. rewrite (input_vec_of_ok self t g Ht Hg Hlen).
  change (np_assign (2 * context_nt self + String.length pair0.2)
            (rows_of (context_nt self) t g)
          = inr (rows_of (context_nt self) t g)).
  pose proof (Hsame (t, g) pair0 Hin (list_elem_of_here _ _)) as Heq.
  simpl in Heq.
  apply np_assign_same.
  - rewrite rows_of_length by done. rewrite Hlen. by rewrite Heq.
  - rewrite <- Heq. lia.
Qed.

Lemma main_past_checks models set_iter str_of_pred cdir rdir lines predictor
    inputs :
  __init__ cdir rdir None None = inr predictor ->
  read_inputs lines = inr inputs ->
  (forall t g, (t, g) ∈ inputs ->
     String.length t = (String.length g + 2 * context_nt predictor)%nat) ->
  main models set_iter str_of_pred cdir rdir lines
  = match compute_activity models set_iter (-1) inputs predictor with
    | (inl e, predictor') => (inl (Raised e), model_calls predictor')
    | (inr preds, predictor') =>
        (inr (write_preds str_of_pred inputs preds), model_calls predictor')
    end.
Proof.
  intros Hinit Hread Hlen. unfold main. rewrite Hinit, Hread.
  destruct (forallb _ inputs) eqn:Hcheck; [done|].
  exfalso. apply not_true_iff_false in Hcheck. apply Hcheck.
  apply forallb_forall. intros [t g] Hin. apply Nat.eqb_eq. symmetry.
  by apply Hlen, list_elem_of_In.
Qed.

(** X19.  Once the predictor is built and the input is read, with models
    that return one output per input: if every row has a target as long as
    its guide plus twice [context_nt], only recognized bases, and all guides
    have the same length, then [main] completes and writes one line per
    input line.  If instead [main] raises after its checks, no model was
    called, and the exception is either a [KeyError] for a character of the
    input that is not a recognized base or a [ValueError] of the batch
    assignment; the length assertion of the encoder never fails there. *)
Theorem main_outcomes models set_iter str_of_pred cdir rdir lines predictor
    inputs :
  one_output_per_input models ->
  set_iteration set_iter ->
  __init__ cdir rdir None None = inr predictor ->
  read_inputs lines = inr inputs ->
  ((forall t g, (t, g) ∈ inputs ->
      String.length t = (String.length g + 2 * context_nt predictor)%nat /\
      over_alphabet t /\ over_alphabet g) ->
   (forall p q, p ∈ inputs -> q ∈ inputs ->
      String.length p.2 = String.length q.2) ->
   exists out,
     (main models set_iter str_of_pred cdir rdir lines).1 = inr out /\
     length out = length lines) /\
  (forall e calls,
     main models set_iter str_of_pred cdir rdir lines = (inl (Raised e), calls) ->
     calls = [] /\
     (e = ValueError \/
      exists ch p, e = KeyError ch /\ ~ recognized ch /\ p ∈ inputs /\
        occurs_in ch p)).
Proof.
  intros Hmodels Hset Hinit Hread.
  destruct (init_fresh _ _ _ _ _ Hinit) as (_ & Hmemo & Hcalls).
  assert (HU : unique_pairs_to_evaluate set_iter (mem_at predictor (-1)) inputs
               = set_iter inputs).
  { apply unique_pairs_empty. unfold mem_at. by rewrite Hmemo, lookup_empty. }
  pose proof (query_result_returns models set_iter fst (-1) inputs predictor
                Hmodels Hset) as Hret.
  cbv zeta in Hret. rewrite HU, <- compute_activity_eq in Hret.
  pose proof (query_model_calls models set_iter fst (-1) inputs predictor)
    as Hmc.
  rewrite HU, <- compute_activity_eq, Hcalls in Hmc. simpl in Hmc.
  split.
  - intros Hall Hsame.
    rewrite (main_past_checks _ _ _ _ _ _ _ _ Hinit Hread)
      by (intros t g Hin; by destruct (Hall t g Hin)).
    destruct (model_input_ok predictor (set_iter inputs)) as [X HX].
    + intros [t g] Hin. apply (proj2 (Hset inputs)) in Hin.
      destruct (Hall t g Hin) as (Hlen & Ht & Hg).
      unfold row_count. simpl. repeat split; [lia| |done|done].
      unfold read_inputs in Hread.
      apply list_elem_of_lookup in Hin as [i Hi].
      apply res_map_inr in Hread as [Hlens Hrows].
      destruct (lookup_lt_is_Some_2 lines i) as [line Hline];
        [rewrite <- Hlens; by apply lookup_lt_Some in Hi|].
      destruct (Hrows i line Hline) as (b & Hb & Hi').
      rewrite Hi in Hi'. injection Hi' as <-. by eapply read_line_guide.
    + intros p q Hp Hq. apply (proj2 (Hset inputs)) in Hp, Hq. by apply Hsame.
    + rewrite HX in Hret. destruct Hret as (rs & Hrs & Hlen).
      destruct (compute_activity models set_iter (-1) inputs predictor)
        as [[e|preds] predictor'] eqn:Hq; simpl in Hrs; [done|].
      injection Hrs as ->. simpl. eexists. split; [done|].
      rewrite write_preds_length, Hlen. unfold read_inputs in Hread.
      apply res_map_inr in Hread as [-> _]. lia.
  - intros e calls Hmain.
    assert (Hlens : forall t g, (t, g) ∈ inputs ->
              String.length t
              = (String.length g + 2 * context_nt predictor)%nat).
    { intros t g Hin. revert Hmain. unfold main. rewrite Hinit, Hread.
      destruct (forallb _ inputs) eqn:Hcheck; [|done]. intros _.
      rewrite forallb_forall in Hcheck.
      specialize (Hcheck (t, g)). simpl in Hcheck.
      symmetry. apply Nat.eqb_eq, Hcheck. by apply list_elem_of_In. }
    rewrite (main_past_checks _ _ _ _ _ _ _ _ Hinit Hread Hlens) in Hmain.
    destruct (compute_activity models set_iter (-1) inputs predictor)
      as [[e'|preds] predictor'] eqn:Hq; [|done].
    injection Hmain as <- <-. simpl in Hret, Hmc.
    unfold evaluation_calls in Hmc.
    destruct (_model_input_from_nt predictor (set_iter inputs))
      as [e''|X] eqn:HX.
    + injection Hret as <-. split; [done|].
      unfold _model_input_from_nt in HX.
      destruct (set_iter inputs) as [|pair0 rest] eqn:Hit; [done|].
      apply res_map_inl in HX as ([t g] & Hin & Hfail).
      rewrite <- Hit in Hin. apply (proj2 (Hset inputs)) in Hin.
      destruct (input_vec_of predictor (t, g)) as [e1|rows] eqn:Hvec;
        simpl in Hfail.
      * injection Hfail as ->.
        destruct (input_vec_of_inl predictor t g e') as (ch & -> & Hch & Hocc);
          [rewrite (Hlens t g Hin); lia|done|].
        right. by exists ch, (t, g).
      * left. by eapply np_assign_inl.
    + destruct Hret as (rs & Hrs & _). simpl in Hrs. done.
Qed.

Lemma main_outcomes_witness :
  exists out,
    (main (ex_models (9 # 10) (-3)) ex_set_iter (fun _ => "1.0"%string)
       ex_cdir ex_rdir [ex_line; ex_line]).1 = inr out /\
    length out = 2%nat.
Proof.
  assert (Hin : forall p, p ∈ [ex_pair; ex_pair] -> p = ex_pair).
  { intros p Hp. apply list_elem_of_In in Hp. simpl in Hp.
    destruct Hp as [<-|[<-|[]]]; reflexivity. }
  refine (proj1 (main_outcomes (ex_models (9 # 10) (-3)) ex_set_iter
                   (fun _ => "1.0"%string) ex_cdir ex_rdir [ex_line; ex_line]
                   ex_self [ex_pair; ex_pair]
                   (ex_models_contract _ _) ex_set_iter_spec _ _) _ _).
  - vm_compute. reflexivity.
  - vm_compute. reflexivity.
  - intros t g Hp. apply Hin in Hp. injection Hp as -> ->.
    split; [reflexivity|].
    split; unfold over_alphabet; simpl;
      repeat (constructor; [eexists; reflexivity|]); constructor.
  - intros p q Hp Hq. rewrite (Hin p Hp), (Hin q Hq). reflexivity.
Defined.
